(** * Context propagation over static template text (autoesc/context_update.py)

    A shallow embedding of [context_update.py]: the regular expressions of the
    transition table, the transition classes, the token scanner
    [_process_next_token], the driver [process_raw_text], [context_union] and
    [_end_of_attr_value], with the properties of the specification proved
    (or refuted) on them.

    Texts are Python 2 byte strings (the driver writes to a [cStringIO]
    buffer): lists of 8-bit characters.  Contexts are Python integers: [Z]
    with [Z.land], [Z.lor] and [Z.lnot]. *)

From Stdlib Require Import ZArith List Ascii String Bool Arith Lia.
Import ListNotations.

Set Default Goal Selector "!".

(** ** Texts *)

Definition pystr := list ascii.

(** A string literal as a text. *)
Definition str (s : string) : pystr := list_ascii_of_string s.

(** The quote characters and the line feed. *)
Definition dquote : ascii := ascii_of_nat 34.
Definition squote : ascii := ascii_of_nat 39.
Definition LF_char : ascii := ascii_of_nat 10.

(** [s[:n]] and [s[n:]] for [0 <= n]. *)
Definition upto (n : nat) (s : pystr) : pystr := firstn n s.
Definition from (n : nat) (s : pystr) : pystr := skipn n s.

(** [s[i:j]] for [0 <= i <= j]. *)
Definition slice (i j : nat) (s : pystr) : pystr := firstn (j - i) (skipn i s).

Definition text_eqb (a b : pystr) : bool :=
  if list_eq_dec ascii_dec a b then true else false.

Lemma text_eqb_eq (a b : pystr) : text_eqb a b = true <-> a = b.
Proof.
  unfold text_eqb. destruct (list_eq_dec ascii_dec a b); split; congruence.
Qed.

(** ** The context (autoesc/context.py) *)

Module ContextBits.
#[local] Open Scope Z_scope.

(** Modelled from the spec: the module [autoesc.context] (the constants
    [STATE_*], [ELEMENT_*], [ATTR_*], [DELIM_*], [URL_PART_*], [JS_CTX_*],
    their accessors, [DELIM_TEXT] and [after_attr_delimiter]) is not among
    the sources.  Section 3.1 of the specification describes a context as a
    packed integer of six disjoint bit fields and lists the values of each
    field; the fields are laid out here in that order, the values of a field
    numbered in the order of the list. *)
Definition STATE_TEXT : Z := 0.
Definition STATE_RCDATA : Z := 1.
Definition STATE_HTML_BEFORE_TAG_NAME : Z := 2.
Definition STATE_TAG_NAME : Z := 3.
Definition STATE_TAG : Z := 4.
Definition STATE_ATTR_NAME : Z := 5.
Definition STATE_AFTER_NAME : Z := 6.
Definition STATE_BEFORE_VALUE : Z := 7.
Definition STATE_ATTR : Z := 8.
Definition STATE_HTMLCMT : Z := 9.
Definition STATE_CSS : Z := 10.
Definition STATE_CSSBLOCK_CMT : Z := 11.
Definition STATE_CSSLINE_CMT : Z := 12.
Definition STATE_CSSDQ_STR : Z := 13.
Definition STATE_CSSSQ_STR : Z := 14.
Definition STATE_CSS_URL : Z := 15.
Definition STATE_CSSDQ_URL : Z := 16.
Definition STATE_CSSSQ_URL : Z := 17.
Definition STATE_JS : Z := 18.
Definition STATE_JSBLOCK_CMT : Z := 19.
Definition STATE_JSLINE_CMT : Z := 20.
Definition STATE_JSDQ_STR : Z := 21.
Definition STATE_JSSQ_STR : Z := 22.
Definition STATE_JSREGEXP : Z := 23.
Definition STATE_URL : Z := 24.
Definition STATE_ERROR : Z := 25.
Definition COUNT_OF_STATES : Z := 26.
Definition STATE_ALL : Z := 31.

Definition ELEMENT_NONE : Z := 0.
Definition ELEMENT_SCRIPT : Z := Z.shiftl 1 5.
Definition ELEMENT_STYLE : Z := Z.shiftl 2 5.
Definition ELEMENT_LISTING : Z := Z.shiftl 3 5.
Definition ELEMENT_TEXTAREA : Z := Z.shiftl 4 5.
Definition ELEMENT_TITLE : Z := Z.shiftl 5 5.
Definition ELEMENT_XMP : Z := Z.shiftl 6 5.
Definition ELEMENT_CLOSE : Z := Z.shiftl 7 5.
Definition ELEMENT_ALL : Z := Z.shiftl 7 5.

Definition ATTR_NONE : Z := 0.
Definition ATTR_SCRIPT : Z := Z.shiftl 1 8.
Definition ATTR_STYLE : Z := Z.shiftl 2 8.
Definition ATTR_URL : Z := Z.shiftl 3 8.
Definition ATTR_PLAIN : Z := Z.shiftl 4 8.
Definition ATTR_ALL : Z := Z.shiftl 7 8.

Definition DELIM_NONE : Z := 0.
Definition DELIM_DOUBLE_QUOTE : Z := Z.shiftl 1 11.
Definition DELIM_SINGLE_QUOTE : Z := Z.shiftl 2 11.
Definition DELIM_SPACE_OR_TAG_END : Z := Z.shiftl 3 11.
Definition DELIM_ALL : Z := Z.shiftl 3 11.

Definition URL_PART_NONE : Z := 0.
Definition URL_PART_PRE_QUERY : Z := Z.shiftl 1 13.
Definition URL_PART_QUERY_OR_FRAG : Z := Z.shiftl 2 13.
Definition URL_PART_UNKNOWN : Z := Z.shiftl 3 13.
Definition URL_PART_ALL : Z := Z.shiftl 3 13.

Definition JS_CTX_REGEX : Z := 0.
Definition JS_CTX_DIV_OP : Z := Z.shiftl 1 15.
Definition JS_CTX_UNKNOWN : Z := Z.shiftl 2 15.
Definition JS_CTX_ALL : Z := Z.shiftl 3 15.

Definition state_of (context : Z) : Z := Z.land context STATE_ALL.
Definition element_type_of (context : Z) : Z := Z.land context ELEMENT_ALL.
Definition attr_type_of (context : Z) : Z := Z.land context ATTR_ALL.
Definition delim_type_of (context : Z) : Z := Z.land context DELIM_ALL.
Definition url_part_of (context : Z) : Z := Z.land context URL_PART_ALL.
Definition js_ctx_of (context : Z) : Z := Z.land context JS_CTX_ALL.

Definition is_error_context (context : Z) : bool :=
  state_of context =? STATE_ERROR.

(** Modelled from the spec: [DELIM_TEXT] of [autoesc.context], the literal
    closing string: a double quote, a single quote, or empty for
    space-terminated; a delimiter that is not a key gives [None] (a Python
    [KeyError]). *)
Definition DELIM_TEXT (delim : Z) : option pystr :=
  if delim =? DELIM_DOUBLE_QUOTE then Some [dquote]
  else if delim =? DELIM_SINGLE_QUOTE then Some [squote]
  else if delim =? DELIM_SPACE_OR_TAG_END then Some []
  else None.

(** Modelled from the spec: [after_attr_delimiter] of [autoesc.context]
    (section 4.1): the state entered with an attribute value of the given
    kind, with delimiter, element and attr-kind preserved.  A kind that is
    neither SCRIPT, STYLE nor URL is a plain attribute value. *)
Definition after_attr_delimiter (el_type attr_type delim : Z) : Z :=
  let state :=
    if attr_type =? ATTR_SCRIPT then Z.lor STATE_JS JS_CTX_REGEX
    else if attr_type =? ATTR_STYLE then STATE_CSS
    else if attr_type =? ATTR_URL then Z.lor STATE_URL URL_PART_NONE
    else STATE_ATTR in
  Z.lor (Z.lor (Z.lor state el_type) attr_type) delim.

End ContextBits.
Export ContextBits.

(** ** Regular expressions (the part of Python's [re] the tables use)

    A backtracking matcher in continuation-passing style, as [sre] explores a
    pattern: alternatives left to right, repetitions greedy.  Without the
    flags [re.UNICODE] and [re.LOCALE] the classes [\s] and [\w] and the
    case folding of [(?i)] are the ASCII ones. *)

Module Re.
#[local] Open Scope nat_scope.

(** A character set: ranges of code points, negated or not.  The line
    breaks U+2028 and U+2029 of [NLS] are code points no 8-bit character
    has. *)
Record charset : Type := { cs_neg : bool; cs_ranges : list (N * N) }.

Definition lower_code (c : N) : N :=
  if ((65 <=? c) && (c <=? 90))%N then (c + 32)%N else c.
Definition upper_code (c : N) : N :=
  if ((97 <=? c) && (c <=? 122))%N then (c - 32)%N else c.

Definition in_ranges (rs : list (N * N)) (c : N) : bool :=
  existsb (fun r => ((fst r <=? c) && (c <=? snd r))%N) rs.

(** Membership; with [(?i)] a character is in the set when its lower-case
    or its upper-case form is. *)
Definition cs_mem (icase : bool) (cs : charset) (a : ascii) : bool :=
  let c := N_of_ascii a in
  xorb (cs_neg cs)
       (if icase
        then in_ranges (cs_ranges cs) (lower_code c)
             || in_ranges (cs_ranges cs) (upper_code c)
        else in_ranges (cs_ranges cs) c).

Inductive regex : Type :=
| Eps                      (* the empty pattern *)
| Chars (cs : charset)     (* one character of a set; a literal is a singleton *)
| Cat (r1 r2 : regex)      (* r1 r2 *)
| Or (r1 r2 : regex)       (* r1|r2 *)
| Star (r : regex)         (* r*, greedy *)
| Group1 (r : regex)       (* the capturing group 1 *)
| Bos                      (* \A *)
| Eos                      (* \Z *)
| WordB                    (* \b *)
| Ahead (r : regex)        (* (?=r) *)
| NotAhead (r : regex).    (* (?!r) *)

(** r+ and r?, greedy. *)
Definition Plus (r : regex) : regex := Cat r (Star r).
Definition Opt (r : regex) : regex := Or r Eps.

(** A compiled pattern: the flag [(?i)] and the expression. *)
Record pattern : Type := { p_icase : bool; p_re : regex }.

(** The position of the matcher in the subject: the index, the character
    before it (for [\b]) and the rest of the subject. *)
Record cursor : Type := { pos : nat; prev : option ascii; rest : pystr }.

Definition advance (c : cursor) : option (ascii * cursor) :=
  match rest c with
  | [] => None
  | a :: t => Some (a, {| pos := S (pos c); prev := Some a; rest := t |})
  end.

Definition is_word (a : ascii) : bool :=
  in_ranges [(48, 57); (65, 90); (95, 95); (97, 122)]%N (N_of_ascii a).

Definition at_word_boundary (c : cursor) : bool :=
  xorb (match prev c with Some a => is_word a | None => false end)
       (match rest c with a :: _ => is_word a | [] => false end).

(** The span of group 1, if it took part in the match. *)
Definition group := option (nat * nat).

(** The iterations of [r*], greedy: [body] matches [r] once.  An iteration
    that consumes nothing is not repeated, so the length of the rest bounds
    the iterations. *)
Fixpoint star_loop {R : Type}
    (body : cursor -> group -> (cursor -> group -> option R) -> option R)
    (k : cursor -> group -> option R) (n : nat) (c : cursor) (g : group)
    {struct n} : option R :=
  match n with
  | O => k c g
  | S n' =>
      match body c g (fun c' g' =>
                        if pos c <? pos c' then star_loop body k n' c' g' else None) with
      | Some x => Some x
      | None => k c g
      end
  end.

(** [m icase r c g k]: match [r] at [c] and go on with [k]; [None] when every
    way of matching fails. *)
Fixpoint m {R : Type} (icase : bool) (r : regex) (c : cursor) (g : group)
    (k : cursor -> group -> option R) {struct r} : option R :=
  match r with
  | Eps => k c g
  | Chars cs =>
      match advance c with
      | Some (a, c') => if cs_mem icase cs a then k c' g else None
      | None => None
      end
  | Cat r1 r2 => m icase r1 c g (fun c' g' => m icase r2 c' g' k)
  | Or r1 r2 =>
      match m icase r1 c g k with
      | Some x => Some x
      | None => m icase r2 c g k
      end
  | Star r1 =>
      star_loop (fun c' g' k' => m icase r1 c' g' k') k
                (S (List.length (rest c))) c g
  | Group1 r1 => m icase r1 c g (fun c' _ => k c' (Some (pos c, pos c')))
  | Bos => if pos c =? 0 then k c g else None
  | Eos => match rest c with [] => k c g | _ :: _ => None end
  | WordB => if at_word_boundary c then k c g else None
  | Ahead r1 =>
      match m icase r1 c g (fun _ _ => Some tt) with
      | Some _ => k c g
      | None => None
      end
  | NotAhead r1 =>
      match m icase r1 c g (fun _ _ => Some tt) with
      | Some _ => None
      | None => k c g
      end
  end.

(** A match object: the subject, the span of the match and of group 1. *)
Record Match : Type :=
  { m_string : pystr; m_start : nat; m_end : nat; m_group1 : group }.

(** [match.group(0)], and [match.group(1)] ([None] when the group did not
    take part). *)
Definition group0 (mt : Match) : pystr :=
  slice (m_start mt) (m_end mt) (m_string mt).
Definition group1 (mt : Match) : option pystr :=
  option_map (fun se => slice (fst se) (snd se) (m_string mt)) (m_group1 mt).

(** The leftmost match starting at the cursor or later. *)
Fixpoint search_at (p : pattern) (i : nat) (pv : option ascii) (s : pystr)
    {struct s} : option (nat * nat * group) :=
  match m (p_icase p) (p_re p) {| pos := i; prev := pv; rest := s |} None
          (fun c g => Some (pos c, g)) with
  | Some (e, g) => Some (i, e, g)
  | None =>
      match s with
      | [] => None
      | a :: t => search_at p (S i) (Some a) t
      end
  end.

(** [pattern.search(text)]. *)
Definition search (p : pattern) (s : pystr) : option Match :=
  match search_at p 0 None s with
  | Some (b, e, g) =>
      Some {| m_string := s; m_start := b; m_end := e; m_group1 := g |}
  | None => None
  end.

(** *** Writing patterns *)

Definition code (s : string) : N :=
  match s with String a _ => N_of_ascii a | EmptyString => 0%N end.

(** [one "x"]: the one character; [rg "a" "z"]: a range. *)
Definition one (s : string) : N * N := (code s, code s).
Definition rg (lo hi : string) : N * N := (code lo, code hi).
Definition set (rs : list (N * N)) : regex := Chars {| cs_neg := false; cs_ranges := rs |}.
Definition nset (rs : list (N * N)) : regex := Chars {| cs_neg := true; cs_ranges := rs |}.
Definition chr (s : string) : regex := set [one s].

(** A literal string. *)
Fixpoint lit_of (l : pystr) : regex :=
  match l with
  | [] => Eps
  | [a] => set [(N_of_ascii a, N_of_ascii a)]
  | a :: t => Cat (set [(N_of_ascii a, N_of_ascii a)]) (lit_of t)
  end.
Definition lit (s : string) : regex := lit_of (str s).

Fixpoint cat (rs : list regex) : regex :=
  match rs with
  | [] => Eps
  | [r] => r
  | r :: t => Cat r (cat t)
  end.

Fixpoint alt (rs : list regex) : regex :=
  match rs with
  | [] => NotAhead Eps
  | [r] => r
  | r :: t => Or r (alt t)
  end.

(** The classes [\s] and [\w], and the characters the patterns escape. *)
Definition space_ranges : list (N * N) := [(9, 13); (32, 32)]%N.
Definition word_ranges : list (N * N) := [(48, 57); (65, 90); (95, 95); (97, 122)]%N.
Definition DQ : N * N := (34, 34)%N.
Definition SQ : N * N := (39, 39)%N.
Definition LF : N * N := (10, 10)%N.
Definition FF : N * N := (12, 12)%N.
Definition CR : N * N := (13, 13)%N.
Definition BSL : N * N := (92, 92)%N.

Definition re (r : regex) : pattern := {| p_icase := false; p_re := r |}.
Definition re_i (r : regex) : pattern := {| p_icase := true; p_re := r |}.

End Re.

(** ** Results and exceptions *)

(** The two messages of [ContextUpdateFailure], with the values their format
    strings are filled with. *)
Inductive failure : Type :=
| AmbiguousSlash (near : pystr)
    (* ambiguous / could start a division or a RegExp.  Please parenthesize near `%s`. *)
| BadUnquotedChar (bad value : pystr).
    (* %r in unquoted attr: %r *)

Inductive exn : Type :=
| ContextUpdateFailure (msg : failure)
| InfLoop (for_text : pystr) (context : Z)   (* Exception('inf loop. for %r in %s') *)
| KeyError
| IndexError
| TypeError
| AssertionError
| RuntimeError.                             (* maximum recursion depth exceeded *)

Inductive res (A : Type) : Type :=
| Ok (a : A)
| Raise (e : exn).
Arguments Ok {A} a.
Arguments Raise {A} e.

Definition bind {A B : Type} (x : res A) (f : A -> res B) : res B :=
  match x with
  | Ok a => f a
  | Raise e => Raise e
  end.

Notation "x <- e1 ;; e2" := (bind e1 (fun x => e2))
  (at level 61, e1 at next level, right associativity).

(** ** The collaborators *)

(** Modelled from the spec: the content kinds of [autoesc.content] that
    [html.attr_type] returns (section 4.7). *)
Inductive content_kind : Type :=
| CONTENT_KIND_PLAIN
| CONTENT_KIND_JS
| CONTENT_KIND_CSS
| CONTENT_KIND_URL.

(** The functions of the modules [html], [js] and [escaping], which are not
    among the sources: the interface of section 4.7, as total functions.
    [force_epsilon_transition] of [autoesc.context], which [context_union]
    calls, is not among the sources either, and what the specification says
    of it does not settle it (section 4.1 reads it off the rules that match
    the empty text, scenario 8 of section 8 has BEFORE_VALUE go back to the
    tag, the comment in [context_union] has it go to an unquoted value): it
    is a collaborator too, and what a proof needs of it is a hypothesis. *)
Class Externals : Type :=
  { attr_type : pystr -> content_kind;          (* html.attr_type *)
    unescape_html : pystr -> pystr;              (* html.unescape_html *)
    next_js_ctx : pystr -> Z -> Z;              (* js.next_js_ctx *)
    escape_html_dq_only : pystr -> pystr;        (* escaping.escape_html_dq_only *)
    escape_html_sq_only : pystr -> pystr;        (* escaping.escape_html_sq_only *)
    force_epsilon_transition : Z -> Z }.         (* context.force_epsilon_transition *)

(** ** Python string methods *)

Definition is_space (a : ascii) : bool := Re.in_ranges Re.space_ranges (N_of_ascii a).

Fixpoint lstrip (s : pystr) : pystr :=
  match s with
  | a :: t => if is_space a then lstrip t else s
  | [] => []
  end.

(** [s.strip()] *)
Definition strip (s : pystr) : pystr := rev (lstrip (rev (lstrip s))).

(** [s.lower()] *)
Definition lower (s : pystr) : pystr :=
  map (fun a => ascii_of_N (Re.lower_code (N_of_ascii a))) s.

(** [s.find(sub)]: the least index at which [sub] is a prefix of the rest;
    -1 when there is none. *)
Fixpoint is_prefix (sub s : pystr) : bool :=
  match sub, s with
  | [], _ => true
  | a :: sub', b :: s' => Ascii.eqb a b && is_prefix sub' s'
  | _ :: _, [] => false
  end.

Fixpoint find_from (sub s : pystr) (i : nat) : Z :=
  if is_prefix sub s then Z.of_nat i
  else match s with
       | [] => (-1)%Z
       | _ :: t => find_from sub t (S i)
       end.

Definition find (s sub : pystr) : Z := find_from sub s 0.

(** ** context_update.py *)

Section ContextUpdate.
Context {ext : Externals}.
Import Re.
#[local] Open Scope Z_scope.

(** Characters that break a line in JavaScript source, as a set. *)
Definition NLS : list (N * N) := [LF; CR; (8232, 8232); (8233, 8233)]%N.

Definition _end_of_attr_value (raw_text : pystr) (delim : Z) : res Z :=
  if delim =? DELIM_NONE then Ok (-1)
  else if delim =? DELIM_SPACE_OR_TAG_END then
    match search (re (set (space_ranges ++ [one ">"]))) raw_text with
    | Some mt => Ok (Z.of_nat (m_start mt))
    | None => Ok (Z.of_nat (List.length raw_text))
    end
  else
    match DELIM_TEXT delim with
    | None => Raise KeyError
    | Some d =>
        let quote := find raw_text d in
        if quote >=? 0 then Ok quote else Ok (Z.of_nat (List.length raw_text))
    end.

(** The classes of transitions.  [_NormalizeTransition] and
    [_NormalizeJsBlockCommentTransition] wrap a transition and take its
    pattern; the others carry their own. *)
Inductive transition : Type :=
| _ToTransition (regex : pattern) (dest : Z)
| _ToTagTransition (regex : pattern) (context : Z)
| _NormalizeTransition (inner : transition) (repl : pystr) (replace_whole : bool)
| _NormalizeJsBlockCommentTransition (inner : transition)
| _TagDoneTransition (regex : pattern)
| _TransitionBackToTag (regex : pattern)
| _TransitionToAttrName (regex : pattern)
| _TransitionToAttrValue (regex : pattern) (delim : Z)
| _TransitionToState (regex : pattern) (state : Z)
| _TransitionToJsString (regex : pattern) (state : Z)
| _SlashTransition (regex : pattern)
| _JsPuncTransition (regex : pattern)
| _TransitionToSelf (regex : pattern)
| _URLPartTransition (regex : pattern)
| _EndTagTransition (regex : pattern)
| _RcdataEndTagTransition (regex : pattern)
| _CssUriTransition (regex : pattern)
| _DivPreceder (regex : pattern).

(** [transition.pattern] *)
Fixpoint pattern_of (t : transition) : pattern :=
  match t with
  | _NormalizeTransition inner _ _ => pattern_of inner
  | _NormalizeJsBlockCommentTransition inner => pattern_of inner
  | _ToTransition p _ | _ToTagTransition p _ | _TagDoneTransition p
  | _TransitionBackToTag p | _TransitionToAttrName p
  | _TransitionToAttrValue p _ | _TransitionToState p _
  | _TransitionToJsString p _ | _SlashTransition p | _JsPuncTransition p
  | _TransitionToSelf p | _URLPartTransition p | _EndTagTransition p
  | _RcdataEndTagTransition p | _CssUriTransition p | _DivPreceder p => p
  end.

Definition _TAG_DONE_ELEMENT_TO_PARTIAL_CONTEXT (el_type : Z) : option Z :=
  if el_type =? ELEMENT_NONE then Some STATE_TEXT
  else if el_type =? ELEMENT_SCRIPT then Some (Z.lor STATE_JS JS_CTX_REGEX)
  else if el_type =? ELEMENT_STYLE then Some STATE_CSS
  else if el_type =? ELEMENT_LISTING then Some STATE_RCDATA
  else if el_type =? ELEMENT_TEXTAREA then Some STATE_RCDATA
  else if el_type =? ELEMENT_TITLE then Some STATE_RCDATA
  else if el_type =? ELEMENT_XMP then Some STATE_RCDATA
  else None.

Definition _ELEMENT_TO_TAG_NAME (el_type : Z) : option pystr :=
  if el_type =? ELEMENT_TEXTAREA then Some (str "textarea")
  else if el_type =? ELEMENT_TITLE then Some (str "title")
  else if el_type =? ELEMENT_LISTING then Some (str "listing")
  else if el_type =? ELEMENT_XMP then Some (str "xmp")
  else None.

(** [transition.is_applicable_to(prior, match)].  Group 1 takes part in
    every match of the pattern the table gives [_RcdataEndTagTransition]. *)
Fixpoint is_applicable_to (t : transition) (prior : Z) (mt : Match) : bool :=
  match t with
  | _NormalizeTransition inner _ _ => is_applicable_to inner prior mt
  | _NormalizeJsBlockCommentTransition inner => is_applicable_to inner prior mt
  | _EndTagTransition _ => attr_type_of prior =? ATTR_NONE
  | _RcdataEndTagTransition _ =>
      match group1 mt, _ELEMENT_TO_TAG_NAME (element_type_of prior) with
      | Some name, Some tag => text_eqb (lower name) tag
      | _, _ => false
      end
  | _ => true
  end.

(** [transition.compute_next_context(prior, match)] *)
Fixpoint compute_next_context (t : transition) (prior : Z) (mt : Match) : res Z :=
  match t with
  | _ToTransition _ dest => Ok dest
  | _ToTagTransition _ context => Ok context
  | _NormalizeTransition inner _ _ => compute_next_context inner prior mt
  | _NormalizeJsBlockCommentTransition inner => compute_next_context inner prior mt
  | _TagDoneTransition _ =>
      let el_type := element_type_of prior in
      match _TAG_DONE_ELEMENT_TO_PARTIAL_CONTEXT el_type with
      | Some partial => Ok (Z.lor partial el_type)
      | None => Raise KeyError
      end
  | _TransitionBackToTag _ => Ok (Z.lor STATE_TAG (element_type_of prior))
  | _TransitionToAttrName _ =>
      match group1 mt with
      | None => Raise TypeError
      | Some name =>
          let content_kind := attr_type name in
          let attr := attr_type_of prior in
          let attr :=
            match content_kind with
            | CONTENT_KIND_JS => ATTR_SCRIPT
            | CONTENT_KIND_CSS => ATTR_STYLE
            | CONTENT_KIND_URL => ATTR_URL
            | _ => attr
            end in
          Ok (Z.lor (Z.lor STATE_ATTR_NAME (element_type_of prior)) attr)
      end
  | _TransitionToAttrValue _ delim =>
      Ok (after_attr_delimiter (element_type_of prior) (attr_type_of prior) delim)
  | _TransitionToState _ state =>
      Ok (Z.lor (Z.land prior (Z.lnot (Z.lor URL_PART_ALL STATE_ALL))) state)
  | _TransitionToJsString _ state =>
      Ok (Z.lor (Z.land prior (Z.lor (Z.lor ELEMENT_ALL ATTR_ALL) DELIM_ALL)) state)
  | _SlashTransition _ =>
      let js_ctx := js_ctx_of prior in
      if js_ctx =? JS_CTX_DIV_OP then
        Ok (Z.lor (Z.lor (Z.land prior (Z.lnot (Z.lor STATE_ALL JS_CTX_ALL)))
                         STATE_JS) JS_CTX_REGEX)
      else if js_ctx =? JS_CTX_REGEX then
        Ok (Z.lor (Z.land prior (Z.lnot (Z.lor STATE_ALL JS_CTX_ALL))) STATE_JSREGEXP)
      else
        Raise (ContextUpdateFailure
                 (AmbiguousSlash (from (m_start mt) (m_string mt))))
  | _JsPuncTransition _ => Ok (next_js_ctx (group0 mt) prior)
  | _TransitionToSelf _ => Ok prior
  | _URLPartTransition _ =>
      let url_part := url_part_of prior in
      let url_part :=
        if url_part =? URL_PART_NONE then
          match strip (upto (m_end mt) (m_string mt)) with
          | _ :: _ => URL_PART_PRE_QUERY
          | [] => url_part
          end
        else url_part in
      let url_part :=
        if negb (url_part =? URL_PART_QUERY_OR_FRAG)
           && match group1 mt with Some (_ :: _) => true | _ => false end
        then URL_PART_QUERY_OR_FRAG
        else url_part in
      Ok (Z.lor (Z.land prior (Z.lnot URL_PART_ALL)) url_part)
  | _EndTagTransition _ => Ok (Z.lor STATE_TAG ELEMENT_NONE)
  | _RcdataEndTagTransition _ => Ok (Z.lor STATE_TAG ELEMENT_NONE)
  | _CssUriTransition _ =>
      let delim := group1 mt in
      let state :=
        match delim with
        | Some [a] =>
            if Ascii.eqb a dquote then STATE_CSSDQ_URL
            else if Ascii.eqb a squote then STATE_CSSSQ_URL
            else STATE_CSS_URL
        | _ => STATE_CSS_URL
        end in
      Ok (Z.lor (Z.lor (Z.land prior (Z.lnot (Z.lor STATE_ALL URL_PART_ALL))) state)
                URL_PART_NONE)
  | _DivPreceder _ =>
      Ok (Z.lor (Z.lor (Z.land prior (Z.lnot (Z.lor STATE_ALL JS_CTX_ALL))) STATE_JS)
                JS_CTX_DIV_OP)
  end.

(** [transition.raw_text(match)]: the normalized form of the matched text. *)
Definition raw_text (t : transition) (mt : Match) : pystr :=
  match t with
  | _NormalizeTransition _ repl replace_whole =>
      if replace_whole then repl
      else upto (m_start mt) (m_string mt) ++ repl
  | _NormalizeJsBlockCommentTransition _ =>
      let text := upto (m_end mt) (m_string mt) in
      match search (re (set NLS)) text with
      | Some _ => str (String (ascii_of_nat 10) EmptyString)
      | None => []
      end
  | _ => upto (m_end mt) (m_string mt)
  end.

(** *** The transition table

    Each pattern is written next to its source; DQ and SQ stand for the
    double and the single quote. *)

(* \Z *)
Definition _TRANSITION_TO_SELF : transition := _TransitionToSelf (re Eos).

(* ([?#])|\Z *)
Definition _URL_PART_TRANSITION : transition :=
  _URLPartTransition (re (Or (Group1 (set [one "?"; one "#"])) Eos)).

(* ([?#]|\\(?:23|3[fF]|[?#]))|\Z *)
Definition _CSSURL_PART_TRANSITION : transition :=
  _URLPartTransition
    (re (Or (Group1 (Or (set [one "?"; one "#"])
                        (Cat (set [BSL])
                             (alt [lit "23";
                                   Cat (chr "3") (set [one "f"; one "F"]);
                                   set [one "?"; one "#"]]))))
            Eos)).

(* (?i)<\/script\b   and   (?i)<\/style\b *)
Definition _SCRIPT_TAG_END : transition :=
  _EndTagTransition (re_i (Cat (lit "</script") WordB)).
Definition _STYLE_TAG_END : transition :=
  _EndTagTransition (re_i (Cat (lit "</style") WordB)).

(* (?![a-z\-]) *)
Definition not_name_char : regex := NotAhead (set [rg "a" "z"; one "-"]).

(* <(?!\/script) *)
Definition lt_not_script : regex := Cat (chr "<") (NotAhead (lit "/script")).

(* \\(?:\r\n?|[\n\f Q]) for the quote Q: a line continuation or an escape. *)
Definition css_escape (quote : N * N) : regex :=
  Cat (set [BSL]) (Or (Cat (set [CR]) (Opt (set [LF]))) (set [LF; FF; quote])).

(* (?i)\A(?:[^Q\\ NLS <]|\\(?:\r\n?|[^\r<]|<(?!/script))|<(?!/script))+ *)
Definition js_string_body (quote : N * N) : pattern :=
  re_i (Cat Bos
         (Plus (alt [nset ([quote; BSL] ++ NLS ++ [one "<"]);
                     Cat (set [BSL])
                         (alt [Cat (set [CR]) (Opt (set [LF]));
                               nset [CR; one "<"];
                               lt_not_script]);
                     lt_not_script]))).

(* \A(?:[^\[\\/< NLS]|\\[^ NLS]|\\?<(?!/script)
        |\[(?:[^\]\\< NLS]|\\(?:[^ NLS]))*|\\?<(?!/script)\])+ *)
Definition js_regexp_body : pattern :=
  re (Cat Bos
       (Plus (alt [nset ([one "["; BSL; one "/"; one "<"] ++ NLS);
                   Cat (set [BSL]) (nset NLS);
                   Cat (Opt (set [BSL])) lt_not_script;
                   Cat (chr "[")
                       (Star (Or (nset ([one "]"; BSL; one "<"] ++ NLS))
                                 (Cat (set [BSL]) (nset NLS))));
                   cat [Opt (set [BSL]); lt_not_script; chr "]"]]))).

Definition TEXT_rules : list transition :=
  [ (* \A[^<]+ *)
    _TransitionToSelf (re (Cat Bos (Plus (nset [one "<"]))));
    (* <!-- *)
    _NormalizeTransition (_ToTransition (re (lit "<!--")) STATE_HTMLCMT) [] false;
    (* (?i)<script(?![a-z\-]) and so on *)
    _ToTagTransition (re_i (Cat (lit "<script") not_name_char))
                     (Z.lor STATE_TAG ELEMENT_SCRIPT);
    _ToTagTransition (re_i (Cat (lit "<style") not_name_char))
                     (Z.lor STATE_TAG ELEMENT_STYLE);
    _ToTagTransition (re_i (Cat (lit "<textarea") not_name_char))
                     (Z.lor STATE_TAG ELEMENT_TEXTAREA);
    _ToTagTransition (re_i (Cat (lit "<title") not_name_char))
                     (Z.lor STATE_TAG ELEMENT_TITLE);
    _ToTagTransition (re_i (Cat (lit "<xmp") not_name_char))
                     (Z.lor STATE_TAG ELEMENT_XMP);
    (* (?i)<(?!/?(?:[a-z]|\Z)|!doctype) *)
    _NormalizeTransition
      (_TransitionToSelf
         (re_i (Cat (chr "<")
                    (NotAhead (Or (Cat (Opt (chr "/")) (Or (set [rg "a" "z"]) Eos))
                                  (lit "!doctype"))))))
      (str "&lt;") false;
    (* </ *)
    _ToTagTransition (re (lit "</")) (Z.lor STATE_HTML_BEFORE_TAG_NAME ELEMENT_CLOSE);
    (* < *)
    _ToTransition (re (chr "<")) STATE_HTML_BEFORE_TAG_NAME ].

Definition RCDATA_rules : list transition :=
  [ (* (?i)</([a-z\-]+)(?![a-z\-]) *)
    _RcdataEndTagTransition
      (re_i (cat [lit "</"; Group1 (Plus (set [rg "a" "z"; one "-"])); not_name_char]));
    _NormalizeTransition (_TransitionToSelf (re (chr "<"))) (str "&lt;") false;
    _TRANSITION_TO_SELF ].

Definition HTML_BEFORE_TAG_NAME_rules : list transition :=
  [ (* \A[A-Za-z]+ *)
    _ToTagTransition (re (Cat Bos (Plus (set [rg "A" "Z"; rg "a" "z"])))) STATE_TAG_NAME;
    (* \A(?=[^A-Za-z]) *)
    _ToTransition (re (Cat Bos (Ahead (nset [rg "A" "Z"; rg "a" "z"])))) STATE_TEXT ].

Definition TAG_NAME_rules : list transition :=
  [ (* \A[A-Za-z0-9:-]*(?:[A-Za-z0-9]|\Z) *)
    _TransitionToSelf
      (re (cat [Bos;
                Star (set [rg "A" "Z"; rg "a" "z"; rg "0" "9"; one ":"; one "-"]);
                Or (set [rg "A" "Z"; rg "a" "z"; rg "0" "9"]) Eos]));
    (* \A(?=[\/\s>]) *)
    _ToTagTransition (re (Cat Bos (Ahead (set ([one "/"] ++ space_ranges ++ [one ">"])))))
                     (Z.lor STATE_TAG ELEMENT_NONE) ].

Definition TAG_rules : list transition :=
  [ (* \A\s*(G) with G = [A-Za-z][\w:-]* as group 1 *)
    _TransitionToAttrName
      (re (cat [Bos; Star (set space_ranges);
                Group1 (Cat (set [rg "A" "Z"; rg "a" "z"])
                            (Star (set (word_ranges ++ [one ":"; one "-"]))))]));
    (* \A\s*\/?> *)
    _TagDoneTransition (re (cat [Bos; Star (set space_ranges); Opt (chr "/"); chr ">"]));
    (* \A\s+\Z *)
    _TransitionToSelf (re (cat [Bos; Plus (set space_ranges); Eos])) ].

Definition ATTR_NAME_rules : list transition :=
  [ (* [A-Za-z0-9\-]+ *)
    _TransitionToSelf (re (Plus (set [rg "A" "Z"; rg "a" "z"; rg "0" "9"; one "-"])));
    (* \A *)
    _TransitionToState (re Bos) STATE_AFTER_NAME ].

Definition AFTER_NAME_rules : list transition :=
  [ (* \A\s*= *)
    _TransitionToState (re (cat [Bos; Star (set space_ranges); chr "="])) STATE_BEFORE_VALUE;
    (* \A\s+ *)
    _TransitionToSelf (re (Cat Bos (Plus (set space_ranges))));
    (* \A *)
    _TransitionBackToTag (re Bos) ].

Definition BEFORE_VALUE_rules : list transition :=
  [ (* \A\s*[DQ] *)
    _TransitionToAttrValue (re (cat [Bos; Star (set space_ranges); set [DQ]]))
                           DELIM_DOUBLE_QUOTE;
    (* \A\s*[SQ] *)
    _TransitionToAttrValue (re (cat [Bos; Star (set space_ranges); set [SQ]]))
                           DELIM_SINGLE_QUOTE;
    (* \A(?=[^= DQ SQ ` \s >]): the start of an unquoted value *)
    _TransitionToAttrValue
      (re (Cat Bos (Ahead (nset ([one "="; DQ; SQ; one "`"] ++ space_ranges ++ [one ">"])))))
      DELIM_SPACE_OR_TAG_END;
    (* \A(?=/?>) *)
    _NormalizeTransition
      (_TransitionBackToTag (re (Cat Bos (Ahead (Cat (Opt (chr "/")) (chr ">"))))))
      [dquote; dquote] false;
    (* \A\s+ *)
    _TransitionToSelf (re (Cat Bos (Plus (set space_ranges)))) ].

Definition HTMLCMT_rules : list transition :=
  [ _NormalizeTransition (_ToTransition (re (lit "-->")) STATE_TEXT) [] true;
    _NormalizeTransition _TRANSITION_TO_SELF [] true ].

Definition ATTR_rules : list transition := _TRANSITION_TO_SELF :: nil.

Definition CSS_rules : list transition :=
  [ (* \/\* *)
    _NormalizeTransition (_TransitionToState (re (lit "/*")) STATE_CSSBLOCK_CMT)
                         (str " ") false;
    (* \/\/ *)
    _NormalizeTransition (_TransitionToState (re (lit "//")) STATE_CSSLINE_CMT) [] false;
    _TransitionToState (re (set [DQ])) STATE_CSSDQ_STR;
    _TransitionToState (re (set [SQ])) STATE_CSSSQ_STR;
    (* (?i)\burl\s*\(\s*([DQ SQ]?) *)
    _CssUriTransition
      (re_i (cat [WordB; lit "url"; Star (set space_ranges); chr "(";
                  Star (set space_ranges); Group1 (Opt (set [DQ; SQ]))]));
    _STYLE_TAG_END;
    _TRANSITION_TO_SELF ].

Definition CSSBLOCK_CMT_rules : list transition :=
  [ (* \*\/ *)
    _NormalizeTransition (_TransitionToState (re (lit "*/")) STATE_CSS) [] true;
    _NormalizeTransition _STYLE_TAG_END (str "</style") true;
    _NormalizeTransition _TRANSITION_TO_SELF [] true ].

Definition CSSLINE_CMT_rules : list transition :=
  [ (* [\n\f\r] *)
    _NormalizeTransition (_TransitionToState (re (set [LF; FF; CR])) STATE_CSS)
                         [ascii_of_nat 10] true;
    _NormalizeTransition _STYLE_TAG_END (str "</style") true;
    _NormalizeTransition _TRANSITION_TO_SELF [] true ].

Definition CSSDQ_STR_rules : list transition :=
  [ _TransitionToState (re (set [DQ])) STATE_CSS;
    _TransitionToSelf (re (css_escape DQ));
    _CSSURL_PART_TRANSITION;
    (* [\n\r\f] *)
    _ToTransition (re (set [LF; CR; FF])) STATE_ERROR;
    _STYLE_TAG_END;
    _TRANSITION_TO_SELF ].

Definition CSSSQ_STR_rules : list transition :=
  [ _TransitionToState (re (set [SQ])) STATE_CSS;
    _TransitionToSelf (re (css_escape SQ));
    _CSSURL_PART_TRANSITION;
    _ToTransition (re (set [LF; CR; FF])) STATE_ERROR;
    _STYLE_TAG_END ].

Definition CSS_URL_rules : list transition :=
  [ (* [\\)\s] *)
    _TransitionToState (re (set ([BSL; one ")"] ++ space_ranges))) STATE_CSS;
    _CSSURL_PART_TRANSITION;
    (* [DQ SQ] *)
    _TransitionToState (re (set [DQ; SQ])) STATE_ERROR;
    _STYLE_TAG_END ].

Definition CSSSQ_URL_rules : list transition :=
  [ _TransitionToState (re (set [SQ])) STATE_CSS;
    _CSSURL_PART_TRANSITION;
    _TransitionToSelf (re (css_escape SQ));
    _ToTransition (re (set [LF; CR; FF])) STATE_ERROR;
    _STYLE_TAG_END ].

Definition CSSDQ_URL_rules : list transition :=
  [ _TransitionToState (re (set [DQ])) STATE_CSS;
    _CSSURL_PART_TRANSITION;
    _TransitionToSelf (re (css_escape DQ));
    _ToTransition (re (set [LF; CR; FF])) STATE_ERROR;
    _STYLE_TAG_END ].

Definition JS_rules : list transition :=
  [ (* /[*] *)
    _NormalizeTransition (_TransitionToState (re (lit "/*")) STATE_JSBLOCK_CMT)
                         (str " ") false;
    (* // *)
    _NormalizeTransition (_TransitionToState (re (lit "//")) STATE_JSLINE_CMT) [] false;
    _TransitionToJsString (re (set [DQ])) STATE_JSDQ_STR;
    _TransitionToJsString (re (set [SQ])) STATE_JSSQ_STR;
    (* / *)
    _SlashTransition (re (chr "/"));
    (* (?i)(?:[^<\/ DQ SQ \s \\]|<(?!\/script))+ *)
    _JsPuncTransition
      (re_i (Plus (Or (nset ([one "<"; one "/"; DQ; SQ] ++ space_ranges ++ [BSL]))
                      lt_not_script)));
    (* \s+ *)
    _TransitionToSelf (re (Plus (set space_ranges)));
    _SCRIPT_TAG_END ].

Definition JSBLOCK_CMT_rules : list transition :=
  [ (* [*]/ *)
    _NormalizeJsBlockCommentTransition (_TransitionToState (re (lit "*/")) STATE_JS);
    _NormalizeTransition _SCRIPT_TAG_END (str "</script") true;
    _NormalizeJsBlockCommentTransition _TRANSITION_TO_SELF ].

Definition JSLINE_CMT_rules : list transition :=
  [ (* [ NLS ] *)
    _NormalizeTransition (_TransitionToState (re (set NLS)) STATE_JS)
                         [ascii_of_nat 10] true;
    _NormalizeTransition _SCRIPT_TAG_END (str "</script") true;
    _NormalizeTransition _TRANSITION_TO_SELF [] true ].

Definition JSDQ_STR_rules : list transition :=
  [ _DivPreceder (re (set [DQ]));
    _SCRIPT_TAG_END;
    _TransitionToSelf (js_string_body DQ) ].

Definition JSSQ_STR_rules : list transition :=
  [ _DivPreceder (re (set [SQ]));
    _SCRIPT_TAG_END;
    _TransitionToSelf (js_string_body SQ) ].

Definition JSREGEXP_rules : list transition :=
  [ _DivPreceder (re (chr "/"));
    _SCRIPT_TAG_END;
    _TransitionToSelf js_regexp_body ].

Definition URL_rules : list transition := _URL_PART_TRANSITION :: nil.

(** [table[state] = rules]; every state assigned below is less than
    [COUNT_OF_STATES], so no assignment is out of range. *)
Fixpoint assign (table : list (option (list transition))) (state : nat)
    (rules : list transition) : list (option (list transition)) :=
  match table, state with
  | [], _ => []
  | _ :: rest, O => Some rules :: rest
  | entry :: rest, S state' => entry :: assign rest state' rules
  end.

(** [_TRANSITIONS]: [COUNT_OF_STATES] entries, all [None] at first, assigned
    state by state in the order of the source; the entry of [STATE_ERROR]
    stays [None]. *)
Definition _TRANSITIONS : list (option (list transition)) :=
  fold_left (fun table sr => assign table (Z.to_nat (fst sr)) (snd sr))
    [ (STATE_TEXT, TEXT_rules);
      (STATE_RCDATA, RCDATA_rules);
      (STATE_HTML_BEFORE_TAG_NAME, HTML_BEFORE_TAG_NAME_rules);
      (STATE_TAG_NAME, TAG_NAME_rules);
      (STATE_TAG, TAG_rules);
      (STATE_ATTR_NAME, ATTR_NAME_rules);
      (STATE_AFTER_NAME, AFTER_NAME_rules);
      (STATE_BEFORE_VALUE, BEFORE_VALUE_rules);
      (STATE_HTMLCMT, HTMLCMT_rules);
      (STATE_ATTR, ATTR_rules);
      (STATE_CSS, CSS_rules);
      (STATE_CSSBLOCK_CMT, CSSBLOCK_CMT_rules);
      (STATE_CSSLINE_CMT, CSSLINE_CMT_rules);
      (STATE_CSSDQ_STR, CSSDQ_STR_rules);
      (STATE_CSSSQ_STR, CSSSQ_STR_rules);
      (STATE_CSS_URL, CSS_URL_rules);
      (STATE_CSSSQ_URL, CSSSQ_URL_rules);
      (STATE_CSSDQ_URL, CSSDQ_URL_rules);
      (STATE_JS, JS_rules);
      (STATE_JSBLOCK_CMT, JSBLOCK_CMT_rules);
      (STATE_JSLINE_CMT, JSLINE_CMT_rules);
      (STATE_JSDQ_STR, JSDQ_STR_rules);
      (STATE_JSSQ_STR, JSSQ_STR_rules);
      (STATE_JSREGEXP, JSREGEXP_rules);
      (STATE_URL, URL_rules) ]
    (repeat None (Z.to_nat COUNT_OF_STATES)).

(** *** The token scanner *)

(** One turn of the loop over the transitions of a state: the pair is
    [(earliest_start, (earliest_transition, earliest_match))]. *)
Definition scan_step (text : pystr) (context : Z)
    (acc : nat * option (transition * Match)) (t : transition)
    : nat * option (transition * Match) :=
  match search (pattern_of t) text with
  | None => acc
  | Some mt =>
      let start := m_start mt in
      if (start <? fst acc)%nat && is_applicable_to t context mt
      then (start, Some (t, mt))
      else acc
  end.

Definition earliest (text : pystr) (context : Z) (rules : list transition)
    : nat * option (transition * Match) :=
  fold_left (scan_step text context) rules (S (List.length text), None).

(** The second half of [_process_next_token], before its guard: the
    chosen transition applied, or the error context when there is none. *)
Definition chosen_step (text : pystr) (context : Z) (rules : list transition)
    : res (nat * Z * pystr) :=
  match snd (earliest text context rules) with
  | Some (earliest_transition, earliest_match) =>
      next_context <-
        compute_next_context earliest_transition context earliest_match ;;
      Ok (m_end earliest_match, next_context,
          raw_text earliest_transition earliest_match)
  | None => Ok (List.length text, STATE_ERROR, text)
  end.

(** [_process_next_token(text, context)]: the number of characters consumed,
    the context after them and their replacement.  A state with no entry in
    the table is an [IndexError]. *)
Definition _process_next_token (text : pystr) (context : Z) : res (nat * Z * pystr) :=
  if is_error_context context then Ok (List.length text, context, text)
  else
    match nth_error _TRANSITIONS (Z.to_nat (state_of context)) with
    | None => Raise IndexError
    | Some None => Raise TypeError
    | Some (Some rules) =>
        step <- chosen_step text context rules ;;
        let '(num_consumed, next_context, _) := step in
        if (num_consumed =? 0)%nat && (state_of next_context =? state_of context)
        then Raise (InfLoop text context)
        else Ok step
    end.

(** *** The driver *)

(** The inner loop of [process_raw_text] over the decoded attribute value;
    [None] when the fuel is used up. *)
Fixpoint attr_value_loop (fuel : nat) (escaper : pystr -> pystr)
    (attr_value_tail : pystr) (context : Z) (normalized : pystr) {struct fuel}
    : option (res (Z * pystr)) :=
  match attr_value_tail with
  | [] => Some (Ok (context, normalized))
  | _ :: _ =>
      match fuel with
      | O => None
      | S fuel' =>
          match _process_next_token attr_value_tail context with
          | Raise e => Some (Raise e)
          | Ok (num_consumed, context', replacement) =>
              attr_value_loop fuel' escaper (from num_consumed attr_value_tail)
                              context' (normalized ++ escaper replacement)
          end
      end
  end.

(** Turns that suffice for a text of the given length: see
    [attr_value_loop_terminates] and [process_raw_text_loop_terminates]. *)
Definition attr_value_fuel (tail : pystr) : nat := 3 * List.length tail + 3.
Definition driver_fuel (raw_text : pystr) : nat := 5 * List.length raw_text + 5.

(** The state of the driver between two turns: what is left of the text,
    the context and the buffer. *)
Definition driver_state : Type := pystr * Z * pystr.

(** The search for a suspicious character in an unquoted value. *)
Definition bad_unquoted : pattern :=
  re (set [(0, 0)%N; DQ; SQ; one "<"; one "="; one "`"]).

(** The branch of the loop inside an attribute value, after the check of an
    unquoted value: the value is decoded and scanned, and the attribute left
    when its end is in the text. *)
Definition decode_attr_value (raw_text : pystr) (context delim_type : Z)
    (attr_value_end : nat) (normalized : pystr) : option (res driver_state) :=
  match (if (attr_value_end <? List.length raw_text)%nat
         then match DELIM_TEXT delim_type with
              | Some d => Ok (Some (attr_value_end + List.length d)%nat)
              | None => Raise KeyError
              end
         else Ok None) with
  | Raise e => Some (Raise e)
  | Ok attr_end =>
      let attr_value_tail := unescape_html (upto attr_value_end raw_text) in
      let escaper :=
        if delim_type =? DELIM_SINGLE_QUOTE
        then escape_html_sq_only else escape_html_dq_only in
      match attr_value_loop (attr_value_fuel attr_value_tail) escaper
                            attr_value_tail context normalized with
      | None => None
      | Some (Raise e) => Some (Raise e)
      | Some (Ok (context, normalized)) =>
          match attr_end with
          | Some attr_end =>
              Some (Ok (from attr_end raw_text,
                        Z.lor STATE_TAG (element_type_of context),
                        normalized ++ (if delim_type =? DELIM_SINGLE_QUOTE
                                       then [squote] else [dquote])))
          | None =>
              if negb (attr_value_end =? List.length raw_text)%nat
              then Some (Raise AssertionError)
              else Some (Ok ([], context, normalized))
          end
      end
  end.

(** The branch of the loop inside an attribute value. *)
Definition attr_value_branch (raw_text : pystr) (context delim_type : Z)
    (attr_value_end : nat) (normalized : pystr) : option (res driver_state) :=
  match (if delim_type =? DELIM_SPACE_OR_TAG_END
         then search bad_unquoted (upto attr_value_end raw_text)
         else None) with
  | Some bad =>
      Some (Raise (ContextUpdateFailure
                     (BadUnquotedChar (group0 bad) (upto attr_value_end raw_text))))
  | None => decode_attr_value raw_text context delim_type attr_value_end normalized
  end.

(** One turn of the loop of [process_raw_text], up to the test for an error
    context. *)
Definition driver_step (raw_text : pystr) (context : Z) (normalized : pystr)
    : option (res driver_state) :=
  let delim_type := delim_type_of context in
  match _end_of_attr_value raw_text delim_type with
  | Raise e => Some (Raise e)
  | Ok attr_value_end =>
      if attr_value_end =? -1 then
        match _process_next_token raw_text context with
        | Raise e => Some (Raise e)
        | Ok (num_consumed, context, replacement_text) =>
            Some (Ok (from num_consumed raw_text, context,
                      normalized ++ replacement_text
                      ++ (if delim_type_of context =? DELIM_SPACE_OR_TAG_END
                          then [dquote] else [])))
        end
      else
        attr_value_branch raw_text context delim_type (Z.to_nat attr_value_end)
                          normalized
  end.

(** What [process_raw_text] returns: the context after the text, the
    normalized text or [None], and [None] or the context and the text before
    the turn that met the error. *)
Definition result : Type := Z * option pystr * option Z * option pystr.

Fixpoint process_raw_text_loop (fuel : nat) (raw_text : pystr) (context : Z)
    (normalized : pystr) {struct fuel} : option (res result) :=
  match raw_text with
  | [] => Some (Ok (context, Some normalized, None, None))
  | _ :: _ =>
      match fuel with
      | O => None
      | S fuel' =>
          let prior_context := context in
          let prior_raw_text := raw_text in
          match driver_step raw_text context normalized with
          | None => None
          | Some (Raise e) => Some (Raise e)
          | Some (Ok (raw_text, context, normalized)) =>
              if is_error_context context
              then Some (Ok (context, None, Some prior_context, Some prior_raw_text))
              else process_raw_text_loop fuel' raw_text context normalized
          end
      end
  end.

(** [process_raw_text(raw_text, context)]; [None] would be a loop that does
    not end within [driver_fuel] turns, which [process_raw_text_terminates]
    excludes. *)
Definition process_raw_text (raw_text : pystr) (context : Z) : option (res result) :=
  process_raw_text_loop (driver_fuel raw_text) raw_text context [].

(** *** Joining contexts *)

(** [sys.getrecursionlimit()]: CPython's default. *)
Definition recursion_limit : nat := 1000.

(** [context_union] below [depth] further nested calls; beyond them Python
    raises a [RuntimeError]. *)
Fixpoint context_union_rec (depth : nat) (context0 context1 : Z) {struct depth}
    : res Z :=
  if context0 =? context1 then Ok context0
  else if context0 =? Z.lor (Z.land context1 (Z.lnot JS_CTX_ALL)) (js_ctx_of context0)
  then
    (* The contexts differ only by JS_CTX_* *)
    Ok (Z.lor (Z.land context0 (Z.lnot JS_CTX_ALL)) JS_CTX_UNKNOWN)
  else
    let url_part_0 := url_part_of context0 in
    if context0 =? Z.lor (Z.land context1 (Z.lnot URL_PART_ALL)) url_part_0
    then
      (* The contexts differ only by URL_PART *)
      Ok (Z.lor (Z.land context0 (Z.lnot URL_PART_ALL)) URL_PART_UNKNOWN)
    else
      (* Allow a nudged context to join with an unnudged one. *)
      let ncontext0 := force_epsilon_transition context0 in
      let ncontext1 := force_epsilon_transition context1 in
      if negb (context0 =? ncontext0) || negb (context1 =? ncontext1)
      then
        match depth with
        | O => Raise RuntimeError
        | S depth' => context_union_rec depth' ncontext0 ncontext1
        end
      else Ok STATE_ERROR.

Definition context_union (context0 context1 : Z) : res Z :=
  context_union_rec recursion_limit context0 context1.

End ContextUpdate.

(** ** Static analysis of the table

    The functions the proofs of progress compute on the patterns and the
    transitions of [_TRANSITIONS]. *)

(** Whether a match of [r] may consume nothing although characters are left:
    [\Z] cannot, a set cannot. *)
Fixpoint may_match_empty (r : Re.regex) : bool :=
  match r with
  | Re.Chars _ | Re.Eos => false
  | Re.Cat r1 r2 => may_match_empty r1 && may_match_empty r2
  | Re.Or r1 r2 => may_match_empty r1 || may_match_empty r2
  | Re.Group1 r1 => may_match_empty r1
  | Re.Eps | Re.Star _ | Re.Bos | Re.WordB | Re.Ahead _ | Re.NotAhead _ => true
  end.

(** Whether group 1 takes part in every match of [r]. *)
Fixpoint sets_group1 (r : Re.regex) : bool :=
  match r with
  | Re.Group1 _ => true
  | Re.Cat r1 r2 => sets_group1 r1 || sets_group1 r2
  | Re.Or r1 r2 => sets_group1 r1 && sets_group1 r2
  | _ => false
  end.

(** Whether [r] may match the empty string somewhere. *)
Fixpoint nullable (r : Re.regex) : bool :=
  match r with
  | Re.Chars _ => false
  | Re.Cat r1 r2 => nullable r1 && nullable r2
  | Re.Or r1 r2 => nullable r1 || nullable r2
  | Re.Group1 r1 => nullable r1
  | _ => true
  end.

(** Whether every iteration of every [r*] in the pattern consumes a
    character: then no iteration is refused for being empty. *)
Fixpoint stars_consume (r : Re.regex) : bool :=
  match r with
  | Re.Star r1 => negb (nullable r1) && stars_consume r1
  | Re.Cat r1 r2 | Re.Or r1 r2 => stars_consume r1 && stars_consume r2
  | Re.Group1 r1 | Re.Ahead r1 | Re.NotAhead r1 => stars_consume r1
  | _ => true
  end.

(** The transitions that call a method of [match.group(1)]. *)
Fixpoint needs_group1 (t : transition) : bool :=
  match t with
  | _TransitionToAttrName _ | _RcdataEndTagTransition _ => true
  | _NormalizeTransition inner _ _ => needs_group1 inner
  | _NormalizeJsBlockCommentTransition inner => needs_group1 inner
  | _ => false
  end.

(** A pattern of the table is fine when its repetitions consume and when it
    sets group 1 if its transition needs it. *)
Definition pattern_ok (t : transition) : bool :=
  stars_consume (Re.p_re (pattern_of t))
  && implb (needs_group1 t) (sets_group1 (Re.p_re (pattern_of t))).

(** The transitions whose [compute_next_context] may raise: the look-up of
    [_TagDoneTransition] and the ambiguity of [_SlashTransition], also when
    wrapped. *)
Fixpoint is_tag_done (t : transition) : bool :=
  match t with
  | _TagDoneTransition _ => true
  | _NormalizeTransition inner _ _ => is_tag_done inner
  | _NormalizeJsBlockCommentTransition inner => is_tag_done inner
  | _ => false
  end.

Fixpoint is_slash (t : transition) : bool :=
  match t with
  | _SlashTransition _ => true
  | _NormalizeTransition inner _ _ => is_slash inner
  | _NormalizeJsBlockCommentTransition inner => is_slash inner
  | _ => false
  end.

(** [_TagDoneTransition] stands in the table of STATE_TAG only and
    [_SlashTransition] in that of STATE_JS only. *)
Definition raising_ok (state : Z) (t : transition) : bool :=
  implb (is_tag_done t) (state =? STATE_TAG)%Z
  && implb (is_slash t) (state =? STATE_JS)%Z.

Fixpoint raising_ok_from (i : nat) (table : list (option (list transition))) : bool :=
  match table with
  | [] => true
  | entry :: rest =>
      match entry with
      | Some rules => forallb (raising_ok (Z.of_nat i)) rules
      | None => (i =? 25)%nat
      end && raising_ok_from (S i) rest
  end.

(** The cursor after the characters of [run], from a cursor at index [i]
    with [run ++ rest] ahead. *)
Fixpoint cursor_after (i : nat) (pv : option ascii) (run rest : pystr)
    : Re.cursor :=
  match run with
  | [] => {| Re.pos := i; Re.prev := pv; Re.rest := rest |}
  | a :: t => cursor_after (S i) (Some a) t rest
  end.

(** What a turn inside an attribute value writes for the decoded value when
    the scanner takes it whole: nothing for an empty value. *)
Definition reencoded (escaper : pystr -> pystr) (tail : pystr) : pystr :=
  match tail with
  | [] => []
  | _ :: _ => escaper tail
  end.

(** The states of the text of an attribute value: a plain value, CSS, JS and
    a URL, with their comments and strings. *)
Definition value_states : list Z :=
  [ STATE_ATTR; STATE_CSS; STATE_CSSBLOCK_CMT; STATE_CSSLINE_CMT;
    STATE_CSSDQ_STR; STATE_CSSSQ_STR; STATE_CSS_URL; STATE_CSSDQ_URL;
    STATE_CSSSQ_URL; STATE_JS; STATE_JSBLOCK_CMT; STATE_JSLINE_CMT;
    STATE_JSDQ_STR; STATE_JSSQ_STR; STATE_JSREGEXP; STATE_URL ].

Definition is_value_state (state : Z) : bool := existsb (Z.eqb state) value_states.

(** The transitions that, from a context with an attribute kind, lead to a
    value state with the same element, attribute kind and delimiter, or to
    the error context.  An end tag is not applicable to such a context. *)
Fixpoint keeps_value (t : transition) : bool :=
  match t with
  | _ToTransition _ dest => (dest =? STATE_ERROR)%Z
  | _NormalizeTransition inner _ _ => keeps_value inner
  | _NormalizeJsBlockCommentTransition inner => keeps_value inner
  | _TransitionToState _ state => is_value_state state || (state =? STATE_ERROR)%Z
  | _TransitionToJsString _ state => is_value_state state
  | _SlashTransition _ | _JsPuncTransition _ | _TransitionToSelf _
  | _URLPartTransition _ | _EndTagTransition _ | _CssUriTransition _
  | _DivPreceder _ => true
  | _ => false
  end.

(** What a context keeps inside an attribute value. *)
Definition same_value (context context' : Z) : Prop :=
  is_value_state (state_of context') = true
  /\ element_type_of context' = element_type_of context
  /\ attr_type_of context' = attr_type_of context
  /\ delim_type_of context' = delim_type_of context.

Definition value_rules_ok (state : Z) : bool :=
  match nth_error _TRANSITIONS (Z.to_nat state) with
  | Some (Some rules) => forallb keeps_value rules
  | _ => false
  end.

(** The transitions that, from a context without delimiter, lead to a
    context that has no delimiter or is not in state TAG. *)
Fixpoint tag_delim_ok (t : transition) : bool :=
  match t with
  | _ToTransition _ dest | _ToTagTransition _ dest =>
      negb (state_of dest =? STATE_TAG)%Z || (delim_type_of dest =? DELIM_NONE)%Z
  | _NormalizeTransition inner _ _ => tag_delim_ok inner
  | _NormalizeJsBlockCommentTransition inner => tag_delim_ok inner
  | _TransitionToAttrValue _ delim => (state_of delim =? 0)%Z
  | _TransitionToState _ state | _TransitionToJsString _ state =>
      negb (state_of state =? STATE_TAG)%Z
  | _ => true
  end.

Definition tag_delim_rules_ok (entry : option (list transition)) : bool :=
  match entry with
  | Some rules => forallb tag_delim_ok rules
  | None => true
  end.



(** The exceptions that come out of the driver. *)
Definition driver_exn (e : exn) : Prop :=
  e = IndexError \/ e = KeyError \/ exists msg, e = ContextUpdateFailure msg.

(** The number of transitions that consume nothing which may follow one
    another from a state: ATTR_NAME, AFTER_NAME, TAG is the longest chain. *)
Definition rank (state : Z) : nat :=
  if (state =? STATE_ATTR_NAME)%Z then 2
  else if (state =? STATE_AFTER_NAME)%Z || (state =? STATE_BEFORE_VALUE)%Z
          || (state =? STATE_TAG_NAME)%Z || (state =? STATE_HTML_BEFORE_TAG_NAME)%Z
  then 1
  else 0.

(** The states a transition may lead to, where the prior context does not
    decide them. *)
Fixpoint next_states (t : transition) : option (list Z) :=
  match t with
  | _ToTransition _ dest => Some [state_of dest]
  | _ToTagTransition _ context => Some [state_of context]
  | _NormalizeTransition inner _ _ => next_states inner
  | _NormalizeJsBlockCommentTransition inner => next_states inner
  | _TransitionBackToTag _ => Some [STATE_TAG]
  | _TransitionToAttrValue _ delim =>
      if (state_of delim =? 0)%Z
      then Some [STATE_JS; STATE_CSS; STATE_URL; STATE_ATTR]
      else None
  | _TransitionToState _ state => Some [state_of state]
  | _ => None
  end.

(** A transition out of [state] is fine when its pattern consumes a
    character of a non-empty text, or when it leads to states of lower
    rank. *)
Definition rule_ok (state : Z) (t : transition) : bool :=
  negb (may_match_empty (Re.p_re (pattern_of t)))
  || match next_states t with
     | Some l => forallb (fun s => rank s <? rank state) l
     | None => false
     end.

Fixpoint table_ok_from (i : nat) (table : list (option (list transition))) : bool :=
  match table with
  | [] => true
  | entry :: rest =>
      match entry with
      | Some rules => forallb (rule_ok (Z.of_nat i)) rules
      | None => true
      end && table_ok_from (S i) rest
  end.

(** The rules of a state that match the text and are applicable, in the
    order of the table, each with its match. *)
Definition candidates (text : pystr) (context : Z)
    (rules : list transition) : list (transition * Re.Match) :=
  flat_map (fun t =>
              match Re.search (pattern_of t) text with
              | Some mt => if is_applicable_to t context mt then [(t, mt)] else []
              | None => []
              end) rules.

(** The choice among the candidates: a candidate replaces the one held when
    it starts strictly before it. *)
Definition pick (acc : nat * option (transition * Re.Match))
    (tm : transition * Re.Match) : nat * option (transition * Re.Match) :=
  if Re.m_start (snd tm) <? fst acc then (Re.m_start (snd tm), Some tm) else acc.

(** The candidate at index [i] has the minimum match start, and those before
    it in the table start strictly later. *)
Definition is_earliest (cands : list (transition * Re.Match)) (i : nat)
    (tm : transition * Re.Match) : Prop :=
  nth_error cands i = Some tm
  /\ forall j tm', nth_error cands j = Some tm' ->
       Re.m_start (snd tm) <= Re.m_start (snd tm')
       /\ (j < i -> Re.m_start (snd tm) < Re.m_start (snd tm')).

(** The measures that decrease along the two loops of the driver. *)
Definition attr_value_measure (tail : pystr) (context : Z) : nat :=
  3 * List.length tail + rank (state_of context).

Definition driver_rank (context : Z) : nat :=
  if (delim_type_of context =? DELIM_NONE)%Z then 2 * rank (state_of context) else 1.

Definition driver_measure (raw_text : pystr) (context : Z) : nat :=
  5 * List.length raw_text + driver_rank context.

(** ** The specification's reading of [_end_of_attr_value] *)

(** The index of the first character that satisfies [f]. *)
Fixpoint index_of_first (f : ascii -> bool) (s : pystr) : option nat :=
  match s with
  | [] => None
  | a :: t => if f a then Some O else option_map S (index_of_first f t)
  end.

(** "The index of the first ... , else [len(raw)]". *)
Definition first_or_len (f : ascii -> bool) (raw : pystr) : Z :=
  match index_of_first f raw with
  | Some i => Z.of_nat i
  | None => Z.of_nat (List.length raw)
  end.

(** The whitespace characters: space, tab, line feed, vertical tab, form
    feed and carriage return. *)
Definition is_whitespace (a : ascii) : bool :=
  existsb (Ascii.eqb a)
          [" "%char; ascii_of_nat 9; ascii_of_nat 10; ascii_of_nat 11;
           ascii_of_nat 12; ascii_of_nat 13].

Definition is_whitespace_or_gt (a : ascii) : bool :=
  is_whitespace a || Ascii.eqb a ">"%char.

(** The characters an unquoted attribute value must not contain: NUL, the
    quotes, [<], [=] and the backtick. *)
Definition is_suspicious (a : ascii) : bool :=
  existsb (Ascii.eqb a)
          [ascii_of_nat 0; dquote; squote; "<"%char; "="%char; "`"%char].

(** ** Collaborators for plain texts

    An instance of the collaborators for the examples: on a text with no
    character reference and nothing to escape, decoding and escaping are the
    identity; [attr_type] knows the names section 4.7 gives; [next_js_ctx]
    answers as after an identifier or a number, which a division may
    follow; [force_epsilon_transition] makes the two nudges the
    specification names. *)
Definition plain_attr_type (name : pystr) : content_kind :=
  let name := lower name in
  if text_eqb (upto 2 name) (str "on") then CONTENT_KIND_JS
  else if text_eqb name (str "style") then CONTENT_KIND_CSS
  else if text_eqb name (str "href") || text_eqb name (str "src")
          || text_eqb name (str "action")
  then CONTENT_KIND_URL
  else CONTENT_KIND_PLAIN.

(** Modelled from the spec: the nudges the specification names.  A context
    in state AFTER_NAME collapses back to the tag (section 4.1) and so does
    one in state BEFORE_VALUE (scenario 8 of section 8); every other context
    is left as it is. *)
Definition plain_force_epsilon_transition (context : Z) : Z :=
  if (state_of context =? STATE_AFTER_NAME)%Z
     || (state_of context =? STATE_BEFORE_VALUE)%Z
  then Z.lor STATE_TAG (element_type_of context)
  else context.

Definition plain_externals : Externals :=
  {| attr_type := plain_attr_type;
     unescape_html := fun s => s;
     next_js_ctx := fun _ prior =>
                      Z.lor (Z.land prior (Z.lnot JS_CTX_ALL)) JS_CTX_DIV_OP;
     escape_html_dq_only := fun s => s;
     escape_html_sq_only := fun s => s;
     force_epsilon_transition := plain_force_epsilon_transition |}.

(** * Properties *)

(** ** The matcher *)

Section Matcher.
Import Re.

(** Where a successful match hands over to its continuation: at the same
    cursor or further; further when the pattern cannot match the empty
    string before the end of the text; with group 1 set when the pattern
    always sets it, and never unset. *)
Lemma m_inv (r : regex) :
  forall (R : Type) (icase : bool) (c : cursor) (g : group)
         (k : cursor -> group -> option R) (x : R),
    m icase r c g k = Some x ->
    exists c' g',
      k c' g' = Some x
      /\ (c' = c \/ pos c < pos c')
      /\ (may_match_empty r = false -> rest c <> [] -> pos c < pos c')
      /\ (sets_group1 r = true \/ g <> None -> g' <> None).
Proof.
  induction r as [ | cs | r1 IH1 r2 IH2 | r1 IH1 r2 IH2 | r1 IH1 | r1 IH1
                   | | | | r1 IH1 | r1 IH1 ];
    intros R icase c g k x H; cbn [m] in H.
  - exists c, g. simpl. intuition congruence.
  - unfold advance in H. destruct (rest c) as [ | a t] eqn:E; [discriminate | ].
    destruct (cs_mem icase cs a); [ | discriminate].
    eexists _, g. split; [exact H | ]. simpl.
    repeat split; intros; try (right; lia); try lia.
    destruct H0; [discriminate | assumption].
  - apply IH1 in H. destruct H as (c1 & g1 & H & Hp1 & Hs1 & Hg1).
    apply IH2 in H. destruct H as (c2 & g2 & H & Hp2 & Hs2 & Hg2).
    exists c2, g2. split; [exact H | ]. simpl.
    assert (Hle : c2 = c \/ pos c < pos c2).
    { destruct Hp1 as [-> | ?]; destruct Hp2 as [-> | ?]; auto; right; lia. }
    split; [exact Hle | ]. split.
    + intros Hne Hrest. apply andb_false_iff in Hne.
      destruct Hne as [Hne | Hne].
      * specialize (Hs1 Hne Hrest). destruct Hp2 as [-> | ?]; lia.
      * destruct Hp1 as [-> | ?].
        -- apply Hs2; assumption.
        -- destruct Hp2 as [-> | ?]; lia.
    + intros [Hg | Hg].
      * apply orb_true_iff in Hg. destruct Hg as [Hg | Hg].
        -- apply Hg2. right. apply Hg1. left. exact Hg.
        -- apply Hg2. left. exact Hg.
      * apply Hg2. right. apply Hg1. right. exact Hg.
  - destruct (m icase r1 c g k) as [y | ] eqn:E.
    + injection H as ->. apply IH1 in E.
      destruct E as (c1 & g1 & E & Hp & Hs & Hg).
      exists c1, g1. split; [exact E | ]. split; [exact Hp | ]. simpl. split.
      * intros Hne. apply orb_false_iff in Hne. apply Hs, Hne.
      * intros [Hg' | Hg']; apply Hg; [left | right; exact Hg'].
        apply andb_true_iff in Hg'. apply Hg'.
    + apply IH2 in H. destruct H as (c1 & g1 & E' & Hp & Hs & Hg).
      exists c1, g1. split; [exact E' | ]. split; [exact Hp | ]. simpl. split.
      * intros Hne. apply orb_false_iff in Hne. apply Hs, Hne.
      * intros [Hg' | Hg']; apply Hg; [left | right; exact Hg'].
        apply andb_true_iff in Hg'. apply Hg'.
  - revert H. generalize (S (List.length (rest c))). intros n. revert c g.
    induction n as [ | n IHn]; intros c g H; simpl in H.
    + exists c, g. simpl. intuition congruence.
    + destruct (m icase r1 c g
                  (fun c' g' =>
                     if pos c <? pos c'
                     then star_loop (fun c' g' k' => m icase r1 c' g' k') k n c' g'
                     else None))
        as [y | ] eqn:E.
      * injection H as ->. apply IH1 in E.
        destruct E as (c1 & g1 & E & Hp & _ & Hg).
        destruct (pos c <? pos c1) eqn:Hlt; [ | discriminate].
        apply Nat.ltb_lt in Hlt.
        apply IHn in E. destruct E as (c2 & g2 & E & Hp2 & _ & Hg2).
        exists c2, g2. split; [exact E | ]. simpl. split.
        -- right. destruct Hp2 as [-> | ?]; lia.
        -- split; [discriminate | ].
           intros [Hg' | Hg']; [discriminate | ].
           apply Hg2. right. apply Hg. right. exact Hg'.
      * exists c, g. simpl. intuition congruence.
  - apply IH1 in H. destruct H as (c1 & g1 & H & Hp & Hs & _).
    eexists c1, _. split; [exact H | ]. simpl. repeat split; auto. discriminate.
  - destruct (pos c =? 0); [ | discriminate].
    exists c, g. simpl. intuition congruence.
  - destruct (rest c) eqn:E; [ | discriminate].
    exists c, g. simpl. intuition congruence.
  - destruct (at_word_boundary c); [ | discriminate].
    exists c, g. simpl. intuition congruence.
  - destruct (m icase r1 c g (fun _ _ => Some tt)); [ | discriminate].
    exists c, g. simpl. intuition congruence.
  - destruct (m icase r1 c g (fun _ _ => Some tt)); [discriminate | ].
    exists c, g. simpl. intuition congruence.
Qed.

End Matcher.

Section Search.
Import Re.

Lemma search_at_inv (p : pattern) (s : pystr) :
  forall (i : nat) (pv : option ascii) (b e : nat) (g : group),
    search_at p i pv s = Some (b, e, g) ->
    i <= b <= e
    /\ b <= i + List.length s
    /\ (may_match_empty (p_re p) = false -> s <> [] -> i < e)
    /\ (sets_group1 (p_re p) = true -> g <> None).
Proof.
  induction s as [ | a t IH]; intros i pv b e g H; simpl in H.
  - destruct (m (p_icase p) (p_re p) {| pos := i; prev := pv; rest := [] |} None
                (fun c g => Some (pos c, g))) as [[e' g'] | ] eqn:E; [ | discriminate].
    injection H as <- <- <-.
    apply m_inv in E. destruct E as (c' & g'' & E & Hp & _ & Hg).
    injection E as <- <-. simpl in Hp.
    split; [destruct Hp as [-> | ?]; simpl; lia | ].
    split; [simpl; lia | ].
    split; [congruence | ]. intros Hs. apply Hg. left. exact Hs.
  - destruct (m (p_icase p) (p_re p) {| pos := i; prev := pv; rest := a :: t |} None
                (fun c g => Some (pos c, g))) as [[e' g'] | ] eqn:E.
    + injection H as <- <- <-.
      apply m_inv in E. destruct E as (c' & g'' & E & Hp & Hs & Hg).
      injection E as <- <-. simpl in Hp, Hs.
      split; [destruct Hp as [-> | ?]; simpl; lia | ].
      split; [simpl; lia | ].
      split; [intros Hne _; apply Hs; [exact Hne | discriminate] | ].
      intros Hs'. apply Hg. left. exact Hs'.
    + apply IH in H. destruct H as (Hb & Hl & _ & Hg).
      split; [lia | ]. split; [simpl; lia | ].
      split; [intros _ _; lia | exact Hg].
Qed.

Lemma search_string (p : pattern) (s : pystr) (mt : Match) :
  search p s = Some mt -> m_string mt = s.
Proof.
  unfold search. destruct (search_at p 0 None s) as [[[b e] g] | ]; [ | discriminate].
  intros H. injection H as <-. reflexivity.
Qed.

Lemma search_bounds (p : pattern) (s : pystr) (mt : Match) :
  search p s = Some mt -> m_start mt <= m_end mt.
Proof.
  unfold search. destruct (search_at p 0 None s) as [[[b e] g] | ] eqn:E; [ | discriminate].
  intros H. injection H as <-. simpl. apply search_at_inv in E. lia.
Qed.

Lemma search_start_le (p : pattern) (s : pystr) (mt : Match) :
  search p s = Some mt -> m_start mt <= List.length s.
Proof.
  unfold search. destruct (search_at p 0 None s) as [[[b e] g] | ] eqn:E; [ | discriminate].
  intros H. injection H as <-. simpl. apply search_at_inv in E. lia.
Qed.

(** A pattern that cannot match the empty string before the end of the text
    consumes a character of a non-empty text. *)
Lemma search_consumes (p : pattern) (s : pystr) (mt : Match) :
  search p s = Some mt ->
  s <> [] ->
  may_match_empty (p_re p) = false ->
  0 < m_end mt.
Proof.
  unfold search. destruct (search_at p 0 None s) as [[[b e] g] | ] eqn:E; [ | discriminate].
  intros H Hs Hne. injection H as <-. simpl.
  apply search_at_inv in E. destruct E as (_ & _ & E & _). apply E; assumption.
Qed.

(** Group 1 takes part in every match of a pattern that always sets it. *)
Lemma search_group1 (p : pattern) (s : pystr) (mt : Match) :
  search p s = Some mt ->
  sets_group1 (p_re p) = true ->
  exists name, group1 mt = Some name.
Proof.
  unfold search. destruct (search_at p 0 None s) as [[[b e] g] | ] eqn:E; [ | discriminate].
  intros H Hs. injection H as <-. unfold group1. simpl.
  apply search_at_inv in E. destruct E as (_ & _ & _ & E).
  specialize (E Hs). destruct g as [se | ]; [ | congruence].
  eexists. reflexivity.
Qed.

End Search.

(** ** Bit fields *)

Ltac eval_const :=
  repeat match goal with
    | |- context [Z.land ?a ?b] =>
        let v := eval vm_compute in (Z.land a b) in
        lazymatch v with
        | Z0 => idtac
        | Zpos _ => idtac
        | Zneg _ => idtac
        end;
        progress change (Z.land a b) with v
    end.

(** Normalizes a field of a context built with [Z.lor] and [Z.land]: the
    mask is pushed to the leaves, where the constants decide. *)
Ltac ctx_field :=
  unfold state_of, element_type_of, attr_type_of, delim_type_of, url_part_of,
    js_ctx_of;
  repeat rewrite Z.land_lor_distr_l;
  repeat rewrite <- Z.land_assoc;
  eval_const;
  repeat rewrite Z.land_0_r;
  repeat rewrite Z.lor_0_l;
  repeat rewrite Z.lor_0_r;
  try reflexivity.

Section Fields.
#[local] Open Scope Z_scope.

Lemma state_of_range (context : Z) : 0 <= state_of context <= 31.
Proof.
  unfold state_of, STATE_ALL.
  replace (Z.land context 31) with (context mod 32).
  - pose proof (Z.mod_pos_bound context 32). lia.
  - change 31 with (Z.ones 5). rewrite Z.land_ones by lia. reflexivity.
Qed.

Lemma state_of_to_state (prior state : Z) :
  state_of (Z.lor (Z.land prior (Z.lnot (Z.lor URL_PART_ALL STATE_ALL))) state)
  = state_of state.
Proof. ctx_field. Qed.

Lemma state_of_back_to_tag (prior : Z) :
  state_of (Z.lor STATE_TAG (element_type_of prior)) = STATE_TAG.
Proof. ctx_field. Qed.

Lemma delim_of_back_to_tag (prior : Z) :
  delim_type_of (Z.lor STATE_TAG (element_type_of prior)) = DELIM_NONE.
Proof. ctx_field. Qed.

Lemma state_of_after_attr_delimiter (prior delim : Z) :
  state_of delim = 0 ->
  In (state_of (after_attr_delimiter (element_type_of prior) (attr_type_of prior) delim))
     [STATE_JS; STATE_CSS; STATE_URL; STATE_ATTR].
Proof.
  intros Hd. unfold after_attr_delimiter.
  destruct (attr_type_of prior =? ATTR_SCRIPT);
    [ | destruct (attr_type_of prior =? ATTR_STYLE);
        [ | destruct (attr_type_of prior =? ATTR_URL)]];
    unfold state_of in Hd |- *; repeat rewrite Z.land_lor_distr_l; rewrite Hd;
    ctx_field; simpl; auto.
Qed.

(** A field outside the js-ctx bits is the same in two contexts that differ
    in those bits only. *)
Lemma field_outside_js_ctx (a b mask : Z) :
  Z.land (Z.lnot JS_CTX_ALL) mask = mask ->
  Z.land a (Z.lnot JS_CTX_ALL) = Z.land b (Z.lnot JS_CTX_ALL) ->
  Z.land a mask = Z.land b mask.
Proof.
  intros M H. rewrite <- M, !Z.land_assoc, H. reflexivity.
Qed.

End Fields.

(** ** The choice of a transition *)

Section Choice.
Import Re.

Lemma In_candidates (text : pystr) (context : Z) (rules : list transition)
    (t : transition) (mt : Match) :
  In (t, mt) (candidates text context rules)
  <-> In t rules /\ search (pattern_of t) text = Some mt
      /\ is_applicable_to t context mt = true.
Proof.
  unfold candidates. rewrite in_flat_map. split.
  - intros (t' & Hin & H).
    destruct (search (pattern_of t') text) as [mt' | ] eqn:E; [ | contradiction].
    destruct (is_applicable_to t' context mt') eqn:A; [ | contradiction].
    destruct H as [H | []]. injection H as -> ->. auto.
  - intros (Hin & E & A). exists t. split; [exact Hin | ].
    rewrite E, A. left. reflexivity.
Qed.

Lemma earliest_candidates (text : pystr) (context : Z) (rules : list transition) :
  forall acc,
    fold_left (scan_step text context) rules acc
    = fold_left pick (candidates text context rules) acc.
Proof.
  induction rules as [ | t rules IH]; intros acc; [reflexivity | ].
  unfold candidates in *. simpl. rewrite fold_left_app, IH. f_equal.
  unfold scan_step.
  destruct (search (pattern_of t) text) as [mt | ]; [ | reflexivity].
  destruct (is_applicable_to t context mt); simpl.
  - unfold pick. simpl. rewrite andb_true_r. reflexivity.
  - rewrite andb_false_r. reflexivity.
Qed.

Lemma pick_fold (cands : list (transition * Match)) :
  forall n0 sel0,
    (fold_left pick cands (n0, sel0) = (n0, sel0)
     /\ forall tm, In tm cands -> n0 <= m_start (snd tm))
    \/ (exists i tm,
          fold_left pick cands (n0, sel0) = (m_start (snd tm), Some tm)
          /\ m_start (snd tm) < n0
          /\ is_earliest cands i tm).
Proof.
  induction cands as [ | tm0 cands IH]; intros n0 sel0; simpl.
  - left. split; [reflexivity | contradiction].
  - replace (pick (n0, sel0) tm0)
      with (if m_start (snd tm0) <? n0
            then (m_start (snd tm0), Some tm0) else (n0, sel0)) by reflexivity.
    destruct (m_start (snd tm0) <? n0) eqn:L.
    + apply Nat.ltb_lt in L. right.
      destruct (IH (m_start (snd tm0)) (Some tm0)) as [[E H] | (i & tm & E & Hlt & Hn & Hmin)].
      * exists 0, tm0. split; [exact E | ]. split; [exact L | ].
        split; [reflexivity | ]. intros [ | j] tm' Hj; simpl in Hj.
        -- injection Hj as <-. lia.
        -- apply nth_error_In in Hj. apply H in Hj. lia.
      * exists (S i), tm. split; [exact E | ]. split; [lia | ].
        split; [exact Hn | ]. intros [ | j] tm' Hj; simpl in Hj.
        -- injection Hj as <-. lia.
        -- apply Hmin in Hj. lia.
    + apply Nat.ltb_ge in L.
      destruct (IH n0 sel0) as [[E H] | (i & tm & E & Hlt & Hn & Hmin)].
      * left. split; [exact E | ]. intros tm [<- | Hin]; [exact L | auto].
      * right. exists (S i), tm. split; [exact E | ]. split; [exact Hlt | ].
        split; [exact Hn | ]. intros [ | j] tm' Hj; simpl in Hj.
        -- injection Hj as <-. lia.
        -- apply Hmin in Hj. lia.
Qed.

Lemma is_earliest_unique (cands : list (transition * Match)) i tm i' tm' :
  is_earliest cands i tm -> is_earliest cands i' tm' -> tm = tm'.
Proof.
  intros [Hn H] [Hn' H'].
  destruct (H _ _ Hn') as [H1 H2]. destruct (H' _ _ Hn) as [H1' H2'].
  destruct (Nat.lt_trichotomy i i') as [L | [-> | L]].
  - specialize (H2' L). lia.
  - congruence.
  - specialize (H2 L). lia.
Qed.

(** What the loop over the transitions of a state ends with. *)
Lemma earliest_spec (text : pystr) (context : Z) (rules : list transition) :
  (candidates text context rules = []
   /\ snd (earliest text context rules) = None)
  \/ (exists i tm, is_earliest (candidates text context rules) i tm
                   /\ snd (earliest text context rules) = Some tm).
Proof.
  unfold earliest. rewrite earliest_candidates.
  destruct (pick_fold (candidates text context rules) (S (List.length text)) None)
    as [[E H] | (i & tm & E & _ & He)].
  - left. rewrite E. split; [ | reflexivity].
    destruct (candidates text context rules) as [ | [t mt] l] eqn:C; [reflexivity | ].
    exfalso. assert (Hin : In (t, mt) (candidates text context rules)).
    { rewrite C. left. reflexivity. }
    specialize (H (t, mt) (or_introl eq_refl)).
    apply In_candidates in Hin. destruct Hin as (_ & Hs & _).
    apply search_start_le in Hs. simpl in H. lia.
  - right. exists i, tm. rewrite E. split; [exact He | reflexivity].
Qed.

Lemma chosen_is_candidate (text : pystr) (context : Z) (rules : list transition)
    (t : transition) (mt : Match) :
  snd (earliest text context rules) = Some (t, mt) ->
  In t rules /\ search (pattern_of t) text = Some mt
  /\ is_applicable_to t context mt = true.
Proof.
  intros H.
  destruct (earliest_spec text context rules) as [[_ E] | (i & tm & [Hn _] & E)];
    rewrite E in H; [discriminate | ].
  injection H as ->. apply nth_error_In, In_candidates in Hn. exact Hn.
Qed.

End Choice.

(** ** Progress of the scanner *)

Section Progress.
Context {ext : Externals}.
Import Re.

Lemma next_states_sound (t : transition) (prior : Z) (mt : Match) (c : Z)
    (l : list Z) :
  compute_next_context t prior mt = Ok c ->
  next_states t = Some l ->
  In (state_of c) l.
Proof.
  induction t; cbn [compute_next_context next_states]; intros H N;
    try discriminate; auto.
  - injection H as <-. injection N as <-. left. reflexivity.
  - injection H as <-. injection N as <-. left. reflexivity.
  - injection H as <-. injection N as <-. left. symmetry.
    apply state_of_back_to_tag.
  - injection H as <-. destruct (state_of delim =? 0)%Z eqn:D; [ | discriminate].
    injection N as <-. apply state_of_after_attr_delimiter.
    apply Z.eqb_eq. exact D.
  - injection H as <-. injection N as <-. left. symmetry.
    apply state_of_to_state.
Qed.

(** Every transition of the table consumes a character of a non-empty text
    or leads to a state of lower rank. *)
Lemma table_ok : table_ok_from 0 _TRANSITIONS = true.
Proof. vm_compute. reflexivity. Qed.

(** In every pattern of the table the repetitions consume a character at
    each iteration, and group 1 takes part in every match of a pattern whose
    transition reads it. *)
Lemma table_patterns_ok :
  forallb (fun entry => match entry with
                        | Some rules => forallb pattern_ok rules
                        | None => true
                        end) _TRANSITIONS = true.
Proof. vm_compute. reflexivity. Qed.

Lemma group1_takes_part (state : nat) (rules : list transition) (t : transition)
    (text : pystr) (mt : Match) :
  nth_error _TRANSITIONS state = Some (Some rules) ->
  In t rules ->
  needs_group1 t = true ->
  search (pattern_of t) text = Some mt ->
  exists name, group1 mt = Some name.
Proof.
  intros N Hin Hg Hs.
  pose proof table_patterns_ok as H. rewrite forallb_forall in H.
  specialize (H _ (nth_error_In _ _ N)). cbv beta iota in H.
  rewrite forallb_forall in H. specialize (H t Hin).
  unfold pattern_ok in H. rewrite Hg in H.
  apply andb_true_iff in H. destruct H as [_ H].
  eapply search_group1; eassumption.
Qed.

Lemma table_ok_from_nth (table : list (option (list transition))) :
  forall (i n : nat) (rules : list transition),
    table_ok_from i table = true ->
    nth_error table n = Some (Some rules) ->
    forallb (rule_ok (Z.of_nat (i + n))) rules = true.
Proof.
  induction table as [ | entry table IH]; intros i n rules H N.
  - destruct n; discriminate.
  - simpl in H. apply andb_true_iff in H. destruct H as [H1 H2].
    destruct n as [ | n]; simpl in N.
    + injection N as ->. rewrite Nat.add_0_r. exact H1.
    + replace (i + S n) with (S i + n) by lia. apply IH; assumption.
Qed.

Lemma rules_ok (context : Z) (rules : list transition) (t : transition) :
  nth_error _TRANSITIONS (Z.to_nat (state_of context)) = Some (Some rules) ->
  In t rules ->
  rule_ok (state_of context) t = true.
Proof.
  intros N Hin.
  pose proof (table_ok_from_nth _ 0 _ _ table_ok N) as H.
  rewrite forallb_forall in H. specialize (H t Hin).
  simpl in H. rewrite Z2Nat.id in H; [exact H | ].
  apply state_of_range.
Qed.

Lemma chosen_progress (text : pystr) (context : Z) (t : transition) (mt : Match)
    (next : Z) :
  text <> [] ->
  rule_ok (state_of context) t = true ->
  search (pattern_of t) text = Some mt ->
  compute_next_context t context mt = Ok next ->
  0 < m_end mt \/ rank (state_of next) < rank (state_of context).
Proof.
  intros Ht Hok Hs Hc. unfold rule_ok in Hok.
  apply orb_true_iff in Hok. destruct Hok as [Hok | Hok].
  - left. apply negb_true_iff in Hok. eapply search_consumes; eassumption.
  - right. destruct (next_states t) as [l | ] eqn:N; [ | discriminate].
    rewrite forallb_forall in Hok.
    apply Nat.ltb_lt. apply Hok. eapply next_states_sound; eassumption.
Qed.

(** The scanner without its guard against an infinite loop: on the
    transitions of the table the guard never fires. *)
Lemma process_next_token_unguarded (text : pystr) (context : Z)
    (rules : list transition) :
  text <> [] ->
  is_error_context context = false ->
  nth_error _TRANSITIONS (Z.to_nat (state_of context)) = Some (Some rules) ->
  _process_next_token text context = chosen_step text context rules.
Proof.
  intros Ht He N. unfold _process_next_token, chosen_step. rewrite He, N.
  destruct (earliest_spec text context rules) as [[_ E] | (i & [t mt] & [Hn _] & E)];
    rewrite E.
  - simpl. destruct text as [ | a text]; [congruence | reflexivity].
  - apply nth_error_In, In_candidates in Hn. destruct Hn as (Hin & Hs & _).
    destruct (compute_next_context t context mt) as [next | e] eqn:C; [ | reflexivity].
    simpl.
    destruct (chosen_progress text context t mt next Ht
                (rules_ok _ _ _ N Hin) Hs C) as [L | L].
    + destruct (m_end mt); [lia | reflexivity].
    + destruct (state_of next =? state_of context)%Z eqn:S.
      * apply Z.eqb_eq in S. rewrite S in L. lia.
      * rewrite andb_false_r. reflexivity.
Qed.

(** A step of the scanner on a non-empty text consumes a character or
    lowers the rank of the state. *)
Lemma token_progress (text : pystr) (context : Z) (n : nat) (context' : Z)
    (replacement : pystr) :
  text <> [] ->
  _process_next_token text context = Ok (n, context', replacement) ->
  0 < n \/ rank (state_of context') < rank (state_of context).
Proof.
  intros Ht H.
  destruct (is_error_context context) eqn:He.
  - unfold _process_next_token in H. rewrite He in H. injection H as <- <- <-.
    left. destruct text; [congruence | simpl; lia].
  - destruct (nth_error _TRANSITIONS (Z.to_nat (state_of context)))
      as [[rules | ] | ] eqn:N;
      try (unfold _process_next_token in H; rewrite He, N in H; discriminate).
    rewrite (process_next_token_unguarded _ _ _ Ht He N) in H.
    unfold chosen_step in H.
    destruct (earliest_spec text context rules) as [[_ E] | (i & [t mt] & [Hn _] & E)];
      rewrite E in H.
    + injection H as <- <- <-. left. destruct text; [congruence | simpl; lia].
    + apply nth_error_In, In_candidates in Hn. destruct Hn as (Hin & Hs & _).
      destruct (compute_next_context t context mt) as [next | e] eqn:C;
        [ | discriminate].
      simpl in H. injection H as <- <- <-.
      eapply chosen_progress; eauto using rules_ok.
Qed.

(** What the guard of the scanner ensures, whatever the table: a step that
    returns has consumed a character or changed the state. *)
Lemma token_guard (text : pystr) (context : Z) (n : nat) (context' : Z)
    (replacement : pystr) :
  text <> [] ->
  _process_next_token text context = Ok (n, context', replacement) ->
  0 < n \/ state_of context' <> state_of context.
Proof.
  intros Ht H. unfold _process_next_token in H.
  destruct (is_error_context context).
  - injection H as <- <- <-. left. destruct text; [congruence | simpl; lia].
  - destruct (nth_error _TRANSITIONS (Z.to_nat (state_of context)))
      as [[rules | ] | ]; try discriminate.
    match type of H with
    | bind ?x _ = _ => destruct x as [[[n1 c1] r1] | e]; simpl in H
    end; [ | discriminate].
    destruct ((n1 =? 0) && (state_of c1 =? state_of context)%Z) eqn:G;
      [discriminate | ].
    injection H as <- <- <-.
    apply andb_false_iff in G. destruct G as [G | G].
    + left. apply Nat.eqb_neq in G. lia.
    + right. apply Z.eqb_neq in G. exact G.
Qed.

Lemma rank_le_2 (state : Z) : rank state <= 2.
Proof.
  unfold rank.
  destruct (state =? STATE_ATTR_NAME)%Z; [lia | ].
  destruct ((state =? STATE_AFTER_NAME)%Z || (state =? STATE_BEFORE_VALUE)%Z
            || (state =? STATE_TAG_NAME)%Z || (state =? STATE_HTML_BEFORE_TAG_NAME)%Z);
    lia.
Qed.

Lemma driver_rank_le_4 (context : Z) : driver_rank context <= 4.
Proof.
  unfold driver_rank. pose proof (rank_le_2 (state_of context)).
  destruct (delim_type_of context =? DELIM_NONE)%Z; lia.
Qed.

Lemma length_from (n : nat) (s : pystr) : List.length (from n s) = List.length s - n.
Proof. apply length_skipn. Qed.

(** The inner loop of the driver ends within its measure. *)
Lemma attr_value_loop_terminates (escaper : pystr -> pystr) :
  forall (fuel : nat) (tail : pystr) (context : Z) (normalized : pystr),
    attr_value_measure tail context <= fuel ->
    exists r, attr_value_loop fuel escaper tail context normalized = Some r.
Proof.
  induction fuel as [ | fuel IH]; intros tail context normalized Hm;
    destruct tail as [ | a tail]; simpl; eauto.
  - unfold attr_value_measure in Hm. simpl in Hm. lia.
  - destruct (_process_next_token (a :: tail) context) as [[[n c'] r] | e] eqn:T;
      [ | eauto].
    apply IH. unfold attr_value_measure in *. rewrite length_from.
    pose proof (rank_le_2 (state_of c')).
    apply token_progress in T; [ | discriminate].
    change (List.length (a :: tail)) with (S (List.length tail)) in *. lia.
Qed.

End Progress.


(** ** Progress of the driver *)

Section Driver.
Context {ext : Externals}.
Import Re.

(** [_end_of_attr_value] returns -1 exactly outside an attribute value. *)
Lemma end_of_attr_value_cases (raw_text : pystr) (delim e : Z) :
  _end_of_attr_value raw_text delim = Ok e ->
  (e = -1 /\ delim = DELIM_NONE)%Z \/ (0 <= e /\ delim <> DELIM_NONE)%Z.
Proof.
  unfold _end_of_attr_value.
  destruct (delim =? DELIM_NONE)%Z eqn:D.
  - intros H. injection H as <-. left. apply Z.eqb_eq in D. auto.
  - apply Z.eqb_neq in D. intros H. right. split; [ | exact D].
    destruct (delim =? DELIM_SPACE_OR_TAG_END)%Z.
    + destruct (search _ raw_text); injection H as <-; lia.
    + destruct (DELIM_TEXT delim) as [d | ]; [ | discriminate].
      destruct (find raw_text d >=? 0)%Z eqn:F; injection H as <-; lia.
Qed.

(** What a turn of the driver's loop leaves: outside an attribute value the
    result of the scanner; inside, nothing of the text, or the text after
    the value in the context of the tag. *)
Lemma driver_step_cases (raw_text : pystr) (context : Z) (normalized : pystr)
    (raw_text' : pystr) (context' : Z) (normalized' : pystr) :
  driver_step raw_text context normalized
  = Some (Ok (raw_text', context', normalized')) ->
  (delim_type_of context = DELIM_NONE
   /\ exists n replacement,
       _process_next_token raw_text context = Ok (n, context', replacement)
       /\ raw_text' = from n raw_text)
  \/ (delim_type_of context <> DELIM_NONE
      /\ (raw_text' = []
          \/ (List.length raw_text' <= List.length raw_text
              /\ exists c, context' = Z.lor STATE_TAG (element_type_of c)))).
Proof.
  unfold driver_step.
  destruct (_end_of_attr_value raw_text (delim_type_of context)) as [e | x] eqn:E;
    [ | discriminate].
  apply end_of_attr_value_cases in E. destruct E as [[-> D] | [He D]].
  - simpl. intros H. left. split; [exact D | ].
    destruct (_process_next_token raw_text context) as [[[n c] r] | x];
      [ | discriminate].
    injection H as <- <- <-. eauto.
  - destruct (e =? -1)%Z eqn:E1; [apply Z.eqb_eq in E1; lia | ].
    intros H. right. split; [exact D | ].
    unfold attr_value_branch, decode_attr_value in H.
    match type of H with
    | match ?scrut with _ => _ end = _ => destruct scrut; [discriminate | ]
    end.
    match type of H with
    | match ?scrut with _ => _ end = _ => destruct scrut as [attr_end | x]; [ | discriminate]
    end.
    match type of H with
    | match ?scrut with _ => _ end = _ => destruct scrut as [[[c n] | x] | ]; try discriminate
    end.
    destruct attr_end as [attr_end | ].
    + injection H as <- <- <-. right. rewrite length_from. split; [lia | ].
      exists c. reflexivity.
    + match type of H with
      | (if ?scrut then _ else _) = _ => destruct scrut; [discriminate | ]
      end.
      injection H as <- <- <-. left. reflexivity.
Qed.

(** A turn of the driver's loop lowers the measure. *)
Lemma driver_step_progress (raw_text : pystr) (context : Z) (normalized : pystr)
    (raw_text' : pystr) (context' : Z) (normalized' : pystr) :
  raw_text <> [] ->
  driver_step raw_text context normalized
  = Some (Ok (raw_text', context', normalized')) ->
  driver_measure raw_text' context' < driver_measure raw_text context.
Proof.
  intros Hr H. apply driver_step_cases in H.
  unfold driver_measure.
  pose proof (driver_rank_le_4 context') as H4.
  assert (Hl : 0 < List.length raw_text) by (destruct raw_text; [congruence | simpl; lia]).
  destruct H as [(D & n & r & T & ->) | (D & [-> | (Hle & c & ->)])].
  - rewrite length_from. apply token_progress in T; [ | exact Hr].
    destruct T as [T | T]; [lia | ].
    assert (driver_rank context' < driver_rank context); [ | lia].
    unfold driver_rank. rewrite D. simpl.
    destruct (delim_type_of context' =? DELIM_NONE)%Z; lia.
  - simpl. lia.
  - assert (driver_rank (Z.lor STATE_TAG (element_type_of c)) = 0) as ->.
    { unfold driver_rank. rewrite delim_of_back_to_tag, state_of_back_to_tag.
      reflexivity. }
    assert (driver_rank context = 1); [ | lia].
    unfold driver_rank. apply Z.eqb_neq in D. rewrite D. reflexivity.
Qed.

Lemma driver_step_terminates (raw_text : pystr) (context : Z) (normalized : pystr) :
  exists r, driver_step raw_text context normalized = Some r.
Proof.
  unfold driver_step.
  destruct (_end_of_attr_value raw_text (delim_type_of context)) as [e | x];
    [ | eauto].
  destruct (e =? -1)%Z.
  - destruct (_process_next_token raw_text context) as [[[n c] r] | x]; eauto.
  - unfold attr_value_branch, decode_attr_value.
    match goal with
    | |- exists r, match ?scrut with _ => _ end = _ => destruct scrut; [eauto | ]
    end.
    match goal with
    | |- exists r, match ?scrut with _ => _ end = _ => destruct scrut as [attr_end | x]; [ | eauto]
    end.
    match goal with
    | |- context [attr_value_loop ?f ?esc ?t ?c ?n] =>
        destruct (attr_value_loop_terminates esc f t c n) as [r ->]
    end.
    + unfold attr_value_fuel, attr_value_measure.
      pose proof (rank_le_2 (state_of context)). lia.
    + destruct r as [[c n] | x]; [ | eauto].
      destruct attr_end; [eauto | ].
      match goal with
      | |- exists r, (if ?scrut then _ else _) = _ => destruct scrut; eauto
      end.
Qed.

(** The loop of the driver ends within its measure. *)
Lemma process_raw_text_loop_terminates :
  forall (fuel : nat) (raw_text : pystr) (context : Z) (normalized : pystr),
    driver_measure raw_text context <= fuel ->
    exists r, process_raw_text_loop fuel raw_text context normalized = Some r.
Proof.
  induction fuel as [ | fuel IH]; intros raw_text context normalized Hm;
    destruct raw_text as [ | a raw_text]; simpl; eauto.
  - unfold driver_measure in Hm. simpl in Hm. lia.
  - destruct (driver_step_terminates (a :: raw_text) context normalized) as [r E].
    rewrite E. destruct r as [[[raw' c'] n'] | x]; [ | eauto].
    destruct (is_error_context c'); [eauto | ].
    apply IH. apply driver_step_progress in E; [lia | discriminate].
Qed.

End Driver.

(** ** Searching for one character of a set *)

Section OneCharacter.
Import Re.

Lemma search_at_set (rs : list (N * N)) (s : pystr) :
  forall (i : nat) (pv : option ascii),
    search_at (re (set rs)) i pv s
    = option_map (fun j => (i + j, S (i + j), None))
                 (index_of_first (fun a => in_ranges rs (N_of_ascii a)) s).
Proof.
  induction s as [ | a t IH]; intros i pv; [reflexivity | ].
  cbn [search_at re set p_icase p_re m advance rest pos index_of_first].
  unfold cs_mem. cbn [cs_neg cs_ranges xorb].
  destruct (in_ranges rs (N_of_ascii a)).
  - simpl. rewrite Nat.add_0_r. reflexivity.
  - rewrite IH.
    destruct (index_of_first (fun a0 => in_ranges rs (N_of_ascii a0)) t); simpl;
      [ | reflexivity].
    rewrite Nat.add_succ_r. reflexivity.
Qed.

Lemma search_set (rs : list (N * N)) (s : pystr) :
  search (re (set rs)) s
  = option_map (fun j => {| m_string := s; m_start := j; m_end := S j;
                            m_group1 := None |})
               (index_of_first (fun a => in_ranges rs (N_of_ascii a)) s).
Proof.
  unfold search. rewrite search_at_set.
  destruct (index_of_first _ s); reflexivity.
Qed.

Lemma index_of_first_ext (f f' : ascii -> bool) (s : pystr) :
  (forall a, f a = f' a) -> index_of_first f s = index_of_first f' s.
Proof.
  intros H. induction s as [ | a t IH]; simpl; [reflexivity | ].
  rewrite H, IH. reflexivity.
Qed.

Lemma index_of_first_lt (f : ascii -> bool) (s : pystr) (i : nat) :
  index_of_first f s = Some i ->
  exists a, nth_error s i = Some a /\ f a = true.
Proof.
  revert i. induction s as [ | a t IH]; intros i; simpl; [discriminate | ].
  destruct (f a) eqn:F.
  - intros H. injection H as <-. exists a. auto.
  - destruct (index_of_first f t) as [j | ]; [ | discriminate].
    intros H. injection H as <-. apply IH. reflexivity.
Qed.

Lemma whitespace_or_gt_ranges (a : ascii) :
  in_ranges (space_ranges ++ [one ">"]) (N_of_ascii a) = is_whitespace_or_gt a.
Proof. destruct a as [[] [] [] [] [] [] [] []]; reflexivity. Qed.

Lemma suspicious_ranges (a : ascii) :
  in_ranges [(0, 0)%N; DQ; SQ; one "<"; one "="; one "`"] (N_of_ascii a)
  = is_suspicious a.
Proof. destruct a as [[] [] [] [] [] [] [] []]; reflexivity. Qed.

Lemma find_from_char (q : ascii) (s : pystr) :
  forall i,
    find_from [q] s i
    = match index_of_first (Ascii.eqb q) s with
      | Some j => Z.of_nat (i + j)
      | None => (-1)%Z
      end.
Proof.
  induction s as [ | a t IH]; intros i; [reflexivity | ].
  cbn [find_from is_prefix index_of_first].
  rewrite andb_true_r. destruct (Ascii.eqb q a).
  - rewrite Nat.add_0_r. reflexivity.
  - rewrite IH. destruct (index_of_first (Ascii.eqb q) t); simpl; [ | reflexivity].
    rewrite Nat.add_succ_r. reflexivity.
Qed.

End OneCharacter.

(** ** The end of an attribute value *)

Lemma end_of_attr_value_unquoted (raw : pystr) :
  _end_of_attr_value raw DELIM_SPACE_OR_TAG_END
  = Ok (first_or_len is_whitespace_or_gt raw).
Proof.
  unfold _end_of_attr_value, first_or_len.
  change (DELIM_SPACE_OR_TAG_END =? DELIM_NONE)%Z with false.
  change (DELIM_SPACE_OR_TAG_END =? DELIM_SPACE_OR_TAG_END)%Z with true.
  cbv iota. rewrite search_set.
  rewrite (index_of_first_ext _ _ raw whitespace_or_gt_ranges).
  destruct (index_of_first is_whitespace_or_gt raw); reflexivity.
Qed.

Lemma end_of_attr_value_quoted (raw : pystr) (delim : Z) (q : ascii) :
  (delim =? DELIM_NONE)%Z = false ->
  (delim =? DELIM_SPACE_OR_TAG_END)%Z = false ->
  DELIM_TEXT delim = Some [q] ->
  _end_of_attr_value raw delim = Ok (first_or_len (Ascii.eqb q) raw).
Proof.
  intros H1 H2 H3. unfold _end_of_attr_value, first_or_len, find.
  rewrite H1, H2, H3, find_from_char.
  destruct (index_of_first (Ascii.eqb q) raw) as [j | ]; [ | reflexivity].
  destruct (Z.of_nat (0 + j) >=? 0)%Z eqn:G; [reflexivity | ].
  rewrite Z.geb_leb in G. apply Z.leb_gt in G. lia.
Qed.

(** C7: [_end_of_attr_value(raw, delim)] is -1 when [delim] is NONE; the
    index of the first whitespace character or [>], else [len(raw)], when
    [delim] is SPACE_OR_TAG_END; the index of the first quote of the kind of
    the delimiter, else [len(raw)], when [delim] is DOUBLE_QUOTE or
    SINGLE_QUOTE. *)
Theorem end_of_attr_value_spec (raw : pystr) :
  _end_of_attr_value raw DELIM_NONE = Ok (-1)%Z
  /\ _end_of_attr_value raw DELIM_SPACE_OR_TAG_END
     = Ok (first_or_len is_whitespace_or_gt raw)
  /\ _end_of_attr_value raw DELIM_DOUBLE_QUOTE = Ok (first_or_len (Ascii.eqb dquote) raw)
  /\ _end_of_attr_value raw DELIM_SINGLE_QUOTE = Ok (first_or_len (Ascii.eqb squote) raw).
Proof.
  split; [reflexivity | ]. split; [apply end_of_attr_value_unquoted | ].
  split; apply end_of_attr_value_quoted; reflexivity.
Qed.

(** ** The driver on particular contexts *)

Section DriverFacts.
Context {ext : Externals}.
Import Re.

(** The first turn of the driver on a non-empty text. *)
Lemma process_raw_text_first_turn (raw : pystr) (context : Z) :
  raw <> [] ->
  process_raw_text raw context
  = match driver_step raw context [] with
    | None => None
    | Some (Raise e) => Some (Raise e)
    | Some (Ok (raw', context', normalized)) =>
        if is_error_context context'
        then Some (Ok (context', None, Some context, Some raw))
        else process_raw_text_loop (5 * List.length raw + 4) raw' context' normalized
    end.
Proof.
  intros Hr. unfold process_raw_text, driver_fuel.
  replace (5 * List.length raw + 5) with (S (5 * List.length raw + 4)) by lia.
  destruct raw as [ | a raw]; [congruence | reflexivity].
Qed.

(** C9: [process_raw_text] on the empty text returns the context unchanged,
    the empty text as normalized output and no error fields, for every
    context, an error context included. *)
Theorem process_raw_text_empty (context : Z) :
  process_raw_text [] context = Some (Ok (context, Some [], None, None)).
Proof. reflexivity. Qed.

(** C4: the transition of the Slash rule.  From a context in state JS, on a
    match of [/]: with js-ctx DIV_OP the next context is in state JS with
    js-ctx REGEX; with js-ctx REGEX it is in state JSREGEXP; with any other
    js-ctx (UNKNOWN) the transition raises [ContextUpdateFailure], the
    message naming the text from the slash on. *)
Theorem slash_transition (prior : Z) (text : pystr) (mt : Match) :
  state_of prior = STATE_JS ->
  search (re (chr "/")) text = Some mt ->
  (js_ctx_of prior = JS_CTX_DIV_OP ->
   exists next,
     compute_next_context (_SlashTransition (re (chr "/"))) prior mt = Ok next
     /\ state_of next = STATE_JS /\ js_ctx_of next = JS_CTX_REGEX)
  /\ (js_ctx_of prior = JS_CTX_REGEX ->
      exists next,
        compute_next_context (_SlashTransition (re (chr "/"))) prior mt = Ok next
        /\ state_of next = STATE_JSREGEXP)
  /\ (js_ctx_of prior <> JS_CTX_DIV_OP ->
      js_ctx_of prior <> JS_CTX_REGEX ->
      compute_next_context (_SlashTransition (re (chr "/"))) prior mt
      = Raise (ContextUpdateFailure (AmbiguousSlash (from (m_start mt) text)))).
Proof.
  intros _ Hs. apply search_string in Hs.
  cbn [compute_next_context]. repeat split.
  - intros ->. eexists. split; [reflexivity | ]. split; ctx_field.
  - intros ->. eexists. split; [reflexivity | ]. ctx_field.
  - intros H1 H2. apply Z.eqb_neq in H1, H2. rewrite H1, H2, Hs. reflexivity.
Qed.

(** C5: in an unquoted attribute value (delimiter SPACE_OR_TAG_END), when
    the text before the end of the value contains NUL, a quote, [<], [=] or
    a backtick, the turn of the driver, and with it [process_raw_text],
    raises [ContextUpdateFailure], the message giving the first such
    character and the value; otherwise the turn goes on to decode the
    value. *)
Theorem unquoted_value_check (raw : pystr) (context : Z) :
  delim_type_of context = DELIM_SPACE_OR_TAG_END ->
  let attr_value_end := Z.to_nat (first_or_len is_whitespace_or_gt raw) in
  let value := upto attr_value_end raw in
  (forall i, index_of_first is_suspicious value = Some i ->
     exists bad,
       nth_error value i = Some bad
       /\ (forall fuel normalized,
              process_raw_text_loop (S fuel) raw context normalized
              = Some (Raise (ContextUpdateFailure (BadUnquotedChar [bad] value))))
       /\ process_raw_text raw context
          = Some (Raise (ContextUpdateFailure (BadUnquotedChar [bad] value))))
  /\ (index_of_first is_suspicious value = None ->
      forall normalized,
        driver_step raw context normalized
        = decode_attr_value raw context DELIM_SPACE_OR_TAG_END attr_value_end
                            normalized).
Proof.
  intros D attr_value_end value.
  assert (Hstep : forall normalized,
             driver_step raw context normalized
             = attr_value_branch raw context DELIM_SPACE_OR_TAG_END attr_value_end
                                 normalized).
  { intros normalized. unfold driver_step. rewrite D.
    rewrite end_of_attr_value_unquoted.
    destruct (first_or_len is_whitespace_or_gt raw =? -1)%Z eqn:E; [ | reflexivity].
    apply Z.eqb_eq in E. unfold first_or_len in E.
    destruct (index_of_first is_whitespace_or_gt raw); lia. }
  assert (Hbad : search bad_unquoted value
                 = option_map (fun j => {| m_string := value; m_start := j;
                                           m_end := S j; m_group1 := None |})
                              (index_of_first is_suspicious value)).
  { unfold bad_unquoted. rewrite search_set.
    rewrite (index_of_first_ext _ _ value suspicious_ranges). reflexivity. }
  split.
  - intros i Hi.
    destruct (index_of_first_lt _ _ _ Hi) as (bad & Hn & _).
    exists bad. split; [exact Hn | ].
    assert (Hr : raw <> []).
    { intros ->. subst value. destruct attr_value_end; discriminate. }
    assert (Hraise : forall normalized,
               driver_step raw context normalized
               = Some (Raise (ContextUpdateFailure (BadUnquotedChar [bad] value)))).
    { intros normalized. rewrite Hstep. unfold attr_value_branch.
      change (DELIM_SPACE_OR_TAG_END =? DELIM_SPACE_OR_TAG_END)%Z with true.
      cbv iota. fold value. rewrite Hbad, Hi. cbn [option_map].
      unfold group0, slice. cbn [m_start m_end m_string].
      replace (S i - i) with 1 by lia.
      apply nth_error_split in Hn. destruct Hn as (l1 & l2 & -> & <-).
      rewrite skipn_app, Nat.sub_diag, skipn_all. reflexivity. }
    split.
    + intros fuel normalized. destruct raw as [ | a raw]; [congruence | ].
      cbn [process_raw_text_loop]. rewrite Hraise. reflexivity.
    + rewrite (process_raw_text_first_turn _ _ Hr), Hraise. reflexivity.
  - intros Hi normalized. rewrite Hstep. unfold attr_value_branch.
    change (DELIM_SPACE_OR_TAG_END =? DELIM_SPACE_OR_TAG_END)%Z with true.
    cbv iota. fold value. rewrite Hbad, Hi. reflexivity.
Qed.

End DriverFacts.

(** ** Turns of the driver, one at a time *)

Section Turns.
Context {ext : Externals}.
Import Re.

Lemma process_raw_text_loop_turn (fuel : nat) (raw : pystr) (context : Z)
    (normalized : pystr) :
  raw <> [] ->
  process_raw_text_loop (S fuel) raw context normalized
  = match driver_step raw context normalized with
    | None => None
    | Some (Raise e) => Some (Raise e)
    | Some (Ok (raw', context', normalized')) =>
        if is_error_context context'
        then Some (Ok (context', None, Some context, Some raw))
        else process_raw_text_loop fuel raw' context' normalized'
    end.
Proof. intros Hr. destruct raw; [congruence | reflexivity]. Qed.

Lemma driver_step_outside (raw : pystr) (context : Z) (normalized : pystr) :
  delim_type_of context = DELIM_NONE ->
  driver_step raw context normalized
  = match _process_next_token raw context with
    | Raise e => Some (Raise e)
    | Ok (num_consumed, context', replacement_text) =>
        Some (Ok (from num_consumed raw, context',
                  normalized ++ replacement_text
                  ++ (if (delim_type_of context' =? DELIM_SPACE_OR_TAG_END)%Z
                      then [dquote] else [])))
    end.
Proof. intros D. unfold driver_step. rewrite D. reflexivity. Qed.

(** A turn outside an attribute value that does not end in an error
    context. *)
Lemma turn_outside (fuel : nat) (raw : pystr) (context : Z) (normalized : pystr)
    (n : nat) (context' : Z) (replacement : pystr) :
  raw <> [] ->
  delim_type_of context = DELIM_NONE ->
  _process_next_token raw context = Ok (n, context', replacement) ->
  is_error_context context' = false ->
  process_raw_text_loop (S fuel) raw context normalized
  = process_raw_text_loop fuel (from n raw) context'
      (normalized ++ replacement
       ++ (if (delim_type_of context' =? DELIM_SPACE_OR_TAG_END)%Z
           then [dquote] else [])).
Proof.
  intros Hr D T E.
  rewrite (process_raw_text_loop_turn _ _ _ _ Hr), (driver_step_outside _ _ _ D), T, E.
  reflexivity.
Qed.

(** A step of the scanner from a state of the table, its guard left out. *)
Lemma scan_in_state (text : pystr) (context state : Z) (rules : list transition)
    (step : nat * Z * pystr) :
  state_of context = state ->
  (state =? STATE_ERROR)%Z = false ->
  nth_error _TRANSITIONS (Z.to_nat state) = Some (Some rules) ->
  text <> [] ->
  chosen_step text context rules = Ok step ->
  _process_next_token text context = Ok step.
Proof.
  intros S E N Ht C.
  rewrite (process_next_token_unguarded text context rules Ht); [exact C | | ].
  - unfold is_error_context. rewrite S. exact E.
  - rewrite S. exact N.
Qed.

(** In an error context the scanner consumes the whole text unchanged. *)
Lemma process_next_token_error (text : pystr) (context : Z) :
  is_error_context context = true ->
  _process_next_token text context = Ok (List.length text, context, text).
Proof. intros E. unfold _process_next_token. rewrite E. reflexivity. Qed.

(** C3, as amended: in an error context the scanner consumes the whole text
    unchanged and stays in the context; from an error context whose
    delimiter is NONE, [process_raw_text] on a non-empty text returns that
    context with no normalized text, and the context and the text again as
    the place of the error. *)
Theorem error_context_absorbs (raw : pystr) (context : Z) :
  is_error_context context = true ->
  (forall text,
      _process_next_token text context = Ok (List.length text, context, text))
  /\ (delim_type_of context = DELIM_NONE ->
      raw <> [] ->
      process_raw_text raw context
      = Some (Ok (context, None, Some context, Some raw))).
Proof.
  intros E. split; [intros text; apply process_next_token_error, E | ].
  intros D Hr.
  rewrite (process_raw_text_first_turn _ _ Hr), (driver_step_outside _ _ _ D).
  rewrite (process_next_token_error _ _ E), E. reflexivity.
Qed.

(** C8, as amended: on the block comment [/*], line feed, [*/] from a
    context in state JS outside an attribute value, [process_raw_text]
    returns a context in state JS and the normalized text made of a space
    (for the opening of the comment) and a line feed. *)
Theorem js_block_comment_with_newline (context : Z) :
  state_of context = STATE_JS ->
  delim_type_of context = DELIM_NONE ->
  exists context',
    process_raw_text (str "/*" ++ [LF_char] ++ str "*/") context
    = Some (Ok (context', Some (str " " ++ [LF_char]), None, None))
    /\ state_of context' = STATE_JS.
Proof.
  intros S0 D.
  set (c1 := Z.lor (Z.land context (Z.lnot (Z.lor URL_PART_ALL STATE_ALL)))
                   STATE_JSBLOCK_CMT).
  set (c2 := Z.lor (Z.land c1 (Z.lnot (Z.lor URL_PART_ALL STATE_ALL))) STATE_JS).
  assert (S1 : state_of c1 = STATE_JSBLOCK_CMT) by apply state_of_to_state.
  assert (S2 : state_of c2 = STATE_JS) by apply state_of_to_state.
  assert (D1 : delim_type_of c1 = DELIM_NONE).
  { unfold c1. unfold delim_type_of in D. ctx_field. exact D. }
  assert (D2 : delim_type_of c2 = DELIM_NONE).
  { unfold c2. unfold delim_type_of in D1. ctx_field. exact D1. }
  assert (T1 : _process_next_token (str "/*" ++ [LF_char] ++ str "*/") context
               = Ok (2, c1, str " ")).
  { apply (scan_in_state _ _ STATE_JS JS_rules);
      [exact S0 | reflexivity | reflexivity | discriminate | vm_compute; reflexivity]. }
  assert (T2 : _process_next_token ([LF_char] ++ str "*/") c1 = Ok (3, c2, [LF_char])).
  { apply (scan_in_state _ _ STATE_JSBLOCK_CMT JSBLOCK_CMT_rules);
      [exact S1 | reflexivity | reflexivity | discriminate | vm_compute; reflexivity]. }
  exists c2. split; [ | exact S2].
  unfold process_raw_text.
  change (driver_fuel (str "/*" ++ [LF_char] ++ str "*/")) with (S (S 28)).
  assert (N1 : str "/*" ++ [LF_char] ++ str "*/" <> []) by discriminate.
  assert (N2 : [LF_char] ++ str "*/" <> []) by discriminate.
  rewrite (turn_outside _ _ _ _ _ _ _ N1 D T1)
    by (unfold is_error_context; rewrite S1; reflexivity).
  rewrite D1.
  change (from 2 (str "/*" ++ [LF_char] ++ str "*/")) with ([LF_char] ++ str "*/").
  rewrite (turn_outside _ _ _ _ _ _ _ N2 D1 T2)
    by (unfold is_error_context; rewrite S2; reflexivity).
  rewrite D2. reflexivity.
Qed.

End Turns.

(** ** The token scanner chooses the earliest applicable transition *)

Section Scanner.
Context {ext : Externals}.
Import Re.

(** C1: on a non-empty text and a context that is not an error context, with
    [rules] the transitions of the state of the context, the candidates are
    the rules whose pattern matches and which are applicable, in the order
    of the table; when there is none, [_process_next_token] returns
    [(len(text), STATE_ERROR, text)]; otherwise there is a candidate of
    minimum match start before which every candidate starts strictly later,
    and [_process_next_token] returns the end of its match, its
    [compute_next_context] (whose exception, if any, is raised) and its
    [raw_text]. *)
Theorem process_next_token_choice (text : pystr) (context : Z)
    (rules : list transition) :
  text <> [] ->
  is_error_context context = false ->
  nth_error _TRANSITIONS (Z.to_nat (state_of context)) = Some (Some rules) ->
  let cands := candidates text context rules in
  (forall t mt,
      In (t, mt) cands
      <-> In t rules /\ search (pattern_of t) text = Some mt
          /\ is_applicable_to t context mt = true)
  /\ (cands = [] ->
      _process_next_token text context = Ok (List.length text, STATE_ERROR, text))
  /\ (cands <> [] -> exists i tm, is_earliest cands i tm)
  /\ (forall i t mt,
         is_earliest cands i (t, mt) ->
         _process_next_token text context
         = (next_context <- compute_next_context t context mt ;;
            Ok (m_end mt, next_context, raw_text t mt))).
Proof.
  intros Ht He N cands.
  rewrite (process_next_token_unguarded text context rules Ht He N).
  unfold chosen_step.
  split; [intros t mt; apply In_candidates | ].
  destruct (earliest_spec text context rules) as [[C E] | (i & tm & Hi & E)];
    fold cands in C || fold cands in Hi.
  - rewrite E. split; [reflexivity | ]. split; [congruence | ].
    intros j t mt [Hn _]. rewrite C in Hn. destruct j; discriminate.
  - rewrite E. split.
    + intros C. destruct Hi as [Hn _]. rewrite C in Hn. destruct i; discriminate.
    + split; [intros _; exists i, tm; exact Hi | ].
      intros j t mt Hj.
      rewrite (is_earliest_unique _ _ _ _ _ Hi Hj). reflexivity.
Qed.

(** *** The delimiter outside attribute values

    Section 3.1 of the specification: a context outside an attribute value
    has the delimiter NONE.  What the loop of the driver needs of it is that
    a context in state TAG has no delimiter, and its turns keep that. *)

Lemma Ok_inj {A : Type} (x y : A) : Ok x = Ok y -> x = y.
Proof. intros H. injection H as ->. reflexivity. Qed.

Lemma tag_delim_table_ok : forallb tag_delim_rules_ok _TRANSITIONS = true.
Proof. vm_compute. reflexivity. Qed.

Lemma tag_delim_rules (k : nat) (rules : list transition) (t : transition) :
  nth_error _TRANSITIONS k = Some (Some rules) ->
  In t rules ->
  tag_delim_ok t = true.
Proof.
  intros N Hin. pose proof tag_delim_table_ok as H.
  rewrite forallb_forall in H. specialize (H _ (nth_error_In _ _ N)).
  simpl in H. rewrite forallb_forall in H. exact (H t Hin).
Qed.

Lemma tag_delim_sound (t : transition) (prior : Z) (mt : Match) (next : Z) :
  (forall token context,
     Z.land (next_js_ctx token context) (Z.lnot JS_CTX_ALL)
     = Z.land context (Z.lnot JS_CTX_ALL)) ->
  tag_delim_ok t = true ->
  delim_type_of prior = DELIM_NONE ->
  compute_next_context t prior mt = Ok next ->
  state_of next = STATE_TAG ->
  delim_type_of next = DELIM_NONE.
Proof.
  intros Hjs K D C.
  induction t; cbn [tag_delim_ok] in K; cbn [compute_next_context] in C; auto.
  - (* _ToTransition *)
    injection C as <-. intros St. rewrite St in K. simpl in K.
    apply Z.eqb_eq in K. exact K.
  - (* _ToTagTransition *)
    injection C as <-. intros St. rewrite St in K. simpl in K.
    apply Z.eqb_eq in K. exact K.
  - (* _TagDoneTransition *)
    intros _.
    destruct (_TAG_DONE_ELEMENT_TO_PARTIAL_CONTEXT (element_type_of prior))
      as [partial | ] eqn:P; [ | discriminate].
    injection C as <-.
    assert (Hp : In partial [STATE_TEXT; Z.lor STATE_JS JS_CTX_REGEX; STATE_CSS;
                             STATE_RCDATA]).
    { unfold _TAG_DONE_ELEMENT_TO_PARTIAL_CONTEXT in P.
      repeat match type of P with
             | (if ?b then _ else _) = _ => destruct b
             end;
        try discriminate P; injection P as <-; simpl; auto. }
    simpl in Hp.
    repeat (destruct Hp as [Hp | Hp]; [subst partial; ctx_field | ]).
    contradiction.
  - (* _TransitionBackToTag *)
    apply Ok_inj in C. subst next. intros _. apply delim_of_back_to_tag.
  - (* _TransitionToAttrName *)
    intros _. destruct (group1 mt); [ | discriminate].
    destruct (attr_type _); apply Ok_inj in C; subst next; ctx_field.
  - (* _TransitionToAttrValue *)
    apply Ok_inj in C. subst next. intros St. apply Z.eqb_eq in K.
    pose proof (state_of_after_attr_delimiter prior delim K) as H.
    rewrite St in H. simpl in H.
    repeat (destruct H as [H | H]; [discriminate H | ]). contradiction.
  - (* _TransitionToState *)
    apply Ok_inj in C. subst next. rewrite state_of_to_state. intros St.
    rewrite St in K. discriminate K.
  - (* _TransitionToJsString *)
    apply Ok_inj in C. subst next.
    assert (E : state_of (Z.lor (Z.land prior (Z.lor (Z.lor ELEMENT_ALL ATTR_ALL)
                                                     DELIM_ALL)) state)
                = state_of state) by ctx_field.
    rewrite E. intros St. rewrite St in K. discriminate K.
  - (* _SlashTransition *)
    destruct (js_ctx_of prior =? JS_CTX_DIV_OP)%Z.
    + apply Ok_inj in C. subst next. intros St. exfalso. revert St. ctx_field. discriminate.
    + destruct (js_ctx_of prior =? JS_CTX_REGEX)%Z; [ | discriminate].
      apply Ok_inj in C. subst next. intros St. exfalso. revert St. ctx_field. discriminate.
  - (* _JsPuncTransition *)
    apply Ok_inj in C. subst next. intros _. unfold delim_type_of in *.
    rewrite (field_outside_js_ctx _ prior DELIM_ALL eq_refl (Hjs _ _)). exact D.
  - (* _TransitionToSelf *)
    apply Ok_inj in C. subst next. intros _. exact D.
  - (* _URLPartTransition *)
    apply Ok_inj in C. subst next. intros _. unfold delim_type_of in D.
    destruct (url_part_of prior =? URL_PART_NONE)%Z;
      [destruct (strip (upto (m_end mt) (m_string mt))) | ];
      match goal with
      | |- context [if ?b then _ else _] => destruct b
      end; ctx_field; exact D.
  - (* _EndTagTransition *)
    apply Ok_inj in C. subst next. intros _. reflexivity.
  - (* _RcdataEndTagTransition *)
    apply Ok_inj in C. subst next. intros _. reflexivity.
  - (* _CssUriTransition *)
    apply Ok_inj in C. subst next. intros St. exfalso. revert St.
    destruct (group1 mt) as [[ | a [ | b l]] | ]; try (ctx_field; discriminate).
    destruct (Ascii.eqb a dquote); [ctx_field; discriminate | ].
    destruct (Ascii.eqb a squote); ctx_field; discriminate.
  - (* _DivPreceder *)
    apply Ok_inj in C. subst next. intros St. exfalso. revert St. ctx_field. discriminate.
Qed.

(** A step of the scanner from a context without delimiter does not lead to
    state TAG with a delimiter. *)
Lemma scanner_tag_delim (text : pystr) (context : Z) (n : nat) (context' : Z)
    (replacement : pystr) :
  (forall token prior,
     Z.land (next_js_ctx token prior) (Z.lnot JS_CTX_ALL)
     = Z.land prior (Z.lnot JS_CTX_ALL)) ->
  delim_type_of context = DELIM_NONE ->
  _process_next_token text context = Ok (n, context', replacement) ->
  state_of context' = STATE_TAG ->
  delim_type_of context' = DELIM_NONE.
Proof.
  intros Hjs D H. unfold _process_next_token in H.
  destruct (is_error_context context).
  - injection H as <- <- <-. intros _. exact D.
  - destruct (nth_error _TRANSITIONS (Z.to_nat (state_of context)))
      as [[rules | ] | ] eqn:N; try discriminate.
    destruct (chosen_step text context rules) as [[[n1 c1] r1] | e] eqn:Ch;
      [ | discriminate].
    cbn [bind] in H.
    destruct ((n1 =? 0) && (state_of c1 =? state_of context)%Z);
      [discriminate | ].
    injection H as <- <- <-.
    unfold chosen_step in Ch.
    destruct (snd (earliest text context rules)) as [[t mt] | ] eqn:Ea.
    + destruct (chosen_is_candidate _ _ _ _ _ Ea) as (Hin & _ & _).
      destruct (compute_next_context t context mt) as [next | e] eqn:C;
        [ | discriminate].
      cbn [bind] in Ch. injection Ch as <- <- <-.
      exact (tag_delim_sound t context mt next Hjs (tag_delim_rules _ _ _ N Hin) D C).
    + injection Ch as <- <- <-. intros St. discriminate St.
Qed.

(** C10: [process_raw_text] ends on every text and context.  A turn of its
    loop from a context that, in state TAG, has the delimiter NONE (the
    invariant of section 3.1) raises, or returns having consumed a character
    of the text or changed the state of the context.  The context of the
    next turn is such a context again, provided [next_js_ctx] changes the
    js-ctx bits only.  And when the step the scanner has chosen consumes
    nothing and keeps the state, the scanner raises its infinite-loop
    error. *)
Theorem process_raw_text_terminates (raw : pystr) (context : Z) :
  (exists r, process_raw_text raw context = Some r)
  /\ (raw <> [] ->
      (state_of context = STATE_TAG -> delim_type_of context = DELIM_NONE) ->
      forall normalized,
        (exists e, driver_step raw context normalized = Some (Raise e))
        \/ (exists raw' context' normalized',
               driver_step raw context normalized
               = Some (Ok (raw', context', normalized'))
               /\ (List.length raw' < List.length raw
                   \/ state_of context' <> state_of context)))
  /\ ((forall token prior,
          Z.land (next_js_ctx token prior) (Z.lnot JS_CTX_ALL)
          = Z.land prior (Z.lnot JS_CTX_ALL)) ->
      forall normalized raw' context' normalized',
        driver_step raw context normalized
        = Some (Ok (raw', context', normalized')) ->
        raw' <> [] ->
        state_of context' = STATE_TAG -> delim_type_of context' = DELIM_NONE)
  /\ (forall text rules context' replacement,
         is_error_context context = false ->
         nth_error _TRANSITIONS (Z.to_nat (state_of context)) = Some (Some rules) ->
         chosen_step text context rules = Ok (0, context', replacement) ->
         state_of context' = state_of context ->
         _process_next_token text context = Raise (InfLoop text context)).
Proof.
  split; [ | split; [ | split]].
  - apply process_raw_text_loop_terminates.
    unfold driver_measure, driver_fuel.
    pose proof (driver_rank_le_4 context). lia.
  - intros Hr J normalized.
    destruct (driver_step_terminates raw context normalized) as [[[[raw' c'] n'] | e] H];
      [right | left; eauto].
    exists raw', c', n'. split; [exact H | ].
    apply driver_step_cases in H.
    assert (Hl : 0 < List.length raw) by (destruct raw; [congruence | simpl; lia]).
    destruct H as [(D & n & r & T & ->) | (D & [-> | (Hle & c & ->)])].
    + rewrite length_from. apply token_guard in T; [ | exact Hr].
      destruct T as [T | T]; [left; lia | right; exact T].
    + left. simpl. lia.
    + right. rewrite state_of_back_to_tag. intros St. symmetry in St. auto.
  - intros Hjs normalized raw' context' normalized' H Hr'.
    apply driver_step_cases in H.
    destruct H as [(D & n & r & T & ->) | (D & [-> | (Hle & c & ->)])].
    + exact (scanner_tag_delim _ _ _ _ _ Hjs D T).
    + congruence.
    + intros _. apply delim_of_back_to_tag.
  - intros text rules context' replacement He N C S.
    unfold _process_next_token. rewrite He, N, C. cbn [bind].
    rewrite S, Z.eqb_refl. reflexivity.
Qed.

End Scanner.

(** ** Joining contexts *)

Section Union.
Context {ext : Externals}.
Import Re.
#[local] Open Scope Z_scope.

Lemma split_field (a m : Z) : Z.lor (Z.land a (Z.lnot m)) (Z.land a m) = a.
Proof. rewrite <- Z.ldiff_land. apply Z.lor_ldiff_and. Qed.

(** Two contexts differ only by the field of mask [m]. *)
Lemma differ_only_iff (m a b : Z) :
  a = Z.lor (Z.land b (Z.lnot m)) (Z.land a m)
  <-> Z.land a (Z.lnot m) = Z.land b (Z.lnot m).
Proof.
  split; intros H.
  - rewrite H at 1. rewrite Z.land_lor_distr_l, <- !Z.land_assoc.
    rewrite Z.land_diag, Z.land_lnot_diag, Z.land_0_r, Z.lor_0_r. reflexivity.
  - rewrite <- H. symmetry. apply split_field.
Qed.

Lemma differ_only_sym (m a b : Z) :
  (a =? Z.lor (Z.land b (Z.lnot m)) (Z.land a m))
  = (b =? Z.lor (Z.land a (Z.lnot m)) (Z.land b m)).
Proof.
  destruct (a =? _) eqn:E1; destruct (b =? _) eqn:E2; try reflexivity.
  - apply Z.eqb_eq, differ_only_iff in E1. apply Z.eqb_neq in E2.
    exfalso. apply E2. apply differ_only_iff. symmetry. exact E1.
  - apply Z.eqb_eq, differ_only_iff in E2. apply Z.eqb_neq in E1.
    exfalso. apply E1. apply differ_only_iff. symmetry. exact E2.
Qed.

(** The equation of [context_union_rec], at any depth. *)
Lemma context_union_rec_eq (depth : nat) (context0 context1 : Z) :
  context_union_rec depth context0 context1
  = if context0 =? context1 then Ok context0
    else if context0 =? Z.lor (Z.land context1 (Z.lnot JS_CTX_ALL)) (js_ctx_of context0)
    then Ok (Z.lor (Z.land context0 (Z.lnot JS_CTX_ALL)) JS_CTX_UNKNOWN)
    else if context0 =? Z.lor (Z.land context1 (Z.lnot URL_PART_ALL))
                              (url_part_of context0)
    then Ok (Z.lor (Z.land context0 (Z.lnot URL_PART_ALL)) URL_PART_UNKNOWN)
    else if negb (context0 =? force_epsilon_transition context0)
            || negb (context1 =? force_epsilon_transition context1)
    then match depth with
         | O => Raise RuntimeError
         | S depth' =>
             context_union_rec depth' (force_epsilon_transition context0)
                               (force_epsilon_transition context1)
         end
    else Ok STATE_ERROR.
Proof. destruct depth; reflexivity. Qed.

Lemma context_union_rec_comm (depth : nat) :
  forall a b, context_union_rec depth a b = context_union_rec depth b a.
Proof.
  induction depth as [ | depth IH]; intros a b;
    rewrite (context_union_rec_eq _ a b), (context_union_rec_eq _ b a);
    rewrite (Z.eqb_sym b a);
    (destruct (a =? b) eqn:E; [apply Z.eqb_eq in E; congruence | ]);
    unfold js_ctx_of, url_part_of;
    rewrite (differ_only_sym JS_CTX_ALL b a), (differ_only_sym URL_PART_ALL b a);
    (destruct (a =? Z.lor (Z.land b (Z.lnot JS_CTX_ALL)) (Z.land a JS_CTX_ALL)) eqn:E2;
     [apply Z.eqb_eq, differ_only_iff in E2; rewrite E2; reflexivity | ]);
    (destruct (a =? Z.lor (Z.land b (Z.lnot URL_PART_ALL)) (Z.land a URL_PART_ALL)) eqn:E3;
     [apply Z.eqb_eq, differ_only_iff in E3; rewrite E3; reflexivity | ]);
    rewrite (orb_comm (negb (b =? force_epsilon_transition b)));
    destruct (negb (a =? force_epsilon_transition a)
              || negb (b =? force_epsilon_transition b)); auto.
Qed.

(** A context that is not an error context and STATE_ERROR differ by more
    than the js-ctx or the url-part. *)
Lemma not_error_differs (m a : Z) :
  Z.land m STATE_ALL = 0 ->
  Z.land (Z.lnot m) STATE_ALL = STATE_ALL ->
  is_error_context a = false ->
  (a =? Z.lor (Z.land STATE_ERROR (Z.lnot m)) (Z.land a m)) = false.
Proof.
  intros Hm Hn E. apply Z.eqb_neq. intros H.
  unfold is_error_context in E. apply Z.eqb_neq in E. apply E.
  rewrite H. unfold state_of.
  rewrite Z.land_lor_distr_l, <- !Z.land_assoc, Hm, Hn, Z.land_0_r, Z.lor_0_r.
  reflexivity.
Qed.

(** Neither do STATE_ERROR and another context in which that field is
    empty. *)
Lemma empty_field_differs (m a : Z) :
  Z.land STATE_ERROR (Z.lnot m) = STATE_ERROR ->
  Z.land a m = 0 ->
  a <> STATE_ERROR ->
  (a =? Z.lor (Z.land STATE_ERROR (Z.lnot m)) (Z.land a m)) = false.
Proof.
  intros Hm H0 N. apply Z.eqb_neq. intros H. apply N.
  rewrite H, Hm, H0. reflexivity.
Qed.

(** Joining with STATE_ERROR a context that is not an error context, when the
    nudges leave error contexts alone, make no error context, and come to
    rest on the context after [n] of them. *)
Lemma context_union_rec_error_r (n : nat) :
  (forall c, is_error_context c = true -> force_epsilon_transition c = c) ->
  (forall c, is_error_context c = false ->
             is_error_context (force_epsilon_transition c) = false) ->
  forall depth a,
    (n <= depth)%nat ->
    Nat.iter (S n) force_epsilon_transition a = Nat.iter n force_epsilon_transition a ->
    is_error_context a = false ->
    context_union_rec depth a STATE_ERROR = Ok STATE_ERROR.
Proof.
  intros H1 H2.
  induction n as [ | n IH]; intros depth a Hd Hn E;
    rewrite context_union_rec_eq;
    (destruct (a =? STATE_ERROR) eqn:E1;
     [apply Z.eqb_eq in E1; rewrite E1 in E; discriminate | ]);
    unfold js_ctx_of, url_part_of;
    rewrite (not_error_differs JS_CTX_ALL a eq_refl eq_refl E);
    rewrite (not_error_differs URL_PART_ALL a eq_refl eq_refl E);
    rewrite (H1 STATE_ERROR eq_refl);
    rewrite Z.eqb_refl, orb_false_r;
    (destruct (a =? force_epsilon_transition a) eqn:E2; [reflexivity | ]);
    apply Z.eqb_neq in E2; cbn [negb].
  - simpl in Hn. congruence.
  - destruct depth as [ | depth]; [lia | ].
    apply IH; [lia | | apply H2, E].
    rewrite <- !Nat.iter_succ_r. exact Hn.
Qed.

(** Joining with STATE_ERROR an error context without js-ctx and url-part,
    when the nudges leave error contexts alone. *)
Lemma context_union_rec_error_error (depth : nat) (a : Z) :
  (forall c, is_error_context c = true -> force_epsilon_transition c = c) ->
  is_error_context a = true ->
  js_ctx_of a = JS_CTX_REGEX ->
  url_part_of a = URL_PART_NONE ->
  context_union_rec depth a STATE_ERROR = Ok STATE_ERROR.
Proof.
  intros H1 E J U. rewrite context_union_rec_eq.
  destruct (a =? STATE_ERROR) eqn:E1; [apply Z.eqb_eq in E1; congruence | ].
  apply Z.eqb_neq in E1.
  unfold js_ctx_of, url_part_of in *.
  rewrite (empty_field_differs JS_CTX_ALL a eq_refl J E1).
  rewrite (empty_field_differs URL_PART_ALL a eq_refl U E1).
  rewrite (H1 a E), (H1 STATE_ERROR eq_refl), !Z.eqb_refl. reflexivity.
Qed.

(** The last hypothesis of [context_union_rec_error_error] is needed: an
    error context that differs from STATE_ERROR in its js-ctx only is joined
    with it by the second test of [context_union], before any nudge. *)
Lemma context_union_error_js_ctx (a : Z) :
  Z.land a (Z.lnot JS_CTX_ALL) = STATE_ERROR ->
  a <> STATE_ERROR ->
  context_union a STATE_ERROR = Ok (Z.lor STATE_ERROR JS_CTX_UNKNOWN).
Proof.
  intros H N. unfold context_union. rewrite context_union_rec_eq.
  destruct (a =? STATE_ERROR) eqn:E1; [apply Z.eqb_eq in E1; congruence | ].
  assert (E2 : a = Z.lor (Z.land STATE_ERROR (Z.lnot JS_CTX_ALL)) (js_ctx_of a)).
  { unfold js_ctx_of. apply differ_only_iff. rewrite H. reflexivity. }
  rewrite <- E2, Z.eqb_refl, H. reflexivity.
Qed.

(** C2: [context_union(a, a)] is [a]; [context_union(a, b)] is
    [context_union(b, a)]; and [context_union(a, STATE_ERROR)] is
    STATE_ERROR.  The first two hold whatever [force_epsilon_transition]
    does.  The third is proved of a context that, when it is an error
    context, has no js-ctx and no url-part (one with such a field set is
    joined by an earlier test: [context_union_error_js_ctx]), and of a
    [force_epsilon_transition] that leaves error contexts as they are, makes
    no error context of another context, and comes to rest on [a] within the
    recursion limit. *)
Theorem context_union_properties (a b : Z) :
  context_union a a = Ok a
  /\ context_union a b = context_union b a
  /\ ((forall c, is_error_context c = true -> force_epsilon_transition c = c) ->
      (forall c, is_error_context c = false ->
                 is_error_context (force_epsilon_transition c) = false) ->
      (exists n, (n <= recursion_limit)%nat
                 /\ Nat.iter (S n) force_epsilon_transition a
                    = Nat.iter n force_epsilon_transition a) ->
      (is_error_context a = true ->
       js_ctx_of a = JS_CTX_REGEX /\ url_part_of a = URL_PART_NONE) ->
      context_union a STATE_ERROR = Ok STATE_ERROR).
Proof.
  unfold context_union. split; [ | split].
  - rewrite context_union_rec_eq, Z.eqb_refl. reflexivity.
  - apply context_union_rec_comm.
  - intros H1 H2 (n & Hn & Hs) Hw.
    destruct (is_error_context a) eqn:E.
    + destruct (Hw eq_refl) as [J U].
      exact (context_union_rec_error_error _ a H1 E J U).
    + exact (context_union_rec_error_r n H1 H2 _ a Hn Hs E).
Qed.

End Union.

(** ** An anchor with an unquoted href *)

(** Rewrites with a turn of the driver outside an attribute value;
    [T] is the step of the scanner, [E] says its context is no error. *)
Ltac turn T E :=
  match type of T with
  | _process_next_token ?raw ?c = Ok (?n, ?c2, ?r) =>
      let N := fresh "N" in
      assert (N : raw <> []) by discriminate;
      rewrite (turn_outside _ raw c _ n c2 r N eq_refl T E);
      clear N
  end.

(** Proves a step of the scanner from a state of the table on a text and a
    context that are given in full. *)
Ltac scan state rules :=
  apply (scan_in_state _ _ state rules);
  [reflexivity | reflexivity | reflexivity | discriminate | vm_compute; reflexivity].

Section Anchor.
Context {ext : Externals}.
Import Re.

Lemma attr_value_loop_step (fuel : nat) (escaper : pystr -> pystr) (tail : pystr)
    (context : Z) (normalized : pystr) (n : nat) (context' : Z)
    (replacement : pystr) :
  tail <> [] ->
  _process_next_token tail context = Ok (n, context', replacement) ->
  attr_value_loop (S fuel) escaper tail context normalized
  = attr_value_loop fuel escaper (from n tail) context'
                    (normalized ++ escaper replacement).
Proof.
  intros Ht T. destruct tail; [congruence | ]. simpl. rewrite T. reflexivity.
Qed.

Lemma anchor_fails :
  process_raw_text (str "<a href=foo?x=1>") STATE_TEXT
  = Some (Raise (ContextUpdateFailure (BadUnquotedChar (str "=") (str "foo?x=1")))).
Proof.
  assert (T1 : _process_next_token (str "<a href=foo?x=1>") STATE_TEXT
               = Ok (1, STATE_HTML_BEFORE_TAG_NAME, str "<"))
    by scan STATE_TEXT TEXT_rules.
  assert (T2 : _process_next_token (str "a href=foo?x=1>") STATE_HTML_BEFORE_TAG_NAME
               = Ok (1, STATE_TAG_NAME, str "a"))
    by scan STATE_HTML_BEFORE_TAG_NAME HTML_BEFORE_TAG_NAME_rules.
  assert (T3 : _process_next_token (str " href=foo?x=1>") STATE_TAG_NAME
               = Ok (0, Z.lor STATE_TAG ELEMENT_NONE, []))
    by scan STATE_TAG_NAME TAG_NAME_rules.
  set (attr := match attr_type (str "href") with
               | CONTENT_KIND_JS => ATTR_SCRIPT
               | CONTENT_KIND_CSS => ATTR_STYLE
               | CONTENT_KIND_URL => ATTR_URL
               | CONTENT_KIND_PLAIN => ATTR_NONE
               end).
  assert (T4 : _process_next_token (str " href=foo?x=1>") (Z.lor STATE_TAG ELEMENT_NONE)
               = Ok (5, Z.lor (Z.lor STATE_ATTR_NAME ELEMENT_NONE) attr, str " href")).
  { apply (scan_in_state _ _ STATE_TAG TAG_rules);
      [reflexivity | reflexivity | reflexivity | discriminate | ].
    unfold chosen_step.
    match goal with
    | |- context [snd ?e] =>
        let v := eval vm_compute in (snd e) in change (snd e) with v
    end.
    cbv iota beta. cbn [compute_next_context bind].
    match goal with
    | |- context [group1 ?mt] => change (group1 mt) with (Some (str "href"))
    end.
    cbv iota beta. unfold attr. destruct (attr_type (str "href")); reflexivity. }
  assert (E4 : is_error_context (Z.lor (Z.lor STATE_ATTR_NAME ELEMENT_NONE) attr)
               = false).
  { unfold attr. destruct (attr_type (str "href")); reflexivity. }
  unfold process_raw_text.
  change (driver_fuel (str "<a href=foo?x=1>")) with (S (S (S (S 81)))).
  turn T1 (eq_refl false).
  change (from 1 (str "<a href=foo?x=1>")) with (str "a href=foo?x=1>").
  turn T2 (eq_refl false).
  change (from 1 (str "a href=foo?x=1>")) with (str " href=foo?x=1>").
  turn T3 (eq_refl false).
  change (from 0 (str " href=foo?x=1>")) with (str " href=foo?x=1>").
  turn T4 E4.
  clear T1 T2 T3 T4 E4. subst attr.
  destruct (attr_type (str "href")); vm_compute; reflexivity.
Qed.

Lemma anchor_succeeds :
  attr_type (str "href") = CONTENT_KIND_URL ->
  unescape_html (str "foo?x") = str "foo?x" ->
  escape_html_dq_only (str "foo?") = str "foo?" ->
  escape_html_dq_only (str "x") = str "x" ->
  process_raw_text (str "<a href=foo?x>") STATE_TEXT
  = Some (Ok (STATE_TEXT,
              Some (str "<a href=" ++ [dquote] ++ str "foo?x" ++ [dquote] ++ str ">"),
              None, None)).
Proof.
  intros Ha Hu Hd1 Hd2.
  assert (T1 : _process_next_token (str "<a href=foo?x>") STATE_TEXT
               = Ok (1, STATE_HTML_BEFORE_TAG_NAME, str "<"))
    by scan STATE_TEXT TEXT_rules.
  assert (T2 : _process_next_token (str "a href=foo?x>") STATE_HTML_BEFORE_TAG_NAME
               = Ok (1, STATE_TAG_NAME, str "a"))
    by scan STATE_HTML_BEFORE_TAG_NAME HTML_BEFORE_TAG_NAME_rules.
  assert (T3 : _process_next_token (str " href=foo?x>") STATE_TAG_NAME
               = Ok (0, Z.lor STATE_TAG ELEMENT_NONE, []))
    by scan STATE_TAG_NAME TAG_NAME_rules.
  set (c4 := Z.lor (Z.lor STATE_ATTR_NAME ELEMENT_NONE) ATTR_URL).
  assert (T4 : _process_next_token (str " href=foo?x>") (Z.lor STATE_TAG ELEMENT_NONE)
               = Ok (5, c4, str " href")).
  { apply (scan_in_state _ _ STATE_TAG TAG_rules);
      [reflexivity | reflexivity | reflexivity | discriminate | ].
    unfold chosen_step.
    match goal with
    | |- context [snd ?e] =>
        let v := eval vm_compute in (snd e) in change (snd e) with v
    end.
    cbv iota beta. cbn [compute_next_context bind].
    match goal with
    | |- context [group1 ?mt] => change (group1 mt) with (Some (str "href"))
    end.
    cbv iota beta. rewrite Ha. reflexivity. }
  set (c5 := Z.lor ATTR_URL STATE_AFTER_NAME).
  set (c6 := Z.lor ATTR_URL STATE_BEFORE_VALUE).
  set (c7 := after_attr_delimiter ELEMENT_NONE ATTR_URL DELIM_SPACE_OR_TAG_END).
  set (c8 := Z.lor c7 URL_PART_QUERY_OR_FRAG).
  assert (T5 : _process_next_token (str "=foo?x>") c4 = Ok (0, c5, []))
    by (vm_compute; reflexivity).
  assert (T6 : _process_next_token (str "=foo?x>") c5 = Ok (1, c6, str "="))
    by (vm_compute; reflexivity).
  assert (T7 : _process_next_token (str "foo?x>") c6 = Ok (0, c7, []))
    by (vm_compute; reflexivity).
  assert (A1 : _process_next_token (str "foo?x") c7 = Ok (4, c8, str "foo?"))
    by (vm_compute; reflexivity).
  assert (A2 : _process_next_token (str "x") c8 = Ok (1, c8, str "x"))
    by (vm_compute; reflexivity).
  assert (T9 : _process_next_token (str ">") (Z.lor STATE_TAG (element_type_of c8))
               = Ok (1, STATE_TEXT, str ">"))
    by (vm_compute; reflexivity).
  unfold process_raw_text.
  change (driver_fuel (str "<a href=foo?x>")) with (9 + 66).
  cbn [Nat.add].
  turn T1 (eq_refl false).
  change (from 1 (str "<a href=foo?x>")) with (str "a href=foo?x>").
  turn T2 (eq_refl false).
  change (from 1 (str "a href=foo?x>")) with (str " href=foo?x>").
  turn T3 (eq_refl false).
  change (from 0 (str " href=foo?x>")) with (str " href=foo?x>").
  turn T4 (eq_refl false).
  change (from 5 (str " href=foo?x>")) with (str "=foo?x>").
  turn T5 (eq_refl false).
  change (from 0 (str "=foo?x>")) with (str "=foo?x>").
  turn T6 (eq_refl false).
  change (from 1 (str "=foo?x>")) with (str "foo?x>").
  turn T7 (eq_refl false).
  change (from 0 (str "foo?x>")) with (str "foo?x>").
  rewrite process_raw_text_loop_turn by discriminate.
  unfold driver_step.
  change (delim_type_of c7) with DELIM_SPACE_OR_TAG_END.
  rewrite end_of_attr_value_unquoted.
  change (first_or_len is_whitespace_or_gt (str "foo?x>")) with 5%Z.
  change (5 =? -1)%Z with false. cbv iota.
  unfold attr_value_branch.
  change (DELIM_SPACE_OR_TAG_END =? DELIM_SPACE_OR_TAG_END)%Z with true.
  change (Z.to_nat 5) with 5%nat.
  change (upto 5 (str "foo?x>")) with (str "foo?x").
  change (search bad_unquoted (str "foo?x")) with (@None Match).
  cbv iota. unfold decode_attr_value.
  change (5 <? List.length (str "foo?x>"))%nat with true.
  change (upto 5 (str "foo?x>")) with (str "foo?x").
  change (DELIM_SPACE_OR_TAG_END =? DELIM_SINGLE_QUOTE)%Z with false.
  change (DELIM_TEXT DELIM_SPACE_OR_TAG_END) with (Some (@nil ascii)).
  cbv iota. rewrite Hu.
  change (attr_value_fuel (str "foo?x")) with (S (S 16)).
  rewrite (attr_value_loop_step _ _ (str "foo?x") _ _ _ _ _ ltac:(discriminate) A1), Hd1.
  change (from 4 (str "foo?x")) with (str "x").
  rewrite (attr_value_loop_step _ _ (str "x") _ _ _ _ _ ltac:(discriminate) A2), Hd2.
  change (from 1 (str "x")) with (@nil ascii).
  cbn [attr_value_loop].
  change (is_error_context (Z.lor STATE_TAG (element_type_of c8))) with false.
  cbv iota.
  change (from (5 + List.length (@nil ascii)) (str "foo?x>")) with (str ">").
  turn T9 (eq_refl false).
  vm_compute. reflexivity.
Qed.

(** C6, as amended: on [<a href=foo?x=1>] from TEXT, [process_raw_text]
    raises [ContextUpdateFailure]: the value [foo?x=1] of the unquoted
    attribute contains [=].  On [<a href=foo?x>], with collaborators that take
    [href] for a URL attribute and leave [foo?x] as it is, it returns the
    context TEXT and the normalized text with the value between double
    quotes; on the value the scanner consumes [foo?] in state URL and moves
    the url-part to QUERY_OR_FRAG. *)
Theorem anchor_unquoted_href :
  process_raw_text (str "<a href=foo?x=1>") STATE_TEXT
  = Some (Raise (ContextUpdateFailure (BadUnquotedChar (str "=") (str "foo?x=1"))))
  /\ (attr_type (str "href") = CONTENT_KIND_URL ->
      unescape_html (str "foo?x") = str "foo?x" ->
      escape_html_dq_only (str "foo?") = str "foo?" ->
      escape_html_dq_only (str "x") = str "x" ->
      process_raw_text (str "<a href=foo?x>") STATE_TEXT
      = Some (Ok (STATE_TEXT,
                  Some (str "<a href=" ++ [dquote] ++ str "foo?x" ++ [dquote]
                        ++ str ">"),
                  None, None)))
  /\ (exists c,
         _process_next_token
           (str "foo?x")
           (after_attr_delimiter ELEMENT_NONE ATTR_URL DELIM_SPACE_OR_TAG_END)
         = Ok (4, c, str "foo?")
         /\ state_of c = STATE_URL
         /\ url_part_of c = URL_PART_QUERY_OR_FRAG).
Proof.
  split; [exact anchor_fails | ]. split; [exact anchor_succeeds | ].
  eexists. split; [vm_compute; reflexivity | ]. split; reflexivity.
Qed.

End Anchor.

(** ** The theorems at particular inputs *)

(** On [<b>] in state TEXT there are candidates, so one is the earliest. *)
Lemma process_next_token_choice_witness :
  str "<b>" <> []
  /\ is_error_context STATE_TEXT = false
  /\ nth_error _TRANSITIONS (Z.to_nat (state_of STATE_TEXT)) = Some (Some TEXT_rules)
  /\ exists i tm, is_earliest (candidates (str "<b>") STATE_TEXT TEXT_rules) i tm.
Proof.
  assert (H1 : str "<b>" <> []) by discriminate.
  split; [exact H1 | ]. split; [reflexivity | ]. split; [reflexivity | ].
  apply (proj1 (proj2 (proj2
           (process_next_token_choice (ext := plain_externals)
              (str "<b>") STATE_TEXT TEXT_rules H1 eq_refl eq_refl)))).
  vm_compute. discriminate.
Defined.

(** Joining AFTER_NAME with STATE_ERROR, with the nudges the specification
    names: AFTER_NAME goes back to the tag, where the nudges rest. *)
Lemma context_union_properties_witness :
  (forall c, is_error_context c = true ->
             force_epsilon_transition (Externals := plain_externals) c = c)
  /\ (forall c, is_error_context c = false ->
                is_error_context
                  (force_epsilon_transition (Externals := plain_externals) c) = false)
  /\ (exists n, n <= recursion_limit
                /\ Nat.iter (S n) (force_epsilon_transition (Externals := plain_externals))
                     STATE_AFTER_NAME
                   = Nat.iter n (force_epsilon_transition (Externals := plain_externals))
                       STATE_AFTER_NAME)
  /\ (is_error_context STATE_AFTER_NAME = true ->
      js_ctx_of STATE_AFTER_NAME = JS_CTX_REGEX
      /\ url_part_of STATE_AFTER_NAME = URL_PART_NONE)
  /\ context_union (ext := plain_externals) STATE_AFTER_NAME STATE_ERROR
     = Ok STATE_ERROR.
Proof.
  assert (H1 : forall c, is_error_context c = true ->
                 force_epsilon_transition (Externals := plain_externals) c = c).
  { intros c E. cbn [force_epsilon_transition plain_externals].
    unfold plain_force_epsilon_transition.
    unfold is_error_context in E. apply Z.eqb_eq in E. rewrite E. reflexivity. }
  assert (H2 : forall c, is_error_context c = false ->
                 is_error_context
                   (force_epsilon_transition (Externals := plain_externals) c) = false).
  { intros c E. cbn [force_epsilon_transition plain_externals].
    unfold plain_force_epsilon_transition.
    destruct ((state_of c =? STATE_AFTER_NAME)%Z || (state_of c =? STATE_BEFORE_VALUE)%Z);
      [ | exact E].
    unfold is_error_context. rewrite state_of_back_to_tag. reflexivity. }
  assert (H3 : exists n, n <= recursion_limit
                 /\ Nat.iter (S n) (force_epsilon_transition (Externals := plain_externals))
                      STATE_AFTER_NAME
                    = Nat.iter n (force_epsilon_transition (Externals := plain_externals))
                        STATE_AFTER_NAME).
  { exists 1. split; [unfold recursion_limit; lia | reflexivity]. }
  assert (H4 : is_error_context STATE_AFTER_NAME = true ->
               js_ctx_of STATE_AFTER_NAME = JS_CTX_REGEX
               /\ url_part_of STATE_AFTER_NAME = URL_PART_NONE).
  { intros E. discriminate E. }
  split; [exact H1 | ]. split; [exact H2 | ]. split; [exact H3 | ].
  split; [exact H4 | ].
  exact (proj2 (proj2 (context_union_properties (ext := plain_externals)
                         STATE_AFTER_NAME STATE_AFTER_NAME))
               H1 H2 H3 H4).
Defined.

(** From STATE_ERROR on [abc]. *)
Lemma error_context_absorbs_witness :
  is_error_context STATE_ERROR = true
  /\ delim_type_of STATE_ERROR = DELIM_NONE
  /\ str "abc" <> []
  /\ process_raw_text (ext := plain_externals) (str "abc") STATE_ERROR
     = Some (Ok (STATE_ERROR, None, Some STATE_ERROR, Some (str "abc"))).
Proof.
  assert (H : str "abc" <> []) by discriminate.
  split; [reflexivity | ]. split; [reflexivity | ]. split; [exact H | ].
  exact (proj2 (error_context_absorbs (ext := plain_externals)
                  (str "abc") STATE_ERROR eq_refl) eq_refl H).
Defined.

(** C3, as stated, fails: from STATE_ERROR the normalized text is [None],
    not the text; and from an error context inside a quoted attribute value
    the driver leaves the error at the end of the value. *)
Lemma error_context_counterexample :
  process_raw_text (ext := plain_externals) (str "abc") STATE_ERROR
  = Some (Ok (STATE_ERROR, None, Some STATE_ERROR, Some (str "abc")))
  /\ process_raw_text (ext := plain_externals) (str "x'>")
                      (Z.lor STATE_ERROR DELIM_SINGLE_QUOTE)
     = Some (Ok (STATE_TEXT, Some (str "x'>"), None, None)).
Proof. split; vm_compute; reflexivity. Qed.

(** The slash of [1/2] after a number. *)
Lemma slash_transition_witness :
  state_of (Z.lor STATE_JS JS_CTX_DIV_OP) = STATE_JS
  /\ Re.search (Re.re (Re.chr "/")) (str "1/2")
     = Some {| Re.m_string := str "1/2"; Re.m_start := 1; Re.m_end := 2;
               Re.m_group1 := None |}
  /\ exists next,
       compute_next_context (ext := plain_externals)
         (_SlashTransition (Re.re (Re.chr "/"))) (Z.lor STATE_JS JS_CTX_DIV_OP)
         {| Re.m_string := str "1/2"; Re.m_start := 1; Re.m_end := 2;
            Re.m_group1 := None |}
       = Ok next
       /\ state_of next = STATE_JS /\ js_ctx_of next = JS_CTX_REGEX.
Proof.
  split; [reflexivity | ]. split; [reflexivity | ].
  apply (proj1 (slash_transition (ext := plain_externals)
                  (Z.lor STATE_JS JS_CTX_DIV_OP) (str "1/2") _ eq_refl eq_refl)).
  reflexivity.
Defined.

(** The unquoted value [a=b]. *)
Lemma unquoted_value_check_witness :
  delim_type_of (Z.lor STATE_ATTR DELIM_SPACE_OR_TAG_END) = DELIM_SPACE_OR_TAG_END
  /\ exists bad,
       process_raw_text (ext := plain_externals) (str "a=b c")
                        (Z.lor STATE_ATTR DELIM_SPACE_OR_TAG_END)
       = Some (Raise (ContextUpdateFailure (BadUnquotedChar [bad] (str "a=b")))).
Proof.
  split; [reflexivity | ].
  destruct (proj1 (unquoted_value_check (ext := plain_externals) (str "a=b c")
                     (Z.lor STATE_ATTR DELIM_SPACE_OR_TAG_END) eq_refl)
                  1%nat eq_refl) as (bad & _ & _ & H).
  exists bad. exact H.
Defined.

(** The anchor with collaborators for plain texts. *)
Lemma anchor_unquoted_href_witness :
  attr_type (Externals := plain_externals) (str "href") = CONTENT_KIND_URL
  /\ process_raw_text (ext := plain_externals) (str "<a href=foo?x>") STATE_TEXT
     = Some (Ok (STATE_TEXT,
                 Some (str "<a href=" ++ [dquote] ++ str "foo?x" ++ [dquote]
                       ++ str ">"),
                 None, None)).
Proof.
  split; [reflexivity | ].
  apply (proj1 (proj2 (anchor_unquoted_href (ext := plain_externals))));
    reflexivity.
Defined.

(** C6, as stated, fails: on [<a href=foo?x=1>] the driver raises. *)
Lemma anchor_counterexample :
  process_raw_text (ext := plain_externals) (str "<a href=foo?x=1>") STATE_TEXT
  = Some (Raise (ContextUpdateFailure (BadUnquotedChar (str "=") (str "foo?x=1")))).
Proof. vm_compute. reflexivity. Qed.

(** The block comment from STATE_JS. *)
Lemma js_block_comment_with_newline_witness :
  state_of STATE_JS = STATE_JS
  /\ delim_type_of STATE_JS = DELIM_NONE
  /\ exists context',
       process_raw_text (ext := plain_externals)
         (str "/*" ++ [LF_char] ++ str "*/") STATE_JS
       = Some (Ok (context', Some (str " " ++ [LF_char]), None, None))
       /\ state_of context' = STATE_JS.
Proof.
  split; [reflexivity | ]. split; [reflexivity | ].
  exact (js_block_comment_with_newline (ext := plain_externals) STATE_JS
           eq_refl eq_refl).
Defined.

(** C8, as stated, fails: the normalized text is a space and a line feed,
    not a line feed alone. *)
Lemma js_block_comment_counterexample :
  process_raw_text (ext := plain_externals) (str "/*" ++ [LF_char] ++ str "*/") STATE_JS
  = Some (Ok (STATE_JS, Some (str " " ++ [LF_char]), None, None))
  /\ str " " ++ [LF_char] <> [LF_char].
Proof. split; [vm_compute; reflexivity | discriminate]. Qed.

(** The first turn on [<b>] consumes a character. *)
Lemma process_raw_text_terminates_witness :
  str "<b>" <> []
  /\ (state_of STATE_TEXT = STATE_TAG -> delim_type_of STATE_TEXT = DELIM_NONE)
  /\ ((exists e, driver_step (ext := plain_externals) (str "<b>") STATE_TEXT []
                 = Some (Raise e))
      \/ (exists raw' context' normalized',
             driver_step (ext := plain_externals) (str "<b>") STATE_TEXT []
             = Some (Ok (raw', context', normalized'))
             /\ (List.length raw' < List.length (str "<b>")
                 \/ state_of context' <> state_of STATE_TEXT))).
Proof.
  assert (H : str "<b>" <> []) by discriminate.
  assert (J : state_of STATE_TEXT = STATE_TAG -> delim_type_of STATE_TEXT = DELIM_NONE)
    by (intros _; reflexivity).
  split; [exact H | ]. split; [exact J | ].
  exact (proj1 (proj2 (process_raw_text_terminates (ext := plain_externals)
                         (str "<b>") STATE_TEXT))
               H J []).
Defined.

(** The hypothesis on the context is needed: in state TAG with the delimiter
    of an unquoted value, which no turn of the driver leads to, the turn on
    [>] returns, has consumed nothing and has left the state as it was. *)
Lemma tag_with_delimiter_turn :
  driver_step (ext := plain_externals) (str ">")
              (Z.lor STATE_TAG DELIM_SPACE_OR_TAG_END) []
  = Some (Ok (str ">", STATE_TAG, [dquote]))
  /\ state_of STATE_TAG = state_of (Z.lor STATE_TAG DELIM_SPACE_OR_TAG_END).
Proof. split; vm_compute; reflexivity. Qed.

(** * Further properties of the code *)

(** ** The span of a match *)

Section Span.
Import Re.

(** The matcher moves its cursor along the subject: where it hands over, the
    position and what is left add up as before. *)
Lemma m_span (r : regex) :
  forall (R : Type) (icase : bool) (c : cursor) (g : group)
         (k : cursor -> group -> option R) (x : R),
    m icase r c g k = Some x ->
    exists c' g',
      k c' g' = Some x
      /\ pos c' + List.length (rest c') = pos c + List.length (rest c).
Proof.
  induction r as [ | cs | r1 IH1 r2 IH2 | r1 IH1 r2 IH2 | r1 IH1 | r1 IH1
                   | | | | r1 IH1 | r1 IH1 ];
    intros R icase c g k x H; cbn [m] in H.
  - eauto.
  - unfold advance in H. destruct (rest c) as [ | a t] eqn:E; [discriminate | ].
    destruct (cs_mem icase cs a); [ | discriminate].
    eexists _, g. split; [exact H | ]. simpl. lia.
  - apply IH1 in H. destruct H as (c1 & g1 & H & H1).
    apply IH2 in H. destruct H as (c2 & g2 & H & H2).
    exists c2, g2. split; [exact H | lia].
  - destruct (m icase r1 c g k) as [y | ] eqn:E.
    + injection H as ->. apply IH1 in E. exact E.
    + apply IH2 in H. exact H.
  - revert H. generalize (S (List.length (rest c))). intros n. revert c g.
    induction n as [ | n IHn]; intros c g H; simpl in H.
    + eauto.
    + destruct (m icase r1 c g
                  (fun c' g' =>
                     if pos c <? pos c'
                     then star_loop (fun c' g' k' => m icase r1 c' g' k') k n c' g'
                     else None))
        as [y | ] eqn:E.
      * injection H as ->. apply IH1 in E.
        destruct E as (c1 & g1 & E & H1).
        destruct (pos c <? pos c1); [ | discriminate].
        apply IHn in E. destruct E as (c2 & g2 & E & H2).
        exists c2, g2. split; [exact E | lia].
      * eauto.
  - apply IH1 in H. destruct H as (c1 & g1 & H & H1).
    eexists c1, _. split; [exact H | exact H1].
  - destruct (pos c =? 0); [eauto | discriminate].
  - assert (k c g = Some x) by (destruct (rest c); [exact H | discriminate]).
    eauto.
  - destruct (at_word_boundary c); [eauto | discriminate].
  - destruct (m icase r1 c g (fun _ _ => Some tt)); [eauto | discriminate].
  - destruct (m icase r1 c g (fun _ _ => Some tt)); [discriminate | eauto].
Qed.

Lemma search_at_end_le (p : pattern) (s : pystr) :
  forall (i : nat) (pv : option ascii) (b e : nat) (g : group),
    search_at p i pv s = Some (b, e, g) -> e <= i + List.length s.
Proof.
  induction s as [ | a t IH]; intros i pv b e g H; simpl in H.
  - destruct (m (p_icase p) (p_re p) {| pos := i; prev := pv; rest := [] |} None
                (fun c g => Some (pos c, g))) as [[e' g'] | ] eqn:E; [ | discriminate].
    injection H as <- <- <-. apply m_span in E.
    destruct E as (c' & g'' & E & Hs). injection E as <- <-. simpl in Hs. simpl. lia.
  - destruct (m (p_icase p) (p_re p) {| pos := i; prev := pv; rest := a :: t |} None
                (fun c g => Some (pos c, g))) as [[e' g'] | ] eqn:E.
    + injection H as <- <- <-. apply m_span in E.
      destruct E as (c' & g'' & E & Hs). injection E as <- <-. simpl in Hs. simpl. lia.
    + apply IH in H. simpl. lia.
Qed.

Lemma search_end_le (p : pattern) (s : pystr) (mt : Match) :
  search p s = Some mt -> m_end mt <= List.length s.
Proof.
  unfold search. destruct (search_at p 0 None s) as [[[b e] g] | ] eqn:E; [ | discriminate].
  intros H. injection H as <-. simpl. apply search_at_end_le in E. lia.
Qed.

End Span.

(** ** Bounds and exceptions of the scanner *)

Section ScannerBounds.
Context {ext : Externals}.
Import Re.

Lemma find_from_le (sub s : pystr) :
  forall i, (find_from sub s i <= Z.of_nat (i + List.length s))%Z.
Proof.
  induction s as [ | a s IH]; intros i; simpl.
  - destruct (is_prefix sub []); lia.
  - destruct (is_prefix sub (a :: s)); [lia | ].
    specialize (IH (S i)). lia.
Qed.

Lemma end_of_attr_value_range (raw_text : pystr) (delim : Z) :
  (forall e, _end_of_attr_value raw_text delim = Ok e ->
     (e = -1 /\ delim = DELIM_NONE)%Z
     \/ (0 <= e <= Z.of_nat (List.length raw_text) /\ delim <> DELIM_NONE)%Z)
  /\ (forall x, _end_of_attr_value raw_text delim = Raise x ->
        x = KeyError /\ DELIM_TEXT delim = None
        /\ delim <> DELIM_NONE /\ delim <> DELIM_SPACE_OR_TAG_END).
Proof.
  unfold _end_of_attr_value. split.
  - intros e. destruct (delim =? DELIM_NONE)%Z eqn:D.
    + intros H. injection H as <-. left. apply Z.eqb_eq in D. auto.
    + apply Z.eqb_neq in D. intros H. right. split; [ | exact D].
      destruct (delim =? DELIM_SPACE_OR_TAG_END)%Z.
      * destruct (search _ raw_text) as [mt | ] eqn:S; injection H as <-; [ | lia].
        apply search_start_le in S. lia.
      * destruct (DELIM_TEXT delim) as [d | ]; [ | discriminate].
        pose proof (find_from_le d raw_text 0) as L. unfold find in H.
        destruct (find_from d raw_text 0 >=? 0)%Z eqn:F; injection H as <-;
          [ | lia].
        rewrite Z.geb_leb in F. apply Z.leb_le in F. simpl in L. lia.
  - intros x. destruct (delim =? DELIM_NONE)%Z eqn:D; [discriminate | ].
    destruct (delim =? DELIM_SPACE_OR_TAG_END)%Z eqn:D2.
    + destruct (search _ raw_text); discriminate.
    + destruct (DELIM_TEXT delim) as [d | ];
        [destruct (find raw_text d >=? 0)%Z; discriminate | ].
      intros H. injection H as <-.
      apply Z.eqb_neq in D, D2. auto.
Qed.

(** X1: [_end_of_attr_value] returns -1 exactly when the delimiter is NONE
    and otherwise an index between 0 and [len(raw_text)]; it raises only
    [KeyError], for a delimiter that [DELIM_TEXT] does not hold. *)
Theorem end_of_attr_value_bounds (raw_text : pystr) (delim : Z) :
  (forall e, _end_of_attr_value raw_text delim = Ok e ->
     (e = -1 /\ delim = DELIM_NONE)%Z
     \/ (0 <= e <= Z.of_nat (List.length raw_text) /\ delim <> DELIM_NONE)%Z)
  /\ (forall x, _end_of_attr_value raw_text delim = Raise x ->
        x = KeyError /\ DELIM_TEXT delim = None
        /\ delim <> DELIM_NONE /\ delim <> DELIM_SPACE_OR_TAG_END).
Proof. exact (end_of_attr_value_range raw_text delim). Qed.

Lemma raising_table_ok : raising_ok_from 0 _TRANSITIONS = true.
Proof. vm_compute. reflexivity. Qed.

Lemma raising_ok_from_nth (table : list (option (list transition))) :
  forall (i n : nat),
    raising_ok_from i table = true ->
    match nth_error table n with
    | Some (Some rules) => forallb (raising_ok (Z.of_nat (i + n))) rules = true
    | Some None => i + n = 25
    | None => True
    end.
Proof.
  induction table as [ | entry table IH]; intros i n H.
  - destruct n; exact I.
  - simpl in H. apply andb_true_iff in H. destruct H as [H1 H2].
    destruct n as [ | n]; simpl.
    + rewrite Nat.add_0_r. destruct entry; [exact H1 | ].
      apply Nat.eqb_eq in H1. exact H1.
    + replace (i + S n) with (S i + n) by lia. apply IH. exact H2.
Qed.

(** What [compute_next_context] raises, and when. *)
Lemma compute_next_context_raises (t : transition) (prior : Z) (mt : Match)
    (e : exn) :
  compute_next_context t prior mt = Raise e ->
  (e = KeyError /\ is_tag_done t = true
   /\ _TAG_DONE_ELEMENT_TO_PARTIAL_CONTEXT (element_type_of prior) = None)
  \/ (e = TypeError /\ needs_group1 t = true /\ group1 mt = None)
  \/ (e = ContextUpdateFailure (AmbiguousSlash (from (m_start mt) (m_string mt)))
      /\ is_slash t = true
      /\ js_ctx_of prior <> JS_CTX_DIV_OP /\ js_ctx_of prior <> JS_CTX_REGEX).
Proof.
  induction t; cbn [compute_next_context is_tag_done is_slash needs_group1];
    intros H; try discriminate; auto.
  - destruct (_TAG_DONE_ELEMENT_TO_PARTIAL_CONTEXT (element_type_of prior));
      [discriminate | ].
    injection H as <-. left. auto.
  - destruct (group1 mt); [discriminate | ].
    injection H as <-. right. left. auto.
  - destruct (js_ctx_of prior =? JS_CTX_DIV_OP)%Z eqn:D; [discriminate | ].
    destruct (js_ctx_of prior =? JS_CTX_REGEX)%Z eqn:D2; [discriminate | ].
    injection H as <-. right. right.
    apply Z.eqb_neq in D, D2. auto.
Qed.

End ScannerBounds.

Section ScannerExceptions.
Context {ext : Externals}.
Import Re.

Lemma table_length : List.length _TRANSITIONS = Z.to_nat COUNT_OF_STATES.
Proof. reflexivity. Qed.

(** The entry of the table that is [None] is that of STATE_ERROR. *)
Lemma none_entry_is_error (context : Z) :
  nth_error _TRANSITIONS (Z.to_nat (state_of context)) = Some None ->
  is_error_context context = true.
Proof.
  intros N. pose proof (raising_ok_from_nth _ 0 (Z.to_nat (state_of context))
                          raising_table_ok) as H.
  rewrite N in H. simpl in H.
  unfold is_error_context. apply Z.eqb_eq.
  pose proof (state_of_range context). unfold STATE_ERROR. lia.
Qed.

(** X2: on a non-empty text the guard of [_process_next_token] never fires:
    the scanner does not raise its infinite-loop error, whatever the context
    and the collaborators. *)
Theorem infinite_loop_guard_unreachable (text : pystr) (context : Z)
    (for_text : pystr) (c : Z) :
  text <> [] ->
  _process_next_token text context <> Raise (InfLoop for_text c).
Proof.
  intros Ht H.
  destruct (is_error_context context) eqn:He.
  - unfold _process_next_token in H. rewrite He in H. discriminate.
  - destruct (nth_error _TRANSITIONS (Z.to_nat (state_of context)))
      as [[rules | ] | ] eqn:N;
      try (unfold _process_next_token in H; rewrite He, N in H; discriminate).
    rewrite (process_next_token_unguarded _ _ _ Ht He N) in H.
    unfold chosen_step in H.
    destruct (snd (earliest text context rules)) as [[t mt] | ]; [ | discriminate].
    destruct (compute_next_context t context mt) as [next | e] eqn:C;
      [discriminate | ].
    simpl in H. injection H as ->.
    apply compute_next_context_raises in C.
    destruct C as [[C _] | [[C _] | [C _]]]; discriminate.
Qed.

(** X3: the number of characters [_process_next_token] reports as consumed
    never exceeds the length of the text. *)
Theorem process_next_token_within (text : pystr) (context : Z) (n : nat)
    (context' : Z) (replacement : pystr) :
  _process_next_token text context = Ok (n, context', replacement) ->
  n <= List.length text.
Proof.
  unfold _process_next_token, chosen_step.
  destruct (is_error_context context).
  - intros H. injection H as <- <- <-. lia.
  - destruct (nth_error _TRANSITIONS (Z.to_nat (state_of context)))
      as [[rules | ] | ]; try discriminate.
    destruct (snd (earliest text context rules)) as [[t mt] | ] eqn:E.
    + apply chosen_is_candidate in E. destruct E as (_ & E & _).
      apply search_end_le in E.
      destruct (compute_next_context t context mt) as [next | e]; [ | discriminate].
      cbn [bind].
      destruct ((m_end mt =? 0) && (state_of next =? state_of context)%Z);
        [discriminate | ].
      intros H. injection H as <- <- <-. exact E.
    + cbn [bind].
      destruct ((List.length text =? 0) && (state_of STATE_ERROR =? state_of context)%Z);
        [discriminate | ].
      intros H. injection H as <- <- <-. lia.
Qed.

Lemma scanner_raises (text : pystr) (context : Z) (e : exn) :
  text <> [] ->
  _process_next_token text context = Raise e ->
  (e = IndexError /\ (COUNT_OF_STATES <= state_of context)%Z)
  \/ (e = KeyError /\ state_of context = STATE_TAG
      /\ _TAG_DONE_ELEMENT_TO_PARTIAL_CONTEXT (element_type_of context) = None)
  \/ (exists i, e = ContextUpdateFailure (AmbiguousSlash (from i text))
                /\ nth_error text i = Some "/"%char
                /\ state_of context = STATE_JS
                /\ js_ctx_of context <> JS_CTX_DIV_OP
                /\ js_ctx_of context <> JS_CTX_REGEX).
Proof.
  intros Ht H.
  destruct (is_error_context context) eqn:He.
  { unfold _process_next_token in H. rewrite He in H. discriminate. }
  destruct (nth_error _TRANSITIONS (Z.to_nat (state_of context)))
    as [[rules | ] | ] eqn:N.
  - rewrite (process_next_token_unguarded _ _ _ Ht He N) in H.
    unfold chosen_step in H.
    destruct (snd (earliest text context rules)) as [[t mt] | ] eqn:E;
      [ | discriminate].
    apply chosen_is_candidate in E. destruct E as (Hin & Hs & _).
    destruct (compute_next_context t context mt) as [next | e'] eqn:C;
      [discriminate | ].
    simpl in H. injection H as ->.
    pose proof (raising_ok_from_nth _ 0 (Z.to_nat (state_of context))
                  raising_table_ok) as R.
    rewrite N in R. rewrite forallb_forall in R. specialize (R t Hin).
    simpl in R. rewrite Z2Nat.id in R by apply state_of_range.
    unfold raising_ok in R. apply andb_true_iff in R. destruct R as [R1 R2].
    apply compute_next_context_raises in C.
    destruct C as [(-> & T & K) | [(-> & G & G') | (-> & S & J1 & J2)]].
    + right. left. rewrite T in R1. simpl in R1. apply Z.eqb_eq in R1. auto.
    + exfalso.
      destruct (group1_takes_part _ _ _ _ _ N Hin G Hs) as [name Hn]. congruence.
    + right. right. rewrite S in R2. simpl in R2. apply Z.eqb_eq in R2.
      exists (m_start mt). rewrite (search_string _ _ _ Hs).
      repeat split; auto.
      (* the match is that of the slash *)
      assert (Hrules : rules = JS_rules).
      { rewrite R2 in N. change (nth_error _TRANSITIONS (Z.to_nat STATE_JS))
          with (Some (Some JS_rules)) in N. congruence. }
      subst rules.
      assert (Hp : pattern_of t = re (chr "/")).
      { simpl in Hin.
        repeat (destruct Hin as [<- | Hin]; [try discriminate; try reflexivity | ]).
        contradiction. }
      rewrite Hp in Hs. unfold chr in Hs. rewrite search_set in Hs.
      destruct (index_of_first _ text) as [j | ] eqn:F; [ | discriminate].
      injection Hs as <-. simpl.
      apply index_of_first_lt in F. destruct F as (a & Ha & Fa).
      rewrite Ha. f_equal.
      clear - Fa. destruct a as [[] [] [] [] [] [] [] []]; try discriminate.
      reflexivity.
  - apply none_entry_is_error in N. congruence.
  - unfold _process_next_token in H. rewrite He, N in H. injection H as <-.
    left. split; [reflexivity | ].
    apply nth_error_None in N. rewrite table_length in N.
    pose proof (state_of_range context). unfold COUNT_OF_STATES in *. lia.
Qed.

(** X4: what [_process_next_token] raises on a non-empty text: [IndexError]
    for a state without an entry in the table; [KeyError] in state TAG, at the
    end of a tag whose element [_TAG_DONE_ELEMENT_TO_PARTIAL_CONTEXT] does not
    hold; [ContextUpdateFailure] in state JS, at a slash, when the js-ctx is
    neither DIV_OP nor REGEX.  Nothing else. *)
Theorem process_next_token_exceptions (text : pystr) (context : Z) (e : exn) :
  text <> [] ->
  _process_next_token text context = Raise e ->
  (e = IndexError /\ (COUNT_OF_STATES <= state_of context)%Z)
  \/ (e = KeyError /\ state_of context = STATE_TAG
      /\ _TAG_DONE_ELEMENT_TO_PARTIAL_CONTEXT (element_type_of context) = None)
  \/ (exists i, e = ContextUpdateFailure (AmbiguousSlash (from i text))
                /\ nth_error text i = Some "/"%char
                /\ state_of context = STATE_JS
                /\ js_ctx_of context <> JS_CTX_DIV_OP
                /\ js_ctx_of context <> JS_CTX_REGEX).
Proof. exact (scanner_raises text context e). Qed.

End ScannerExceptions.

(** ** What the driver raises and returns *)

Section DriverResults.
Context {ext : Externals}.
Import Re.

Lemma scanner_raises_driver_exn (text : pystr) (context : Z) (e : exn) :
  text <> [] ->
  _process_next_token text context = Raise e ->
  driver_exn e.
Proof.
  intros Ht H. apply scanner_raises in H; [ | exact Ht]. unfold driver_exn.
  destruct H as [[-> _] | [[-> _] | (i & -> & _)]]; eauto.
Qed.

Lemma attr_value_loop_raises (escaper : pystr -> pystr) :
  forall (fuel : nat) (tail : pystr) (context : Z) (normalized : pystr) (e : exn),
    attr_value_loop fuel escaper tail context normalized = Some (Raise e) ->
    driver_exn e.
Proof.
  induction fuel as [ | fuel IH]; intros tail context normalized e H;
    destruct tail as [ | a tail]; simpl in H; try discriminate.
  destruct (_process_next_token (a :: tail) context) as [[[n c'] r] | x] eqn:T.
  - eapply IH. exact H.
  - injection H as ->. eapply scanner_raises_driver_exn; [ | exact T]. discriminate.
Qed.

Lemma driver_step_raises (raw_text : pystr) (context : Z) (normalized : pystr)
    (e : exn) :
  raw_text <> [] ->
  driver_step raw_text context normalized = Some (Raise e) ->
  driver_exn e.
Proof.
  intros Hr. unfold driver_step.
  destruct (_end_of_attr_value raw_text (delim_type_of context)) as [v | x] eqn:E.
  - destruct (proj1 (end_of_attr_value_range _ _) _ E) as [[-> _] | [Hv _]].
    + simpl.
      destruct (_process_next_token raw_text context) as [[[n c] r] | x] eqn:T;
        [discriminate | ].
      intros H. injection H as ->. eapply scanner_raises_driver_exn; eassumption.
    + destruct (v =? -1)%Z eqn:V; [apply Z.eqb_eq in V; lia | ].
      unfold attr_value_branch, decode_attr_value.
      match goal with
      | |- match ?scrut with _ => _ end = _ -> _ => destruct scrut
      end.
      { intros H. injection H as <-. right. right. eauto. }
      destruct (Z.to_nat v <? List.length raw_text) eqn:L.
      * destruct (DELIM_TEXT (delim_type_of context)).
        -- match goal with
           | |- match ?scrut with _ => _ end = _ -> _ =>
               destruct scrut as [[[c n] | x] | ] eqn:A; try discriminate
           end.
           intros H. injection H as <-. eapply attr_value_loop_raises. exact A.
        -- intros H. injection H as <-. right. left. reflexivity.
      * match goal with
        | |- match ?scrut with _ => _ end = _ -> _ =>
            destruct scrut as [[[c n] | x] | ] eqn:A; try discriminate
        end.
        -- apply Nat.ltb_ge in L.
           assert (Z.to_nat v = List.length raw_text) as -> by lia.
           rewrite Nat.eqb_refl. discriminate.
        -- intros H. injection H as <-. eapply attr_value_loop_raises. exact A.
  - intros H. injection H as <-.
    destruct (proj2 (end_of_attr_value_range _ _) _ E) as (-> & _).
    right. left. reflexivity.
Qed.

Lemma process_raw_text_loop_raises :
  forall (fuel : nat) (raw_text : pystr) (context : Z) (normalized : pystr)
         (e : exn),
    process_raw_text_loop fuel raw_text context normalized = Some (Raise e) ->
    driver_exn e.
Proof.
  induction fuel as [ | fuel IH]; intros raw_text context normalized e H;
    destruct raw_text as [ | a raw_text]; simpl in H; try discriminate.
  destruct (driver_step (a :: raw_text) context normalized)
    as [[[[raw' c'] n'] | x] | ] eqn:D; try discriminate.
  - destruct (is_error_context c'); [discriminate | ]. eapply IH. exact H.
  - injection H as ->. eapply driver_step_raises; [ | exact D]. discriminate.
Qed.

(** X5: [process_raw_text] raises nothing but [ContextUpdateFailure],
    [KeyError] and [IndexError]: its assertion of an illegal state and the
    infinite-loop error of the scanner are never raised. *)
Theorem process_raw_text_exceptions (raw_text : pystr) (context : Z) (e : exn) :
  process_raw_text raw_text context = Some (Raise e) ->
  e = IndexError \/ e = KeyError \/ exists msg, e = ContextUpdateFailure msg.
Proof. apply process_raw_text_loop_raises. Qed.

End DriverResults.

Section ResultShape.
Context {ext : Externals}.
Import Re.

(** A turn of the driver leaves a suffix of the text. *)
Lemma driver_step_suffix (raw_text : pystr) (context : Z) (normalized : pystr)
    (raw_text' : pystr) (context' : Z) (normalized' : pystr) :
  driver_step raw_text context normalized
  = Some (Ok (raw_text', context', normalized')) ->
  exists k, raw_text' = from k raw_text.
Proof.
  unfold driver_step.
  destruct (_end_of_attr_value raw_text (delim_type_of context)) as [v | x];
    [ | discriminate].
  destruct (v =? -1)%Z.
  - destruct (_process_next_token raw_text context) as [[[n c] r] | x];
      [ | discriminate].
    intros H. injection H as <- <- <-. eauto.
  - unfold attr_value_branch, decode_attr_value.
    match goal with
    | |- match ?scrut with _ => _ end = _ -> _ => destruct scrut; [discriminate | ]
    end.
    match goal with
    | |- match ?scrut with _ => _ end = _ -> _ =>
        destruct scrut as [attr_end | x]; [ | discriminate]
    end.
    match goal with
    | |- match ?scrut with _ => _ end = _ -> _ =>
        destruct scrut as [[[c n] | x] | ]; try discriminate
    end.
    destruct attr_end as [attr_end | ].
    + intros H. injection H as <- <- <-. eauto.
    + match goal with
      | |- (if ?scrut then _ else _) = _ -> _ => destruct scrut; [discriminate | ]
      end.
      intros H. injection H as <- <- <-.
      exists (List.length raw_text). unfold from. rewrite skipn_all. reflexivity.
Qed.

Lemma process_raw_text_loop_shape :
  forall (fuel : nat) (raw_text : pystr) (context : Z) (normalized : pystr)
         (c : Z) (n : option pystr) (pc : option Z) (pr : option pystr),
    raw_text <> [] \/ is_error_context context = false ->
    process_raw_text_loop fuel raw_text context normalized
    = Some (Ok (c, n, pc, pr)) ->
    (is_error_context c = false
     /\ (exists t, n = Some t) /\ pc = None /\ pr = None)
    \/ (is_error_context c = true /\ n = None
        /\ exists prior suffix k,
            pc = Some prior /\ pr = Some suffix
            /\ suffix <> [] /\ suffix = from k raw_text
            /\ (is_error_context prior = false
                \/ (prior = context /\ suffix = raw_text))).
Proof.
  induction fuel as [ | fuel IH]; intros raw_text context normalized c n pc pr Hi H;
    destruct raw_text as [ | a raw_text]; simpl in H; try discriminate.
  - injection H as <- <- <- <-. left.
    destruct Hi as [Hi | Hi]; [congruence | ]. eauto.
  - injection H as <- <- <- <-. left.
    destruct Hi as [Hi | Hi]; [congruence | ]. eauto.
  - destruct (driver_step (a :: raw_text) context normalized)
      as [[[[raw' c'] n'] | x] | ] eqn:D; try discriminate.
    destruct (is_error_context c') eqn:E.
    + injection H as <- <- <- <-. right. split; [exact E | ].
      split; [reflexivity | ].
      exists context, (a :: raw_text), 0.
      repeat split; auto. discriminate.
    + apply IH in H; [ | right; exact E].
      destruct H as [H | (Hc & Hn & prior & suffix & k & Hpc & Hpr & Hs & Hk & Hp)];
        [left; exact H | ].
      right. split; [exact Hc | ]. split; [exact Hn | ].
      apply driver_step_suffix in D. destruct D as [k0 ->].
      exists prior, suffix, (k + k0).
      split; [exact Hpc | ]. split; [exact Hpr | ]. split; [exact Hs | ].
      split.
      * rewrite Hk. unfold from. rewrite skipn_skipn. reflexivity.
      * left. destruct Hp as [Hp | [-> _]]; [exact Hp | exact E].
Qed.

(** X6: what [process_raw_text] returns on a non-empty text is of one of two
    shapes.  Either the context is no error context, the normalized text is
    there and the two error fields are [None]; or the context is an error
    context, the normalized text is [None], and the error fields hold the
    context before the failing turn and the text not yet consumed then, a
    non-empty suffix of the input; that context is no error context unless
    the input context was one already. *)
Theorem process_raw_text_result_shape (raw_text : pystr) (context : Z)
    (c : Z) (n : option pystr) (pc : option Z) (pr : option pystr) :
  raw_text <> [] ->
  process_raw_text raw_text context = Some (Ok (c, n, pc, pr)) ->
  (is_error_context c = false
   /\ (exists t, n = Some t) /\ pc = None /\ pr = None)
  \/ (is_error_context c = true /\ n = None
      /\ exists prior suffix k,
          pc = Some prior /\ pr = Some suffix
          /\ suffix <> [] /\ suffix = from k raw_text
          /\ (is_error_context prior = false
              \/ (prior = context /\ suffix = raw_text))).
Proof.
  intros Hr H. eapply process_raw_text_loop_shape; [left; exact Hr | exact H].
Qed.

End ResultShape.

(** ** The result of [context_union] *)

Section UnionResult.
Context {ext : Externals}.
Import Re.
#[local] Open Scope Z_scope.

Lemma context_union_rec_result (depth : nat) :
  forall a b r,
    context_union_rec depth a b = Ok r ->
    r = STATE_ERROR
    \/ exists n,
        let a' := Nat.iter n force_epsilon_transition a in
        let b' := Nat.iter n force_epsilon_transition b in
        (a' = b' /\ r = a')
        \/ (Z.land a' (Z.lnot JS_CTX_ALL) = Z.land b' (Z.lnot JS_CTX_ALL)
            /\ r = Z.lor (Z.land a' (Z.lnot JS_CTX_ALL)) JS_CTX_UNKNOWN)
        \/ (Z.land a' (Z.lnot URL_PART_ALL) = Z.land b' (Z.lnot URL_PART_ALL)
            /\ r = Z.lor (Z.land a' (Z.lnot URL_PART_ALL)) URL_PART_UNKNOWN).
Proof.
  induction depth as [ | depth IH]; intros a b r;
    rewrite context_union_rec_eq; unfold js_ctx_of, url_part_of;
    (destruct (a =? b) eqn:E1;
     [intros H; injection H as <-; apply Z.eqb_eq in E1;
      right; exists 0%nat; left; auto | ]);
    (destruct (a =? Z.lor (Z.land b (Z.lnot JS_CTX_ALL)) (Z.land a JS_CTX_ALL)) eqn:E2;
     [intros H; injection H as <-; apply Z.eqb_eq, differ_only_iff in E2;
      right; exists 0%nat; right; left; auto | ]);
    (destruct (a =? Z.lor (Z.land b (Z.lnot URL_PART_ALL)) (Z.land a URL_PART_ALL)) eqn:E3;
     [intros H; injection H as <-; apply Z.eqb_eq, differ_only_iff in E3;
      right; exists 0%nat; right; right; auto | ]);
    (destruct (negb (a =? force_epsilon_transition a)
               || negb (b =? force_epsilon_transition b));
     [ | intros H; injection H as <-; left; reflexivity]).
  - discriminate.
  - intros H. apply IH in H. destruct H as [H | [n H]]; [left; exact H | ].
    right. exists (S n). rewrite !Nat.iter_succ_r. exact H.
Qed.

(** X8: whatever [force_epsilon_transition] does, the result of
    [context_union] is STATE_ERROR, or it is consistent with both contexts:
    after the same number of calls of [force_epsilon_transition] on both,
    they are equal and the result is that context, or they differ in the
    js-ctx only, or in the url-part only, and the result is the context with
    that field UNKNOWN. *)
Theorem context_union_result (a b r : Z) :
  context_union a b = Ok r ->
  r = STATE_ERROR
  \/ exists n,
      let a' := Nat.iter n force_epsilon_transition a in
      let b' := Nat.iter n force_epsilon_transition b in
      (a' = b' /\ r = a')
      \/ (Z.land a' (Z.lnot JS_CTX_ALL) = Z.land b' (Z.lnot JS_CTX_ALL)
          /\ r = Z.lor (Z.land a' (Z.lnot JS_CTX_ALL)) JS_CTX_UNKNOWN)
      \/ (Z.land a' (Z.lnot URL_PART_ALL) = Z.land b' (Z.lnot URL_PART_ALL)
          /\ r = Z.lor (Z.land a' (Z.lnot URL_PART_ALL)) URL_PART_UNKNOWN).
Proof. apply context_union_rec_result. Qed.

End UnionResult.

(** ** Texts the scanner takes whole *)

Section WholeTexts.
Context {ext : Externals}.
Import Re.

Lemma pos_cursor_after (run rest : pystr) :
  forall i pv, pos (cursor_after i pv run rest) = i + List.length run.
Proof.
  induction run as [ | a t IH]; intros i pv; simpl; [lia | ].
  rewrite IH. lia.
Qed.

(** A greedy repetition of a set runs over the characters of the set, up to
    the end of the subject or to a character outside the set. *)
Lemma star_loop_run {R : Type} (icase : bool) (cs : charset)
    (k : cursor -> group -> option R) (g : group) (x : R) (run rest : pystr) :
  forall (n i : nat) (pv : option ascii),
    Forall (fun a => cs_mem icase cs a = true) run ->
    match rest with [] => True | b :: _ => cs_mem icase cs b = false end ->
    List.length run <= n ->
    k (cursor_after i pv run rest) g = Some x ->
    star_loop (fun c' g' k' => m icase (Chars cs) c' g' k') k n
              {| pos := i; prev := pv; rest := run ++ rest |} g
    = Some x.
Proof.
  set (body := fun c' g' (k' : cursor -> group -> option R) =>
                 m icase (Chars cs) c' g' k').
  induction run as [ | a t IH]; intros n i pv Hall Hrest Hn Hk.
  - destruct n; [exact Hk | ].
    cbn [star_loop app]. unfold body at 1.
    destruct rest as [ | b rest']; cbn [m advance Re.rest]; [exact Hk | ].
    rewrite Hrest. exact Hk.
  - destruct n as [ | n]; [simpl in Hn; lia | ].
    inversion Hall as [ | ? ? Ha Ht]; subst.
    cbn [star_loop app]. unfold body at 1.
    cbn [m advance Re.rest pos]. rewrite Ha.
    replace (i <? S i) with true by (symmetry; apply Nat.ltb_lt; lia).
    rewrite (IH n (S i) (Some a) Ht Hrest); [reflexivity | simpl in Hn; lia | exact Hk].
Qed.

Lemma not_lt_in_set (a : ascii) :
  a <> "<"%char -> cs_mem false {| cs_neg := true; cs_ranges := [one "<"] |} a = true.
Proof.
  intros H. destruct a as [[] [] [] [] [] [] [] []]; try reflexivity.
  congruence.
Qed.

(** The first rule of STATE_TEXT matches a text up to its first [<]. *)
Lemma search_text_run (text rest : pystr) :
  text <> [] ->
  ~ In "<"%char text ->
  match rest with [] => True | b :: _ => b = "<"%char end ->
  search (re (Cat Bos (Plus (nset [one "<"])))) (text ++ rest)
  = Some {| m_string := text ++ rest; m_start := 0; m_end := List.length text;
            m_group1 := None |}.
Proof.
  intros Ht Hin Hrest. destruct text as [ | a t]; [congruence | ].
  assert (Ha : a <> "<"%char) by (intros ->; apply Hin; left; reflexivity).
  assert (Hall : Forall (fun b => cs_mem false {| cs_neg := true;
                                                   cs_ranges := [one "<"] |} b = true) t).
  { apply Forall_forall. intros b Hb. apply not_lt_in_set.
    intros ->. apply Hin. right. exact Hb. }
  assert (Hr : match rest with
               | [] => True
               | b :: _ => cs_mem false {| cs_neg := true;
                                           cs_ranges := [one "<"] |} b = false
               end).
  { destruct rest as [ | b rest']; [exact I | ]. subst b. reflexivity. }
  unfold search.
  cbn [app search_at re p_icase p_re Plus nset m pos advance Re.rest Nat.eqb].
  rewrite (not_lt_in_set a Ha).
  pose proof (star_loop_run false {| cs_neg := true; cs_ranges := [one "<"] |}
                (fun c g => Some (pos c, g)) None (1 + List.length t, None) t rest
                (S (List.length (t ++ rest))) 1 (Some a) Hall Hr) as H.
  cbn [m] in H. rewrite H.
  - reflexivity.
  - rewrite length_app. lia.
  - rewrite pos_cursor_after. reflexivity.
Qed.

(** Once a match at index 0 is held, no later rule replaces it. *)
Lemma scan_from_zero (text : pystr) (context : Z) (rules : list transition)
    (sel : option (transition * Match)) :
  fold_left (scan_step text context) rules (0, sel) = (0, sel).
Proof.
  induction rules as [ | t rules IH]; [reflexivity | ].
  simpl. unfold scan_step at 2.
  destruct (search (pattern_of t) text); exact IH.
Qed.

(** In state TEXT the scanner takes a text up to its first [<]. *)
Lemma text_run_step (text rest : pystr) (context : Z) :
  state_of context = STATE_TEXT ->
  text <> [] ->
  ~ In "<"%char text ->
  match rest with [] => True | b :: _ => b = "<"%char end ->
  _process_next_token (text ++ rest) context
  = Ok (List.length text, context, text).
Proof.
  intros St Ht Hin Hrest.
  assert (Hn : text ++ rest <> []) by (destruct text; [congruence | discriminate]).
  apply (scan_in_state _ _ STATE_TEXT TEXT_rules);
    [exact St | reflexivity | reflexivity | exact Hn | ].
  unfold chosen_step, earliest.
  change TEXT_rules
    with (_TransitionToSelf (re (Cat Bos (Plus (nset [one "<"])))) :: tl TEXT_rules).
  change (fold_left ?f (?x :: ?l) ?a) with (fold_left f l (f a x)).
  assert (H1 : scan_step (text ++ rest) context
                 (S (List.length (text ++ rest)), None)
                 (_TransitionToSelf (re (Cat Bos (Plus (nset [one "<"])))))
               = (0, Some (_TransitionToSelf (re (Cat Bos (Plus (nset [one "<"])))),
                           {| m_string := text ++ rest; m_start := 0;
                              m_end := List.length text; m_group1 := None |}))).
  { unfold scan_step. cbn [pattern_of].
    rewrite (search_text_run text rest Ht Hin Hrest). reflexivity. }
  rewrite H1, scan_from_zero.
  cbn [snd compute_next_context bind raw_text m_end m_string].
  unfold upto. rewrite firstn_app, firstn_all, Nat.sub_diag. simpl.
  rewrite app_nil_r. reflexivity.
Qed.

(** X9: text without [<] goes through unchanged in state TEXT.  From a
    context in state TEXT outside an attribute value, a non-empty text
    before a [<] is copied to the normalized text and the driver goes on at
    the [<] in the same context; on a text with no [<] at all,
    [process_raw_text] returns the same context and the text itself. *)
Theorem text_without_markup (text : pystr) (context : Z) :
  state_of context = STATE_TEXT ->
  delim_type_of context = DELIM_NONE ->
  ~ In "<"%char text ->
  (forall fuel rest normalized,
     text <> [] ->
     process_raw_text_loop (S fuel) (text ++ "<"%char :: rest) context normalized
     = process_raw_text_loop fuel ("<"%char :: rest) context (normalized ++ text))
  /\ process_raw_text text context = Some (Ok (context, Some text, None, None)).
Proof.
  intros St D Hin.
  assert (E : is_error_context context = false).
  { unfold is_error_context. rewrite St. reflexivity. }
  split.
  - intros fuel rest normalized Ht.
    assert (Hn : text ++ "<"%char :: rest <> [])
      by (destruct text; [congruence | discriminate]).
    rewrite (turn_outside _ _ _ _ _ _ _ Hn D
               (text_run_step text ("<"%char :: rest) context St Ht Hin eq_refl) E).
    rewrite D. unfold from.
    rewrite skipn_app, skipn_all, Nat.sub_diag.
    change (DELIM_NONE =? DELIM_SPACE_OR_TAG_END)%Z with false.
    cbv iota. simpl. rewrite app_nil_r. reflexivity.
  - destruct text as [ | a t] eqn:Et; [reflexivity | ].
    rewrite <- Et in *. assert (Ht : text <> []) by (rewrite Et; discriminate).
    pose proof (text_run_step text [] context St Ht Hin I) as T.
    rewrite app_nil_r in T.
    unfold process_raw_text, driver_fuel.
    replace (5 * List.length text + 5) with (S (5 * List.length text + 4)) by lia.
    rewrite (turn_outside _ _ _ _ _ _ _ Ht D T E).
    rewrite D. unfold from. rewrite skipn_all.
    change (DELIM_NONE =? DELIM_SPACE_OR_TAG_END)%Z with false.
    cbv iota. rewrite app_nil_r.
    destruct (5 * List.length text + 4); reflexivity.
Qed.

End WholeTexts.

(** ** Quoted attribute values *)

Section QuotedValues.
Context {ext : Externals}.
Import Re.

Lemma search_at_eos (s : pystr) :
  forall i pv,
    search_at (re Eos) i pv s
    = Some (i + List.length s, i + List.length s, None).
Proof.
  induction s as [ | a t IH]; intros i pv.
  - simpl. rewrite Nat.add_0_r. reflexivity.
  - cbn [search_at re p_icase p_re m rest]. rewrite IH.
    cbn [List.length]. rewrite Nat.add_succ_r. reflexivity.
Qed.

Lemma search_eos (s : pystr) :
  search (re Eos) s
  = Some {| m_string := s; m_start := List.length s; m_end := List.length s;
            m_group1 := None |}.
Proof. unfold search. rewrite search_at_eos. reflexivity. Qed.

(** In a plain attribute value the scanner takes the text whole. *)
Lemma plain_value_step (text : pystr) (context : Z) :
  state_of context = STATE_ATTR ->
  text <> [] ->
  _process_next_token text context = Ok (List.length text, context, text).
Proof.
  intros St Ht.
  apply (scan_in_state _ _ STATE_ATTR ATTR_rules);
    [exact St | reflexivity | reflexivity | exact Ht | ].
  unfold chosen_step, earliest, ATTR_rules, _TRANSITION_TO_SELF.
  cbn [fold_left]. unfold scan_step. cbn [pattern_of].
  rewrite search_eos. cbn [m_start fst is_applicable_to andb].
  replace (List.length text <? S (List.length text)) with true
    by (symmetry; apply Nat.ltb_lt; lia).
  cbn [andb snd compute_next_context bind raw_text m_end m_string].
  unfold upto. rewrite firstn_all. reflexivity.
Qed.

(** The inner loop when the scanner takes the decoded value whole. *)
Lemma attr_value_loop_whole (escaper : pystr -> pystr) (tail : pystr)
    (context : Z) (normalized : pystr) :
  (tail <> [] ->
   _process_next_token tail context = Ok (List.length tail, context, tail)) ->
  attr_value_loop (attr_value_fuel tail) escaper tail context normalized
  = Some (Ok (context, normalized ++ reencoded escaper tail)).
Proof.
  intros H. destruct tail as [ | a t] eqn:E.
  - simpl. rewrite app_nil_r. reflexivity.
  - rewrite <- E in *. assert (Ht : tail <> []) by (rewrite E; discriminate).
    unfold attr_value_fuel.
    replace (3 * List.length tail + 3) with (S (3 * List.length tail + 2)) by lia.
    rewrite E at 2. cbn [attr_value_loop]. rewrite <- E.
    rewrite (H Ht). unfold from. rewrite skipn_all.
    unfold reencoded. rewrite E.
    destruct (3 * List.length (a :: t) + 2); reflexivity.
Qed.

Lemma first_quote (q : ascii) (value rest : pystr) :
  ~ In q value ->
  first_or_len (Ascii.eqb q) (value ++ q :: rest) = Z.of_nat (List.length value).
Proof.
  intros Hin. unfold first_or_len.
  assert (E : index_of_first (Ascii.eqb q) (value ++ q :: rest)
              = Some (List.length value)).
  { induction value as [ | a t IH].
    - simpl. rewrite Ascii.eqb_refl. reflexivity.
    - simpl. destruct (Ascii.eqb q a) eqn:Q.
      + apply Ascii.eqb_eq in Q. exfalso. apply Hin. left. congruence.
      + rewrite IH; [reflexivity | ]. intros H. apply Hin. right. exact H. }
  rewrite E. reflexivity.
Qed.

Lemma no_quote (q : ascii) (value : pystr) :
  ~ In q value ->
  first_or_len (Ascii.eqb q) value = Z.of_nat (List.length value).
Proof.
  intros Hin. unfold first_or_len.
  assert (E : index_of_first (Ascii.eqb q) value = None).
  { induction value as [ | a t IH]; [reflexivity | ].
    simpl. destruct (Ascii.eqb q a) eqn:Q.
    - apply Ascii.eqb_eq in Q. exfalso. apply Hin. left. congruence.
    - rewrite IH; [reflexivity | ]. intros H. apply Hin. right. exact H. }
  rewrite E. reflexivity.
Qed.

Lemma quote_delimiter (delim : Z) (q : ascii) :
  DELIM_TEXT delim = Some [q] ->
  (delim =? DELIM_NONE)%Z = false
  /\ (delim =? DELIM_SPACE_OR_TAG_END)%Z = false
  /\ (if (delim =? DELIM_SINGLE_QUOTE)%Z then [squote] else [dquote]) = [q].
Proof.
  unfold DELIM_TEXT. intros H.
  destruct (delim =? DELIM_DOUBLE_QUOTE)%Z eqn:D.
  - apply Z.eqb_eq in D. subst delim. injection H as <-.
    repeat split; reflexivity.
  - destruct (delim =? DELIM_SINGLE_QUOTE)%Z eqn:Sq.
    + apply Z.eqb_eq in Sq. subst delim. injection H as <-.
      repeat split; reflexivity.
    + destruct (delim =? DELIM_SPACE_OR_TAG_END)%Z; discriminate.
Qed.

(** A turn of the driver on a quoted value that the scanner takes whole,
    with the closing quote in the text. *)
Lemma driver_step_closed (value rest normalized : pystr) (context : Z)
    (q : ascii) :
  DELIM_TEXT (delim_type_of context) = Some [q] ->
  ~ In q value ->
  (forall t, t <> [] ->
             _process_next_token t context = Ok (List.length t, context, t)) ->
  driver_step (value ++ q :: rest) context normalized
  = Some (Ok (rest, Z.lor STATE_TAG (element_type_of context),
              normalized
              ++ reencoded (if (delim_type_of context =? DELIM_SINGLE_QUOTE)%Z
                            then escape_html_sq_only else escape_html_dq_only)
                           (unescape_html value)
              ++ [q])).
Proof.
  intros D Hin H.
  destruct (quote_delimiter _ _ D) as (D1 & D2 & D3).
  unfold driver_step.
  rewrite (end_of_attr_value_quoted _ _ q D1 D2 D).
  rewrite (first_quote q value rest Hin).
  replace (Z.of_nat (List.length value) =? -1)%Z with false
    by (symmetry; apply Z.eqb_neq; lia).
  rewrite Nat2Z.id. unfold attr_value_branch. rewrite D2.
  unfold decode_attr_value.
  replace (List.length value <? List.length (value ++ q :: rest)) with true
    by (symmetry; apply Nat.ltb_lt; rewrite length_app; simpl; lia).
  rewrite D. cbv iota.
  assert (U : upto (List.length value) (value ++ q :: rest) = value).
  { unfold upto. rewrite firstn_app, firstn_all, Nat.sub_diag. simpl.
    apply app_nil_r. }
  rewrite U.
  rewrite (attr_value_loop_whole _ _ _ _ (H (unescape_html value))).
  rewrite D3.
  assert (F : from (List.length value + List.length [q]) (value ++ q :: rest) = rest).
  { unfold from. simpl. rewrite Nat.add_1_r.
    change (q :: rest) with ([q] ++ rest). rewrite app_assoc.
    replace (S (List.length value)) with (List.length (value ++ [q]))
      by (rewrite length_app; simpl; lia).
    rewrite skipn_app, skipn_all, Nat.sub_diag. reflexivity. }
  rewrite F, <- app_assoc. reflexivity.
Qed.

(** A turn of the driver on a quoted value that the scanner takes whole,
    when the closing quote is not in the text. *)
Lemma driver_step_open (value normalized : pystr) (context : Z) (q : ascii) :
  DELIM_TEXT (delim_type_of context) = Some [q] ->
  ~ In q value ->
  (forall t, t <> [] ->
             _process_next_token t context = Ok (List.length t, context, t)) ->
  driver_step value context normalized
  = Some (Ok ([], context,
              normalized
              ++ reencoded (if (delim_type_of context =? DELIM_SINGLE_QUOTE)%Z
                            then escape_html_sq_only else escape_html_dq_only)
                           (unescape_html value))).
Proof.
  intros D Hin H.
  destruct (quote_delimiter _ _ D) as (D1 & D2 & D3).
  unfold driver_step.
  rewrite (end_of_attr_value_quoted _ _ q D1 D2 D).
  rewrite (no_quote q value Hin).
  replace (Z.of_nat (List.length value) =? -1)%Z with false
    by (symmetry; apply Z.eqb_neq; lia).
  rewrite Nat2Z.id. unfold attr_value_branch. rewrite D2.
  unfold decode_attr_value.
  rewrite Nat.ltb_irrefl.
  assert (U : upto (List.length value) value = value).
  { unfold upto. apply firstn_all. }
  rewrite U.
  rewrite (attr_value_loop_whole _ _ _ _ (H (unescape_html value))).
  rewrite Nat.eqb_refl. reflexivity.
Qed.

Lemma tag_context_not_error (context : Z) :
  is_error_context (Z.lor STATE_TAG (element_type_of context)) = false.
Proof.
  unfold is_error_context.
  replace (state_of (Z.lor STATE_TAG (element_type_of context))) with STATE_TAG
    by (symmetry; ctx_field).
  reflexivity.
Qed.

(** X10: a plain attribute value in quotes is decoded and encoded again.  In
    state ATTR with a quote delimiter, a value up to its closing quote is
    replaced by the escaper's output for the decoded value (nothing when the
    decoded value is empty) and the quote, and the driver goes on after the
    quote in the tag context of the same element; a non-empty value without
    closing quote ends the text in the same context. *)
Theorem plain_quoted_value (value : pystr) (context : Z) (q : ascii) :
  state_of context = STATE_ATTR ->
  DELIM_TEXT (delim_type_of context) = Some [q] ->
  ~ In q value ->
  let escaper := if (delim_type_of context =? DELIM_SINGLE_QUOTE)%Z
                 then escape_html_sq_only else escape_html_dq_only in
  (forall fuel rest normalized,
     process_raw_text_loop (S fuel) (value ++ q :: rest) context normalized
     = process_raw_text_loop fuel rest
         (Z.lor STATE_TAG (element_type_of context))
         (normalized ++ reencoded escaper (unescape_html value) ++ [q]))
  /\ (value <> [] ->
      process_raw_text value context
      = Some (Ok (context, Some (reencoded escaper (unescape_html value)),
                  None, None))).
Proof.
  intros St D Hin escaper.
  assert (H : forall t, t <> [] ->
                _process_next_token t context = Ok (List.length t, context, t)).
  { intros t Ht. exact (plain_value_step t context St Ht). }
  assert (E : is_error_context context = false).
  { unfold is_error_context. rewrite St. reflexivity. }
  split.
  - intros fuel rest normalized.
    rewrite process_raw_text_loop_turn by (destruct value; discriminate).
    rewrite (driver_step_closed value rest normalized context q D Hin H).
    rewrite tag_context_not_error. reflexivity.
  - intros Hv.
    unfold process_raw_text, driver_fuel.
    replace (5 * List.length value + 5) with (S (5 * List.length value + 4)) by lia.
    rewrite process_raw_text_loop_turn by exact Hv.
    rewrite (driver_step_open value [] context q D Hin H), E.
    destruct (5 * List.length value + 4); reflexivity.
Qed.

(** X11: an error context does not survive the closing quote of an attribute
    value.  When the context is already the error context with a quote
    delimiter, the value up to the closing quote is copied through the
    escaper and the driver goes on after the quote in a tag context, with no
    error reported for this turn. *)
Theorem error_context_lost_at_quote (value : pystr) (context : Z) (q : ascii)
    (fuel : nat) (rest normalized : pystr) :
  is_error_context context = true ->
  DELIM_TEXT (delim_type_of context) = Some [q] ->
  ~ In q value ->
  process_raw_text_loop (S fuel) (value ++ q :: rest) context normalized
  = process_raw_text_loop fuel rest
      (Z.lor STATE_TAG (element_type_of context))
      (normalized
       ++ reencoded (if (delim_type_of context =? DELIM_SINGLE_QUOTE)%Z
                     then escape_html_sq_only else escape_html_dq_only)
                    (unescape_html value)
       ++ [q]).
Proof.
  intros E D Hin.
  assert (H : forall t, t <> [] ->
                _process_next_token t context = Ok (List.length t, context, t)).
  { intros t _. unfold _process_next_token. rewrite E. reflexivity. }
  rewrite process_raw_text_loop_turn by (destruct value; discriminate).
  rewrite (driver_step_closed value rest normalized context q D Hin H).
  rewrite tag_context_not_error. reflexivity.
Qed.

End QuotedValues.

(** ** Inside an attribute value *)

Section InsideValues.
Context {ext : Externals}.
Import Re.
#[local] Open Scope Z_scope.

Lemma value_table_ok : forallb value_rules_ok value_states = true.
Proof. vm_compute. reflexivity. Qed.

Lemma value_state_cases (state : Z) :
  is_value_state state = true -> In state value_states.
Proof.
  unfold is_value_state. rewrite existsb_exists.
  intros (x & Hin & E). apply Z.eqb_eq in E. subst x. exact Hin.
Qed.

Lemma value_rules (context : Z) (rules : list transition) (t : transition) :
  is_value_state (state_of context) = true ->
  nth_error _TRANSITIONS (Z.to_nat (state_of context)) = Some (Some rules) ->
  In t rules ->
  keeps_value t = true.
Proof.
  intros V N Hin.
  pose proof value_table_ok as H. rewrite forallb_forall in H.
  specialize (H _ (value_state_cases _ V)).
  unfold value_rules_ok in H. rewrite N in H.
  rewrite forallb_forall in H. exact (H t Hin).
Qed.

Lemma value_state_bits (state : Z) :
  is_value_state state = true -> Z.land state STATE_ALL = state.
Proof.
  intros H. apply value_state_cases in H. simpl in H.
  repeat (destruct H as [H | H]; [subst state; reflexivity | ]).
  contradiction.
Qed.

(** A field that the mask [keep] keeps and that is apart from the state bits
    is not changed by a change of state. *)
Lemma field_kept (prior keep state mask : Z) :
  Z.land keep mask = mask ->
  Z.land STATE_ALL mask = 0 ->
  Z.land state STATE_ALL = state ->
  Z.land (Z.lor (Z.land prior keep) state) mask = Z.land prior mask.
Proof.
  intros H1 H2 H3.
  rewrite Z.land_lor_distr_l, <- Z.land_assoc, H1.
  rewrite <- H3, <- Z.land_assoc, H2, Z.land_0_r, Z.lor_0_r. reflexivity.
Qed.

Lemma state_set (prior keep state : Z) :
  Z.land keep STATE_ALL = 0 ->
  Z.land state STATE_ALL = state ->
  state_of (Z.lor (Z.land prior keep) state) = state.
Proof.
  intros H1 H2. unfold state_of.
  rewrite Z.land_lor_distr_l, <- Z.land_assoc, H1, Z.land_0_r, Z.lor_0_l.
  exact H2.
Qed.

Lemma same_value_to_state (prior state : Z) :
  is_value_state state = true ->
  same_value prior (Z.lor (Z.land prior (Z.lnot (Z.lor URL_PART_ALL STATE_ALL))) state).
Proof.
  intros H. pose proof (value_state_bits state H) as B. unfold same_value.
  rewrite (state_set prior (Z.lnot (Z.lor URL_PART_ALL STATE_ALL)) state eq_refl B).
  unfold element_type_of, attr_type_of, delim_type_of.
  repeat split; [exact H | | | ]; apply field_kept; (reflexivity || exact B).
Qed.

Lemma same_value_to_js_string (prior state : Z) :
  is_value_state state = true ->
  same_value prior
    (Z.lor (Z.land prior (Z.lor (Z.lor ELEMENT_ALL ATTR_ALL) DELIM_ALL)) state).
Proof.
  intros H. pose proof (value_state_bits state H) as B. unfold same_value.
  rewrite (state_set prior (Z.lor (Z.lor ELEMENT_ALL ATTR_ALL) DELIM_ALL) state eq_refl B).
  unfold element_type_of, attr_type_of, delim_type_of.
  repeat split; [exact H | | | ]; apply field_kept; (reflexivity || exact B).
Qed.

Lemma same_value_js (prior state js_ctx : Z) :
  In (state, js_ctx) [(STATE_JS, JS_CTX_REGEX); (STATE_JSREGEXP, 0);
                      (STATE_JS, JS_CTX_DIV_OP)] ->
  same_value prior
    (Z.lor (Z.lor (Z.land prior (Z.lnot (Z.lor STATE_ALL JS_CTX_ALL))) state) js_ctx).
Proof.
  intros H. unfold same_value. simpl in H.
  repeat (destruct H as [H | H];
          [injection H as <- <-; repeat split; ctx_field | ]).
  contradiction.
Qed.

Lemma same_value_url_part (prior url_part : Z) :
  is_value_state (state_of prior) = true ->
  In url_part [url_part_of prior; URL_PART_PRE_QUERY; URL_PART_QUERY_OR_FRAG] ->
  same_value prior (Z.lor (Z.land prior (Z.lnot URL_PART_ALL)) url_part).
Proof.
  intros V H. unfold same_value.
  assert (E : state_of (Z.lor (Z.land prior (Z.lnot URL_PART_ALL)) url_part)
              = state_of prior).
  { simpl in H.
    repeat (destruct H as [H | H]; [subst url_part; ctx_field | ]).
    contradiction. }
  rewrite E. split; [exact V | ]. simpl in H.
  repeat (destruct H as [H | H]; [subst url_part; repeat split; ctx_field | ]).
  contradiction.
Qed.

Lemma same_value_css_uri (prior state : Z) :
  In state [STATE_CSSDQ_URL; STATE_CSSSQ_URL; STATE_CSS_URL] ->
  same_value prior
    (Z.lor (Z.lor (Z.land prior (Z.lnot (Z.lor STATE_ALL URL_PART_ALL))) state)
           URL_PART_NONE).
Proof.
  intros H. unfold same_value. simpl in H.
  repeat (destruct H as [H | H]; [subst state; repeat split; ctx_field | ]).
  contradiction.
Qed.

Lemma same_value_js_only (prior next : Z) :
  is_value_state (state_of prior) = true ->
  Z.land next (Z.lnot JS_CTX_ALL) = Z.land prior (Z.lnot JS_CTX_ALL) ->
  same_value prior next.
Proof.
  intros V H. unfold same_value, state_of, element_type_of, attr_type_of,
    delim_type_of in *.
  rewrite (field_outside_js_ctx next prior STATE_ALL eq_refl H).
  rewrite (field_outside_js_ctx next prior ELEMENT_ALL eq_refl H).
  rewrite (field_outside_js_ctx next prior ATTR_ALL eq_refl H).
  rewrite (field_outside_js_ctx next prior DELIM_ALL eq_refl H).
  auto.
Qed.

Lemma keeps_value_sound (t : transition) (prior : Z) (mt : Match) (next : Z) :
  (forall token context,
     Z.land (next_js_ctx token context) (Z.lnot JS_CTX_ALL)
     = Z.land context (Z.lnot JS_CTX_ALL)) ->
  keeps_value t = true ->
  is_applicable_to t prior mt = true ->
  is_value_state (state_of prior) = true ->
  attr_type_of prior <> ATTR_NONE ->
  compute_next_context t prior mt = Ok next ->
  is_error_context next = true \/ same_value prior next.
Proof.
  intros Hjs K A V At C.
  induction t; cbn [keeps_value] in K; cbn [is_applicable_to] in A;
    cbn [compute_next_context] in C; try discriminate K; auto.
  - (* _ToTransition *)
    apply Z.eqb_eq in K. subst dest. injection C as <-. left. reflexivity.
  - (* _TransitionToState *)
    injection C as <-. apply orb_true_iff in K. destruct K as [K | K].
    + right. apply same_value_to_state, K.
    + left. apply Z.eqb_eq in K. subst state.
      unfold is_error_context. rewrite state_of_to_state. reflexivity.
  - (* _TransitionToJsString *)
    injection C as <-. right.
    apply same_value_to_js_string, K.
  - (* _SlashTransition *)
    right. destruct (js_ctx_of prior =? JS_CTX_DIV_OP).
    + injection C as <-. apply same_value_js. left. reflexivity.
    + destruct (js_ctx_of prior =? JS_CTX_REGEX); [ | discriminate].
      injection C as <-.
      rewrite <- (Z.lor_0_r (Z.lor _ STATE_JSREGEXP)).
      apply same_value_js. right. left. reflexivity.
  - (* _JsPuncTransition *)
    injection C as <-. right. apply same_value_js_only; [exact V | apply Hjs].
  - (* _TransitionToSelf *)
    injection C as <-. right. unfold same_value. auto.
  - (* _URLPartTransition *)
    injection C as <-. right. apply same_value_url_part; [exact V | ].
    destruct (url_part_of prior =? URL_PART_NONE);
      [destruct (strip (upto (m_end mt) (m_string mt))) | ];
      match goal with
      | |- In (if ?b then _ else _) _ => destruct b
      end; simpl; auto.
  - (* _EndTagTransition *)
    apply Z.eqb_eq in A. contradiction.
  - (* _CssUriTransition *)
    injection C as <-. right. apply same_value_css_uri.
    destruct (group1 mt) as [[ | a [ | b l]] | ]; simpl; auto.
    destruct (Ascii.eqb a dquote); [auto | ].
    destruct (Ascii.eqb a squote); auto.
  - (* _DivPreceder *)
    injection C as <-. right. apply same_value_js. right. right. left. reflexivity.
Qed.

(** X12: inside an attribute value the scanner keeps the element, the
    attribute kind and the delimiter.  From a context in a value state with
    an attribute kind, provided [next_js_ctx] changes the js-ctx bits only,
    the context a step returns is the error context or is in a value state
    with the same three fields. *)
Theorem value_fields_kept (text : pystr) (context : Z) (n : nat) (context' : Z)
    (replacement : pystr) :
  (forall token prior,
     Z.land (next_js_ctx token prior) (Z.lnot JS_CTX_ALL)
     = Z.land prior (Z.lnot JS_CTX_ALL)) ->
  is_value_state (state_of context) = true ->
  attr_type_of context <> ATTR_NONE ->
  _process_next_token text context = Ok (n, context', replacement) ->
  is_error_context context' = true
  \/ (is_value_state (state_of context') = true
      /\ element_type_of context' = element_type_of context
      /\ attr_type_of context' = attr_type_of context
      /\ delim_type_of context' = delim_type_of context).
Proof.
  intros Hjs V At H. unfold _process_next_token in H.
  destruct (is_error_context context) eqn:E.
  - injection H as <- <- <-. left. exact E.
  - destruct (nth_error _TRANSITIONS (Z.to_nat (state_of context)))
      as [[rules | ] | ] eqn:N; try discriminate.
    destruct (chosen_step text context rules) as [[[n1 c1] r1] | e] eqn:Ch;
      [ | discriminate].
    cbn [bind] in H.
    destruct ((n1 =? 0)%nat && (state_of c1 =? state_of context));
      [discriminate | ].
    injection H as <- <- <-.
    unfold chosen_step in Ch.
    destruct (snd (earliest text context rules)) as [[t mt] | ] eqn:Ea.
    + destruct (chosen_is_candidate _ _ _ _ _ Ea) as (Hin & _ & A).
      destruct (compute_next_context t context mt) as [next | e] eqn:C;
        [ | discriminate].
      cbn [bind] in Ch. injection Ch as <- <- <-.
      exact (keeps_value_sound t context mt next Hjs
               (value_rules context rules t V N Hin) A V At C).
    + injection Ch as <- <- <-. left. reflexivity.
Qed.

End InsideValues.

(** ** Steps that consume nothing *)

Section EmptySteps.
Context {ext : Externals}.

(** X13: the scanner never makes three steps in a row without consuming a
    character.  After two steps on non-empty texts that consumed nothing,
    each from the context the step before it returned, the third consumes at
    least one character. *)
Theorem at_most_two_empty_steps (text1 text2 text3 : pystr)
    (context context1 context2 context3 : Z) (r1 r2 r3 : pystr) (n : nat) :
  text1 <> [] -> text2 <> [] -> text3 <> [] ->
  _process_next_token text1 context = Ok (0, context1, r1) ->
  _process_next_token text2 context1 = Ok (0, context2, r2) ->
  _process_next_token text3 context2 = Ok (n, context3, r3) ->
  0 < n.
Proof.
  intros H1 H2 H3 T1 T2 T3.
  pose proof (token_progress _ _ _ _ _ H1 T1) as P1.
  pose proof (token_progress _ _ _ _ _ H2 T2) as P2.
  pose proof (token_progress _ _ _ _ _ H3 T3) as P3.
  pose proof (rank_le_2 (state_of context)).
  lia.
Qed.

End EmptySteps.

(** ** The part of a URL *)

Section UrlPart.
Context {ext : Externals}.
Import Re.
#[local] Open Scope Z_scope.

(** A pattern with the end of the text as its last alternative matches in
    every text. *)
Lemma search_at_or_eos (r : regex) (s : pystr) :
  forall i pv, search_at (re (Or r Eos)) i pv s <> None.
Proof.
  induction s as [ | a t IH]; intros i pv;
    cbn [search_at re p_icase p_re m Re.rest].
  - destruct (m false r {| pos := i; prev := pv; rest := [] |} None
                (fun c g => Some (pos c, g))) as [[e g] | ]; discriminate.
  - destruct (m false r {| pos := i; prev := pv; rest := a :: t |} None
                (fun c g => Some (pos c, g))) as [[e g] | ]; [discriminate | ].
    apply IH.
Qed.

Lemma search_or_eos (r : regex) (s : pystr) :
  exists mt, search (re (Or r Eos)) s = Some mt.
Proof.
  unfold search.
  destruct (search_at (re (Or r Eos)) 0 None s) as [[[b e] g] | ] eqn:E.
  - eexists. reflexivity.
  - exfalso. exact (search_at_or_eos r s 0 None E).
Qed.

Lemma url_part_set (prior url_part : Z) :
  In url_part [url_part_of prior; URL_PART_PRE_QUERY; URL_PART_QUERY_OR_FRAG] ->
  Z.land (Z.lor (Z.land prior (Z.lnot URL_PART_ALL)) url_part) (Z.lnot URL_PART_ALL)
  = Z.land prior (Z.lnot URL_PART_ALL)
  /\ url_part_of (Z.lor (Z.land prior (Z.lnot URL_PART_ALL)) url_part) = url_part.
Proof.
  intros H. simpl in H.
  assert (U : Z.land url_part URL_PART_ALL = url_part).
  { repeat (destruct H as [H | H];
            [subst url_part; unfold url_part_of;
             rewrite <- ?Z.land_assoc; reflexivity | ]).
    contradiction. }
  unfold url_part_of.
  rewrite !Z.land_lor_distr_l, <- !Z.land_assoc.
  rewrite Z.land_diag.
  change (Z.land (Z.lnot URL_PART_ALL) URL_PART_ALL) with 0.
  rewrite Z.land_0_r, Z.lor_0_l.
  split; [ | exact U].
  rewrite <- U, <- Z.land_assoc.
  change (Z.land URL_PART_ALL (Z.lnot URL_PART_ALL)) with 0.
  rewrite Z.land_0_r, Z.lor_0_r. reflexivity.
Qed.

(** X14: in state URL the scanner only moves the URL part forward.  On a
    non-empty text a step returns, consumes at least one character, replaces
    it by itself, changes no field of the context but the URL part, and the
    URL part stays as it was, goes from NONE to PRE_QUERY, or becomes
    QUERY_OR_FRAG. *)
Theorem url_part_advances (text : pystr) (context : Z) :
  state_of context = STATE_URL ->
  text <> [] ->
  exists n context',
    _process_next_token text context = Ok (n, context', upto n text)
    /\ (0 < n <= List.length text)%nat
    /\ Z.land context' (Z.lnot URL_PART_ALL) = Z.land context (Z.lnot URL_PART_ALL)
    /\ (url_part_of context' = url_part_of context
        \/ (url_part_of context = URL_PART_NONE
            /\ url_part_of context' = URL_PART_PRE_QUERY)
        \/ url_part_of context' = URL_PART_QUERY_OR_FRAG).
Proof.
  intros St Ht.
  assert (E : is_error_context context = false).
  { unfold is_error_context. rewrite St. reflexivity. }
  assert (N : nth_error _TRANSITIONS (Z.to_nat (state_of context))
              = Some (Some URL_rules)).
  { rewrite St. reflexivity. }
  pose proof (process_next_token_unguarded text context URL_rules Ht E N) as P.
  destruct (search_or_eos (Group1 (set [one "?"; one "#"])) text) as [mt Hs].
  assert (Ch : snd (earliest text context URL_rules)
               = Some (_URL_PART_TRANSITION, mt)).
  { unfold earliest, URL_rules, _URL_PART_TRANSITION.
    cbn [fold_left]. unfold scan_step. cbn [pattern_of].
    rewrite Hs. cbn [is_applicable_to fst].
    replace (m_start mt <? S (List.length text))%nat with true
      by (symmetry; apply Nat.ltb_lt; pose proof (search_start_le _ _ _ Hs); lia).
    reflexivity. }
  unfold chosen_step in P. rewrite Ch in P.
  unfold _URL_PART_TRANSITION in P.
  cbn [compute_next_context bind raw_text] in P.
  rewrite (search_string _ _ _ Hs) in P.
  match type of P with
  | _ = Ok (_, Z.lor _ ?u, _) => set (url_part := u) in *
  end.
  assert (Hu : In url_part [url_part_of context; URL_PART_PRE_QUERY;
                            URL_PART_QUERY_OR_FRAG]).
  { unfold url_part.
    destruct (url_part_of context =? URL_PART_NONE);
      [destruct (strip (upto (m_end mt) text)) | ];
      match goal with
      | |- In (if ?b then _ else _) _ => destruct b
      end; simpl; auto. }
  destruct (url_part_set context url_part Hu) as [K1 K2].
  eexists _, _. split; [exact P | ].
  split; [ | split; [exact K1 | ]].
  - split; [ | exact (search_end_le _ _ _ Hs)].
    destruct (token_progress _ _ _ _ _ Ht P) as [L | L]; [exact L | ].
    rewrite St in L. change (rank STATE_URL) with 0%nat in L. lia.
  - rewrite K2. unfold url_part.
    destruct (url_part_of context =? URL_PART_NONE) eqn:U0.
    + apply Z.eqb_eq in U0.
      destruct (strip (upto (m_end mt) text));
        match goal with
        | |- (if ?b then _ else _) = _ \/ _ => destruct b
        end; auto.
    + match goal with
      | |- (if ?b then _ else _) = _ \/ _ => destruct b
      end; auto.
Qed.

End UrlPart.

(** ** HTML comments *)

Section HtmlComments.
Context {ext : Externals}.
Import Re.

(** X15: the text of an HTML comment is left out of the normalized text.  In
    state HTMLCMT a step on a non-empty text returns, consumes at least one
    character, replaces what it consumes by the empty text, and goes to the
    context TEXT (at the end of the comment) or stays in the same context. *)
Theorem html_comment_elided (text : pystr) (context : Z) :
  state_of context = STATE_HTMLCMT ->
  text <> [] ->
  exists n context',
    _process_next_token text context = Ok (n, context', [])
    /\ 0 < n <= List.length text
    /\ (context' = STATE_TEXT \/ context' = context).
Proof.
  intros St Ht.
  assert (E : is_error_context context = false).
  { unfold is_error_context. rewrite St. reflexivity. }
  assert (N : nth_error _TRANSITIONS (Z.to_nat (state_of context))
              = Some (Some HTMLCMT_rules)).
  { rewrite St. reflexivity. }
  pose proof (process_next_token_unguarded text context HTMLCMT_rules Ht E N) as P.
  unfold chosen_step in P.
  destruct (snd (earliest text context HTMLCMT_rules)) as [[t mt] | ] eqn:Ea.
  - destruct (chosen_is_candidate _ _ _ _ _ Ea) as (Hin & Hs & _).
    assert (C : exists context',
               compute_next_context t context mt = Ok context'
               /\ raw_text t mt = []
               /\ (context' = STATE_TEXT \/ context' = context)).
    { simpl in Hin. destruct Hin as [<- | [<- | []]].
      - exists STATE_TEXT. auto.
      - exists context. auto. }
    destruct C as (context' & C1 & C2 & C3).
    rewrite C1, C2 in P. cbn [bind] in P.
    exists (m_end mt), context'. split; [exact P | ]. split; [ | exact C3].
    split; [ | exact (search_end_le _ _ _ Hs)].
    destruct (token_progress _ _ _ _ _ Ht P) as [L | L]; [exact L | ].
    rewrite St in L. change (rank STATE_HTMLCMT) with 0 in L. lia.
  - exfalso.
    destruct (earliest_spec text context HTMLCMT_rules)
      as [[Hc _] | (i & tm & _ & E2)]; [ | congruence].
    assert (Hin : In (_NormalizeTransition _TRANSITION_TO_SELF [] true,
                      {| m_string := text; m_start := List.length text;
                         m_end := List.length text; m_group1 := None |})
                     (candidates text context HTMLCMT_rules)).
    { apply In_candidates. split; [right; left; reflexivity | ].
      split; [exact (search_eos text) | reflexivity]. }
    rewrite Hc in Hin. exact Hin.
Qed.

End HtmlComments.

(** ** The error contexts the scanner makes *)

Section ErrorContexts.
Context {ext : Externals}.
Import Re.
#[local] Open Scope Z_scope.






End ErrorContexts.

(** ** The further properties at particular inputs *)

(** On [<b>] in state TEXT the guard does not fire. *)
Lemma infinite_loop_guard_unreachable_witness :
  str "<b>" <> []
  /\ _process_next_token (ext := plain_externals) (str "<b>") STATE_TEXT
     <> Raise (InfLoop (str "<b>") STATE_TEXT).
Proof.
  assert (H : str "<b>" <> []) by discriminate.
  split; [exact H | ].
  exact (infinite_loop_guard_unreachable (ext := plain_externals)
           (str "<b>") STATE_TEXT (str "<b>") STATE_TEXT H).
Defined.

(** On [<b>] in state TEXT the scanner consumes the [<]. *)
Lemma process_next_token_within_witness :
  _process_next_token (ext := plain_externals) (str "<b>") STATE_TEXT
  = Ok (1, STATE_HTML_BEFORE_TAG_NAME, str "<")
  /\ 1 <= List.length (str "<b>").
Proof.
  assert (H : _process_next_token (ext := plain_externals) (str "<b>") STATE_TEXT
              = Ok (1, STATE_HTML_BEFORE_TAG_NAME, str "<"))
    by (vm_compute; reflexivity).
  split; [exact H | ].
  exact (process_next_token_within (ext := plain_externals)
           (str "<b>") STATE_TEXT 1 STATE_HTML_BEFORE_TAG_NAME (str "<") H).
Defined.

(** A slash in JS with js-ctx UNKNOWN. *)
Lemma process_next_token_exceptions_witness :
  str "/" <> []
  /\ _process_next_token (ext := plain_externals) (str "/")
       (Z.lor STATE_JS JS_CTX_UNKNOWN)
     = Raise (ContextUpdateFailure (AmbiguousSlash (str "/")))
  /\ ((ContextUpdateFailure (AmbiguousSlash (str "/")) = IndexError
       /\ (COUNT_OF_STATES <= state_of (Z.lor STATE_JS JS_CTX_UNKNOWN))%Z)
      \/ (ContextUpdateFailure (AmbiguousSlash (str "/")) = KeyError
          /\ state_of (Z.lor STATE_JS JS_CTX_UNKNOWN) = STATE_TAG
          /\ _TAG_DONE_ELEMENT_TO_PARTIAL_CONTEXT
               (element_type_of (Z.lor STATE_JS JS_CTX_UNKNOWN)) = None)
      \/ (exists i,
             ContextUpdateFailure (AmbiguousSlash (str "/"))
             = ContextUpdateFailure (AmbiguousSlash (from i (str "/")))
             /\ nth_error (str "/") i = Some "/"%char
             /\ state_of (Z.lor STATE_JS JS_CTX_UNKNOWN) = STATE_JS
             /\ js_ctx_of (Z.lor STATE_JS JS_CTX_UNKNOWN) <> JS_CTX_DIV_OP
             /\ js_ctx_of (Z.lor STATE_JS JS_CTX_UNKNOWN) <> JS_CTX_REGEX)).
Proof.
  assert (H1 : str "/" <> []) by discriminate.
  assert (H2 : _process_next_token (ext := plain_externals) (str "/")
                 (Z.lor STATE_JS JS_CTX_UNKNOWN)
               = Raise (ContextUpdateFailure (AmbiguousSlash (str "/"))))
    by (vm_compute; reflexivity).
  split; [exact H1 | ]. split; [exact H2 | ].
  exact (process_next_token_exceptions (ext := plain_externals)
           (str "/") (Z.lor STATE_JS JS_CTX_UNKNOWN)
           (ContextUpdateFailure (AmbiguousSlash (str "/"))) H1 H2).
Defined.

(** An equals sign in an unquoted attribute value. *)
Lemma process_raw_text_exceptions_witness :
  process_raw_text (ext := plain_externals) (str "a=b")
    (Z.lor STATE_ATTR DELIM_SPACE_OR_TAG_END)
  = Some (Raise (ContextUpdateFailure (BadUnquotedChar (str "=") (str "a=b"))))
  /\ (ContextUpdateFailure (BadUnquotedChar (str "=") (str "a=b")) = IndexError
      \/ ContextUpdateFailure (BadUnquotedChar (str "=") (str "a=b")) = KeyError
      \/ exists msg,
           ContextUpdateFailure (BadUnquotedChar (str "=") (str "a=b"))
           = ContextUpdateFailure msg).
Proof.
  assert (H : process_raw_text (ext := plain_externals) (str "a=b")
                (Z.lor STATE_ATTR DELIM_SPACE_OR_TAG_END)
              = Some (Raise (ContextUpdateFailure
                               (BadUnquotedChar (str "=") (str "a=b")))))
    by (vm_compute; reflexivity).
  split; [exact H | ].
  exact (process_raw_text_exceptions (ext := plain_externals) (str "a=b")
           (Z.lor STATE_ATTR DELIM_SPACE_OR_TAG_END)
           (ContextUpdateFailure (BadUnquotedChar (str "=") (str "a=b"))) H).
Defined.

(** A text given with the error context comes back with it. *)
Lemma process_raw_text_result_shape_witness :
  str "<b" <> []
  /\ process_raw_text (ext := plain_externals) (str "<b") STATE_ERROR
     = Some (Ok (STATE_ERROR, None, Some STATE_ERROR, Some (str "<b")))
  /\ ((is_error_context STATE_ERROR = false
       /\ (exists t, @None pystr = Some t)
       /\ Some STATE_ERROR = None /\ Some (str "<b") = None)
      \/ (is_error_context STATE_ERROR = true /\ @None pystr = None
          /\ exists prior suffix k,
              Some STATE_ERROR = Some prior /\ Some (str "<b") = Some suffix
              /\ suffix <> [] /\ suffix = from k (str "<b")
              /\ (is_error_context prior = false
                  \/ (prior = STATE_ERROR /\ suffix = str "<b")))).
Proof.
  assert (H1 : str "<b" <> []) by discriminate.
  assert (H2 : process_raw_text (ext := plain_externals) (str "<b") STATE_ERROR
               = Some (Ok (STATE_ERROR, None, Some STATE_ERROR, Some (str "<b"))))
    by (vm_compute; reflexivity).
  split; [exact H1 | ]. split; [exact H2 | ].
  exact (process_raw_text_result_shape (ext := plain_externals) (str "<b")
           STATE_ERROR STATE_ERROR None (Some STATE_ERROR) (Some (str "<b")) H1 H2).
Defined.

(** Joining JS before a regex with JS before a division. *)
Lemma context_union_result_witness :
  context_union (ext := plain_externals)
    (Z.lor STATE_JS JS_CTX_REGEX) (Z.lor STATE_JS JS_CTX_DIV_OP)
  = Ok (Z.lor STATE_JS JS_CTX_UNKNOWN)
  /\ (Z.lor STATE_JS JS_CTX_UNKNOWN = STATE_ERROR
      \/ exists n,
          let a' := Nat.iter n (force_epsilon_transition (Externals := plain_externals))
                      (Z.lor STATE_JS JS_CTX_REGEX) in
          let b' := Nat.iter n (force_epsilon_transition (Externals := plain_externals))
                      (Z.lor STATE_JS JS_CTX_DIV_OP) in
          (a' = b' /\ Z.lor STATE_JS JS_CTX_UNKNOWN = a')
          \/ (Z.land a' (Z.lnot JS_CTX_ALL) = Z.land b' (Z.lnot JS_CTX_ALL)
              /\ Z.lor STATE_JS JS_CTX_UNKNOWN
                 = Z.lor (Z.land a' (Z.lnot JS_CTX_ALL)) JS_CTX_UNKNOWN)
          \/ (Z.land a' (Z.lnot URL_PART_ALL) = Z.land b' (Z.lnot URL_PART_ALL)
              /\ Z.lor STATE_JS JS_CTX_UNKNOWN
                 = Z.lor (Z.land a' (Z.lnot URL_PART_ALL)) URL_PART_UNKNOWN)).
Proof.
  assert (H : context_union (ext := plain_externals)
                (Z.lor STATE_JS JS_CTX_REGEX) (Z.lor STATE_JS JS_CTX_DIV_OP)
              = Ok (Z.lor STATE_JS JS_CTX_UNKNOWN))
    by (vm_compute; reflexivity).
  split; [exact H | ].
  exact (context_union_result (ext := plain_externals)
           (Z.lor STATE_JS JS_CTX_REGEX) (Z.lor STATE_JS JS_CTX_DIV_OP)
           (Z.lor STATE_JS JS_CTX_UNKNOWN) H).
Defined.

(** The text [abc] in state TEXT. *)
Lemma text_without_markup_witness :
  state_of STATE_TEXT = STATE_TEXT
  /\ delim_type_of STATE_TEXT = DELIM_NONE
  /\ ~ In "<"%char (str "abc")
  /\ process_raw_text (ext := plain_externals) (str "abc") STATE_TEXT
     = Some (Ok (STATE_TEXT, Some (str "abc"), None, None)).
Proof.
  assert (H : ~ In "<"%char (str "abc")).
  { simpl. intros [E | [E | [E | []]]]; discriminate E. }
  split; [reflexivity | ]. split; [reflexivity | ]. split; [exact H | ].
  exact (proj2 (text_without_markup (ext := plain_externals) (str "abc") STATE_TEXT
                  eq_refl eq_refl H)).
Defined.

(** The value [abc] of a plain attribute in double quotes, the closing quote
    not yet in the text. *)
Lemma plain_quoted_value_witness :
  state_of (Z.lor STATE_ATTR DELIM_DOUBLE_QUOTE) = STATE_ATTR
  /\ DELIM_TEXT (delim_type_of (Z.lor STATE_ATTR DELIM_DOUBLE_QUOTE)) = Some [dquote]
  /\ ~ In dquote (str "abc")
  /\ process_raw_text (ext := plain_externals) (str "abc")
       (Z.lor STATE_ATTR DELIM_DOUBLE_QUOTE)
     = Some (Ok (Z.lor STATE_ATTR DELIM_DOUBLE_QUOTE, Some (str "abc"), None, None)).
Proof.
  assert (H : ~ In dquote (str "abc")).
  { simpl. intros [E | [E | [E | []]]]; discriminate E. }
  assert (N : str "abc" <> []) by discriminate.
  split; [reflexivity | ]. split; [reflexivity | ]. split; [exact H | ].
  exact (proj2 (plain_quoted_value (ext := plain_externals) (str "abc")
                  (Z.lor STATE_ATTR DELIM_DOUBLE_QUOTE) dquote
                  eq_refl eq_refl H) N).
Defined.

(** The error context before a closing double quote. *)
Lemma error_context_lost_at_quote_witness :
  is_error_context (Z.lor STATE_ERROR DELIM_DOUBLE_QUOTE) = true
  /\ DELIM_TEXT (delim_type_of (Z.lor STATE_ERROR DELIM_DOUBLE_QUOTE)) = Some [dquote]
  /\ ~ In dquote (str "x")
  /\ process_raw_text_loop (ext := plain_externals) 6
       (str "x" ++ dquote :: str ">") (Z.lor STATE_ERROR DELIM_DOUBLE_QUOTE) []
     = process_raw_text_loop (ext := plain_externals) 5 (str ">")
         (Z.lor STATE_TAG (element_type_of (Z.lor STATE_ERROR DELIM_DOUBLE_QUOTE)))
         (str "x" ++ [dquote]).
Proof.
  assert (H : ~ In dquote (str "x")).
  { simpl. intros [E | []]; discriminate E. }
  split; [reflexivity | ]. split; [reflexivity | ]. split; [exact H | ].
  exact (error_context_lost_at_quote (ext := plain_externals) (str "x")
           (Z.lor STATE_ERROR DELIM_DOUBLE_QUOTE) dquote 5 (str ">") []
           eq_refl eq_refl H).
Defined.

(** A step in the value of an event handler in double quotes. *)
Lemma value_fields_kept_witness :
  (forall token prior,
     Z.land (next_js_ctx (Externals := plain_externals) token prior)
            (Z.lnot JS_CTX_ALL)
     = Z.land prior (Z.lnot JS_CTX_ALL))
  /\ is_value_state (state_of (Z.lor (Z.lor (Z.lor STATE_JS ATTR_SCRIPT) DELIM_DOUBLE_QUOTE) JS_CTX_DIV_OP)) = true
  /\ attr_type_of (Z.lor (Z.lor (Z.lor STATE_JS ATTR_SCRIPT) DELIM_DOUBLE_QUOTE) JS_CTX_DIV_OP) <> ATTR_NONE
  /\ _process_next_token (ext := plain_externals) (str "a/2") (Z.lor (Z.lor (Z.lor STATE_JS ATTR_SCRIPT) DELIM_DOUBLE_QUOTE) JS_CTX_DIV_OP)
     = Ok (1, (Z.lor (Z.lor (Z.lor STATE_JS ATTR_SCRIPT) DELIM_DOUBLE_QUOTE) JS_CTX_DIV_OP), str "a")
  /\ (is_error_context (Z.lor (Z.lor (Z.lor STATE_JS ATTR_SCRIPT) DELIM_DOUBLE_QUOTE) JS_CTX_DIV_OP) = true
      \/ (is_value_state (state_of (Z.lor (Z.lor (Z.lor STATE_JS ATTR_SCRIPT) DELIM_DOUBLE_QUOTE) JS_CTX_DIV_OP)) = true
          /\ element_type_of (Z.lor (Z.lor (Z.lor STATE_JS ATTR_SCRIPT) DELIM_DOUBLE_QUOTE) JS_CTX_DIV_OP) = element_type_of (Z.lor (Z.lor (Z.lor STATE_JS ATTR_SCRIPT) DELIM_DOUBLE_QUOTE) JS_CTX_DIV_OP)
          /\ attr_type_of (Z.lor (Z.lor (Z.lor STATE_JS ATTR_SCRIPT) DELIM_DOUBLE_QUOTE) JS_CTX_DIV_OP) = attr_type_of (Z.lor (Z.lor (Z.lor STATE_JS ATTR_SCRIPT) DELIM_DOUBLE_QUOTE) JS_CTX_DIV_OP)
          /\ delim_type_of (Z.lor (Z.lor (Z.lor STATE_JS ATTR_SCRIPT) DELIM_DOUBLE_QUOTE) JS_CTX_DIV_OP) = delim_type_of (Z.lor (Z.lor (Z.lor STATE_JS ATTR_SCRIPT) DELIM_DOUBLE_QUOTE) JS_CTX_DIV_OP))).
Proof.
  assert (H1 : forall token prior,
             Z.land (next_js_ctx (Externals := plain_externals) token prior)
                    (Z.lnot JS_CTX_ALL)
             = Z.land prior (Z.lnot JS_CTX_ALL)).
  { intros token prior. cbn [next_js_ctx plain_externals].
    rewrite Z.land_lor_distr_l, <- Z.land_assoc, Z.land_diag.
    change (Z.land JS_CTX_DIV_OP (Z.lnot JS_CTX_ALL)) with 0%Z.
    apply Z.lor_0_r. }
  assert (H2 : is_value_state (state_of (Z.lor (Z.lor (Z.lor STATE_JS ATTR_SCRIPT) DELIM_DOUBLE_QUOTE) JS_CTX_DIV_OP)) = true) by reflexivity.
  assert (H3 : attr_type_of (Z.lor (Z.lor (Z.lor STATE_JS ATTR_SCRIPT) DELIM_DOUBLE_QUOTE) JS_CTX_DIV_OP) <> ATTR_NONE) by discriminate.
  assert (H4 : _process_next_token (ext := plain_externals) (str "a/2") (Z.lor (Z.lor (Z.lor STATE_JS ATTR_SCRIPT) DELIM_DOUBLE_QUOTE) JS_CTX_DIV_OP)
               = Ok (1, (Z.lor (Z.lor (Z.lor STATE_JS ATTR_SCRIPT) DELIM_DOUBLE_QUOTE) JS_CTX_DIV_OP), str "a")) by (vm_compute; reflexivity).
  split; [exact H1 | ]. split; [exact H2 | ]. split; [exact H3 | ].
  split; [exact H4 | ].
  exact (value_fields_kept (ext := plain_externals) (str "a/2") (Z.lor (Z.lor (Z.lor STATE_JS ATTR_SCRIPT) DELIM_DOUBLE_QUOTE) JS_CTX_DIV_OP) 1 (Z.lor (Z.lor (Z.lor STATE_JS ATTR_SCRIPT) DELIM_DOUBLE_QUOTE) JS_CTX_DIV_OP)
           (str "a") H1 H2 H3 H4).
Defined.

(** At [>] after an attribute name: two steps that consume nothing, to
    AFTER_NAME and to TAG, then the end of the tag. *)
Lemma at_most_two_empty_steps_witness :
  str ">" <> []
  /\ _process_next_token (ext := plain_externals) (str ">") STATE_ATTR_NAME
     = Ok (0, STATE_AFTER_NAME, [])
  /\ _process_next_token (ext := plain_externals) (str ">") STATE_AFTER_NAME
     = Ok (0, STATE_TAG, [])
  /\ _process_next_token (ext := plain_externals) (str ">") STATE_TAG
     = Ok (1, STATE_TEXT, str ">")
  /\ 0 < 1.
Proof.
  assert (H : str ">" <> []) by discriminate.
  assert (T1 : _process_next_token (ext := plain_externals) (str ">") STATE_ATTR_NAME
               = Ok (0, STATE_AFTER_NAME, [])) by (vm_compute; reflexivity).
  assert (T2 : _process_next_token (ext := plain_externals) (str ">") STATE_AFTER_NAME
               = Ok (0, STATE_TAG, [])) by (vm_compute; reflexivity).
  assert (T3 : _process_next_token (ext := plain_externals) (str ">") STATE_TAG
               = Ok (1, STATE_TEXT, str ">")) by (vm_compute; reflexivity).
  split; [exact H | ]. split; [exact T1 | ]. split; [exact T2 | ].
  split; [exact T3 | ].
  exact (at_most_two_empty_steps (ext := plain_externals)
           (str ">") (str ">") (str ">")
           STATE_ATTR_NAME STATE_AFTER_NAME STATE_TAG STATE_TEXT
           [] [] (str ">") 1 H H H T1 T2 T3).
Defined.

(** A URL with a query. *)
Lemma url_part_advances_witness :
  state_of STATE_URL = STATE_URL
  /\ str "a?b" <> []
  /\ exists n context',
       _process_next_token (ext := plain_externals) (str "a?b") STATE_URL
       = Ok (n, context', upto n (str "a?b"))
       /\ 0 < n <= List.length (str "a?b")
       /\ Z.land context' (Z.lnot URL_PART_ALL) = Z.land STATE_URL (Z.lnot URL_PART_ALL)
       /\ (url_part_of context' = url_part_of STATE_URL
           \/ (url_part_of STATE_URL = URL_PART_NONE
               /\ url_part_of context' = URL_PART_PRE_QUERY)
           \/ url_part_of context' = URL_PART_QUERY_OR_FRAG).
Proof.
  assert (H : str "a?b" <> []) by discriminate.
  split; [reflexivity | ]. split; [exact H | ].
  exact (url_part_advances (ext := plain_externals) (str "a?b") STATE_URL eq_refl H).
Defined.

(** A comment and its end. *)
Lemma html_comment_elided_witness :
  state_of STATE_HTMLCMT = STATE_HTMLCMT
  /\ str "x-->" <> []
  /\ exists n context',
       _process_next_token (ext := plain_externals) (str "x-->") STATE_HTMLCMT
       = Ok (n, context', [])
       /\ 0 < n <= List.length (str "x-->")
       /\ (context' = STATE_TEXT \/ context' = STATE_HTMLCMT).
Proof.
  assert (H : str "x-->" <> []) by discriminate.
  split; [reflexivity | ]. split; [exact H | ].
  exact (html_comment_elided (ext := plain_externals) (str "x-->") STATE_HTMLCMT
           eq_refl H).
Defined.

